(** * txvmbcd: block and snapshot stores, and the /get handler

    A shallow embedding of the two [blockStore] implementations of txvmbcd
    (the filesystem tree of store.go and the bbolt database of the second
    store file) and of the height resolution done by the [/get] handler,
    followed by the properties proved about them.

    Conventions.
    - A Go [uint64] is a [Z] in the range [0, 2^64); arithmetic that can
      leave the range is wrapped with [wrap64].  A Go [int] is a [Z] in
      [-2^63, 2^63).
    - A [[]byte] is a [list Z] of values below 256.
    - A Go function returning [error] returns [option error] ([None] is
      [nil]); one returning [(T, error)] returns [result T].  A nil pointer
      dereference or an index out of range is the outcome [Panic].
    - Mutable state (the disk, the database, the store struct) is passed
      explicitly: an operation takes the state and returns the new state
      next to its result.
    - The types [bc.Block] and [state.Snapshot] belong to the txvm library;
      they enter through the classes [BlockCodec] and [SnapshotCodec], which
      list the methods the stores call on them.
    - The goroutines of the server and the channel [heights], on which
      [FinalizeHeight] sends, are not part of the embedding. *)

From Stdlib Require Import ZArith Lia String Ascii DecimalString DecimalPos DecimalZ.
From stdpp Require Import base tactics option list numbers strings sorting gmap.

Open Scope Z_scope.

(** ** Go primitives *)

Abbreviation bytes := (list Z).

Definition wrap64 (x : Z) : Z := x mod 2 ^ 64.

Definition maxUint64 : Z := 2 ^ 64 - 1.

Module strconv.

(** The value of a decimal digit, [None] for any other byte. *)
Definition digit_of (c : ascii) : option Z :=
  let v := Z.of_N (N_of_ascii c) in
  if (48 <=? v) && (v <=? 57) then Some (v - 48) else None.

(** The loop of [strconv.ParseUint] for base 10 and 64 bits: [None] is a
    syntax or range error. *)
Fixpoint ParseUint_loop (s : string) (n : Z) : option Z :=
  match s with
  | EmptyString => Some n
  | String c s' =>
      match digit_of c with
      | None => None
      | Some d =>
          if maxUint64 / 10 + 1 <=? n then None
          else
            let n10 := n * 10 in
            let n1 := wrap64 (n10 + d) in
            if n1 <? n10 then None else ParseUint_loop s' n1
      end
  end.

(** [strconv.ParseUint(s, 10, 64)]. *)
Definition ParseUint (s : string) : option Z :=
  match s with
  | EmptyString => None
  | _ => ParseUint_loop s 0
  end.

(** [strconv.Atoi(s)] on a 64-bit platform: an optional sign, then the
    digits, the value within the range of [int]. *)
Definition Atoi (s : string) : option Z :=
  match s with
  | EmptyString => None
  | String c s' =>
      let neg := Ascii.eqb c "-" in
      let ds := if Ascii.eqb c "+" || neg then s' else s in
      match ParseUint ds with
      | None => None
      | Some un =>
          if neg then (if un <=? 2 ^ 63 then Some (- un) else None)
          else (if un <? 2 ^ 63 then Some un else None)
      end
  end.

End strconv.

Module fmt.

(** [fmt.Sprintf("%d", z)]. *)
Definition d (z : Z) : string := NilZero.string_of_int (Z.to_int z).

(** [fmt.Sprintf("%d-%d", a, b)]. *)
Definition d_d (a b : Z) : string := d a +:+ "-" +:+ d b.

End fmt.

Module path.

(** A path in the form [path.Clean] leaves it: whether it starts at the
    root, and its elements in order.  Every string that [path.Join]
    returns is the [str] of such a value. *)
Record t := Path { rooted : bool; comps : list string }.

(** The elements between the slashes of a string. *)
Fixpoint split (s : string) : list string :=
  match s with
  | EmptyString => [EmptyString]
  | String c s' =>
      if Ascii.eqb c "/" then EmptyString :: split s'
      else match split s' with
           | w :: ws => String c w :: ws
           | [] => [String c EmptyString]
           end
  end.

(** One element processed by [path.Clean]: empty and [.] elements are
    dropped, [..] removes the element before it (and is kept at the start
    of a path that is not rooted), any other element is appended. *)
Definition clean_step (r : bool) (st : list string) (c : string) : list string :=
  if bool_decide (c = "" ∨ c = ".") then st
  else if bool_decide (c = "..") then
    match last st with
    | Some top =>
        if bool_decide (top = "..") then (if r then st else st ++ [".."])
        else removelast st
    | None => if r then st else [".."]
    end
  else st ++ [c].

Definition is_rooted (s : string) : bool :=
  match s with
  | String c _ => Ascii.eqb c "/"
  | EmptyString => false
  end.

(** [path.Clean(s)]. *)
Definition Clean (s : string) : t :=
  let r := is_rooted s in Path r (fold_left (clean_step r) (split s) []).

(** [path.Join(p, e)] for [p] already clean: [Clean(p + "/" + e)]. *)
Definition Join (p : t) (e : string) : t :=
  Path (rooted p) (fold_left (clean_step (rooted p)) (split e) (comps p)).

(** [path.Join(a, e)] for any string [a] and a non-empty [e]: an empty
    [a] is skipped. *)
Definition JoinS (a e : string) : t :=
  if bool_decide (a = "") then Clean e else Join (Clean a) e.

Fixpoint concat_slash (cs : list string) : string :=
  match cs with
  | [] => ""
  | [c] => c
  | c :: cs' => c +:+ "/" +:+ concat_slash cs'
  end.

(** The string of a clean path, as Go holds it. *)
Definition str (p : t) : string :=
  match comps p with
  | [] => if rooted p then "/" else "."
  | cs => (if rooted p then "/" else "") +:+ concat_slash cs
  end.

(** The directory a path lies in. *)
Definition parent (p : t) : t := Path (rooted p) (removelast (comps p)).

(** The last element of a path. *)
Definition base (p : t) : option string := last (comps p).

(** The path itself and the directories above it, the root left out. *)
Definition prefixes (p : t) : list t :=
  (λ n, Path (rooted p) (take (S n) (comps p))) <$> seq 0 (length (comps p)).

#[global] Instance t_eq_dec : EqDecision t.
Proof. solve_decision. Defined.

#[global] Instance t_countable : Countable t.
Proof.
  refine (inj_countable' (λ p, (rooted p, comps p)) (λ x, Path x.1 x.2) _).
  intros []; reflexivity.
Defined.

End path.

Module binary.

Definition MaxVarintLen64 : Z := 10.

(** The loop of [binary.PutUvarint]: one byte for every seven bits, the
    high bit set on all but the last.  [room] is the number of bytes left
    in the buffer after the current one; a [uint64] never needs more than
    [MaxVarintLen64] bytes, so the loop does not run out of room (lemma
    [Uvarint_PutUvarint_loop]). *)
Fixpoint PutUvarint_loop (room : nat) (x : Z) : bytes :=
  if 128 <=? x then
    match room with
    | O => [Z.lor (x mod 256) 128]
    | S room' => Z.lor (x mod 256) 128 :: PutUvarint_loop room' (Z.shiftr x 7)
    end
  else [x mod 256].

(** [buf[:binary.PutUvarint(buf[:], x)]] for a buffer of
    [MaxVarintLen64] bytes. *)
Definition PutUvarint (x : Z) : bytes := PutUvarint_loop 9 x.

(** The loop of [binary.Uvarint]: [i] is the index of the next byte, [x]
    the value read so far and [s] the shift of the next byte. *)
Fixpoint Uvarint_loop (buf : bytes) (i x s : Z) : Z * Z :=
  match buf with
  | [] => (0, 0)
  | b :: buf' =>
      if i =? MaxVarintLen64 then (0, - (i + 1))
      else if b <? 128 then
        if (i =? MaxVarintLen64 - 1) && (1 <? b) then (0, - (i + 1))
        else (Z.lor x (wrap64 (Z.shiftl b s)), i + 1)
      else
        Uvarint_loop buf' (i + 1)
          (Z.lor x (wrap64 (Z.shiftl (Z.land b 127) s))) (s + 7)
  end.

(** [binary.Uvarint(buf)]: the value and the number of bytes read, which
    is not positive on failure. *)
Definition Uvarint (buf : bytes) : Z * Z := Uvarint_loop buf 0 0 0.

End binary.

(** ** Errors and results *)

Inductive error :=
  | ENOENT                        (* os: no such file or directory *)
  | EEXIST                        (* os: file exists *)
  | EISDIR                        (* os: is a directory *)
  | ENOTDIR                       (* os: not a directory *)
  | ErrBucketExists               (* bbolt: bucket already exists *)
  | ErrCodec                      (* txvm: Bytes or FromBytes failed *)
  | ErrNew (msg : string)         (* errors.New, fmt.Errorf *)
  | Wrap (msg : string) (cause : error).  (* errors.Wrap, errors.Wrapf *)

(** [errors.Root(err)]. *)
Fixpoint Root (e : error) : error :=
  match e with
  | Wrap _ cause => Root cause
  | _ => e
  end.

(** [os.IsNotExist(err)] and [os.IsExist(err)]. *)
Definition IsNotExist (e : error) : bool :=
  match e with ENOENT => true | _ => false end.

Definition IsExist (e : error) : bool :=
  match e with EEXIST => true | _ => false end.

Inductive result (A : Type) :=
  | Ok (a : A)
  | Err (e : error)
  | Panic.
Arguments Ok {A} a.
Arguments Err {A} e.
Arguments Panic {A}.

(** [fmt.Errorf("conflicting version of block %d already exists", h)] and
    its counterpart in the database store. *)
Definition conflict_fs (h : Z) : error :=
  ErrNew ("conflicting version of block " +:+ fmt.d h +:+ " already exists").

Definition conflict_db (h : Z) : error :=
  ErrNew ("conflicting block " +:+ fmt.d h +:+ " already exists").

Definition is_conflict (e : error) : Prop :=
  ∃ h, e = conflict_fs h ∨ e = conflict_db h.

(** ** The txvm types the stores handle *)

(** [bc.Block]: the field [Height] and the methods [Bytes] and
    [FromBytes]. *)
Class BlockCodec (Block : Type) := {
  block_height : Block → Z;
  block_bytes : Block → option bytes;
  block_from_bytes : bytes → option Block;
}.

(** [state.Snapshot]: the methods [Height], [Bytes] and [FromBytes], and
    the snapshot [state.Empty()]. *)
Class SnapshotCodec (Snapshot : Type) := {
  snapshot_height : Snapshot → Z;
  snapshot_bytes : Snapshot → option bytes;
  snapshot_from_bytes : bytes → option Snapshot;
  snapshot_empty : Snapshot;
}.

Definition is_uint64 (x : Z) : Prop := 0 ≤ x < 2 ^ 64.

(** A block or snapshot on the wire, for concrete runs: the value is its
    own encoding and its height is the varint the encoding starts with. *)
Definition wire_height (bits : bytes) : Z := (binary.Uvarint bits).1.

Definition wire_block : BlockCodec bytes :=
  {| block_height := wire_height;
     block_bytes := Some;
     block_from_bytes := Some |}.

Definition wire_snapshot : SnapshotCodec bytes :=
  {| snapshot_height := wire_height;
     snapshot_bytes := Some;
     snapshot_from_bytes := Some;
     snapshot_empty := [] |}.

(** ** The file system

    The disk is the set of its directories and the contents of its regular
    files, both keyed by clean path; the two roots ([/] and the working
    directory) always exist, and a directory above the working directory
    is in the set once [MkdirAll] has passed through it.  There are no
    symbolic links, and permissions and device errors are left out, so an
    operation fails only for the reasons listed with it.  The store hands
    the operating system clean paths, the results of [path.Join], which
    are taken as they are; the one name it hands over as it was given,
    the directory of [newBlockStore], is looked up element by element. *)
Module os.

Record FS := { files : gmap path.t bytes; dirs : gset path.t }.

Definition empty : FS := {| files := ∅; dirs := ∅ |}.

Definition is_dir (fs : FS) (p : path.t) : bool :=
  bool_decide (path.comps p = [] ∨ p ∈ dirs fs).

Definition is_file (fs : FS) (p : path.t) : bool :=
  bool_decide (is_Some (files fs !! p)).

(** A directory above [p] is a regular file. *)
Definition under_file (fs : FS) (p : path.t) : bool :=
  existsb (is_file fs) (path.prefixes (path.parent p)).

(** A name that has not been through [path.Clean] is looked up element
    by element.  With no symbolic links, the directory reached after the
    elements read so far is the one their cleaning names, and it has to
    be a directory for the next element to be read: [ENOTDIR] when it is
    a regular file, [ENOENT] when it is missing. *)
Fixpoint walk (fs : FS) (r : bool) (cur es : list string) : result path.t :=
  match es with
  | [] => Ok (path.Path r cur)
  | e :: es' =>
      if is_dir fs (path.Path r cur)
      then walk fs r (path.clean_step r cur e) es'
      else if is_file fs (path.Path r cur) then Err ENOTDIR
      else Err ENOENT
  end.

(** The path a name given to the operating system denotes; the empty
    name denotes nothing. *)
Definition lookup (s : string) (fs : FS) : result path.t :=
  if bool_decide (s = "") then Err ENOENT
  else walk fs (path.is_rooted s) [] (path.split s).

(** [os.MkdirAll(s, 0700)] for a name [s] as it is given.  The
    directories the name passes through are made where they are missing,
    in the order of the name, and those made stay when a later element
    fails; [ENOTDIR] when the name passes through a regular file or ends
    at one. *)
Fixpoint MkdirAll_walk (r : bool) (cur es : list string) (fs : FS)
    : result unit * FS :=
  match es with
  | [] => (Ok tt, fs)
  | e :: es' =>
      let next := path.clean_step r cur e in
      if is_dir fs (path.Path r next) then MkdirAll_walk r next es' fs
      else if is_file fs (path.Path r next) then (Err ENOTDIR, fs)
      else MkdirAll_walk r next es'
             {| files := files fs;
                dirs := dirs fs ∪ {[ path.Path r next ]} |}
  end.

Definition MkdirAll_name (s : string) (fs : FS) : result unit * FS :=
  if bool_decide (s = "") then (Err ENOENT, fs)
  else MkdirAll_walk (path.is_rooted s) [] (path.split s) fs.

(** [os.MkdirAll(p, 0700)] for a clean path: nothing to do for a
    directory, [ENOTDIR] when [p] or a directory above it is a regular
    file, else [p] and the missing directories above it are created. *)
Definition MkdirAll (p : path.t) (fs : FS) : result unit * FS :=
  if is_dir fs p then (Ok tt, fs)
  else if existsb (is_file fs) (path.prefixes p) then (Err ENOTDIR, fs)
  else (Ok tt, {| files := files fs;
                 dirs := dirs fs ∪ list_to_set (path.prefixes p) |}).

(** [os.OpenFile(p, O_RDWR|O_CREATE|O_EXCL, 0600)]: creates the empty
    file [p], which must not exist. *)
Definition OpenFile_excl (p : path.t) (fs : FS) : result unit * FS :=
  if is_file fs p || is_dir fs p then (Err EEXIST, fs)
  else if under_file fs p then (Err ENOTDIR, fs)
  else if negb (is_dir fs (path.parent p)) then (Err ENOENT, fs)
  else (Ok tt, {| files := <[p := []]> (files fs); dirs := dirs fs |}).

(** [f.Write(bits)] on the file just opened at [p]. *)
Definition Write (p : path.t) (bits : bytes) (fs : FS) : result unit * FS :=
  match files fs !! p with
  | None => (Err ENOENT, fs)
  | Some old =>
      (Ok tt, {| files := <[p := bits ++ drop (length bits) old]> (files fs);
                dirs := dirs fs |})
  end.

(** [ioutil.ReadFile(p)]. *)
Definition ReadFile (p : path.t) (fs : FS) : result bytes :=
  match files fs !! p with
  | Some bits => Ok bits
  | None =>
      if is_dir fs p then Err EISDIR
      else if under_file fs p then Err ENOTDIR
      else Err ENOENT
  end.

(** [ioutil.WriteFile(p, bits, 0600)]: creates or truncates [p]. *)
Definition WriteFile (p : path.t) (bits : bytes) (fs : FS) : result unit * FS :=
  if is_dir fs p then (Err EISDIR, fs)
  else if under_file fs p then (Err ENOTDIR, fs)
  else if negb (is_dir fs (path.parent p)) then (Err ENOENT, fs)
  else (Ok tt, {| files := <[p := bits]> (files fs); dirs := dirs fs |}).

(** The entry of the directory [p] that the path [q] is, if it is one:
    its name and whether it is a directory. *)
Definition entry_of (fs : FS) (p q : path.t) : option (string * bool) :=
  if bool_decide (path.parent q = p ∧ path.comps q ≠ []
                  ∧ path.base q ≠ Some ".."%string)
  then (λ n, (n, bool_decide (q ∈ dirs fs))) <$> path.base q
  else None.

(** The order of the entries of a directory: by name. *)
Definition entry_le (a b : string * bool) : Prop := String.le a.1 b.1.

#[global] Instance entry_le_dec : RelDecision entry_le.
Proof. intros a b. unfold entry_le. apply _. Defined.

(** [ioutil.ReadDir(p)]: the entries of the directory [p], sorted by
    name. *)
Definition ReadDir (p : path.t) (fs : FS) : result (list (string * bool)) :=
  if is_dir fs p
  then Ok (merge_sort entry_le
             (omap (entry_of fs p) (elements (dom (files fs) ∪ dirs fs))))
  else if is_file fs p || under_file fs p then Err ENOTDIR
  else Err ENOENT.

(** [ioutil.ReadDir(s)] for a name [s] as it is given. *)
Definition ReadDir_name (s : string) (fs : FS)
    : result (list (string * bool)) :=
  match lookup s fs with
  | Ok p => ReadDir p fs
  | Err e => Err e
  | Panic => Panic
  end.

End os.

(** ** The filesystem store (store.go) *)
Module FsStore.

(** The struct [blockStore].  The channel [heights] is written by
    [FinalizeHeight] only, and the mutex [mu] guards [height]. *)
Record blockStore := { dir : string; height : Z }.

Definition blockFilename (root : string) (height : Z) : path.t * string :=
  let n := height / 1000 in
  (path.JoinS root
     (fmt.d_d (wrap64 (n * 1000)) (wrap64 (wrap64 (n * 1000) + 999))),
   fmt.d height).

(** The first loop of [newBlockStore]: the greatest number that is the
    name of a directory, from -1. *)
Definition highestDir_step (highestDir : Z) (info : string * bool) : Z :=
  if negb info.2 then highestDir
  else match strconv.Atoi info.1 with
       | None => highestDir
       | Some n => if highestDir <? n then n else highestDir
       end.

(** The second loop: the greatest number that is the name of a file. *)
Definition height_step (height : Z) (info : string * bool) : Z :=
  if info.2 then height
  else match strconv.ParseUint info.1 with
       | None => height
       | Some n => if height <? n then n else height
       end.

Definition newBlockStore (dir : string) (fs : os.FS)
    : result blockStore * os.FS :=
  match os.MkdirAll_name dir fs with
  | (Err e, fs1) => (Err (Wrap ("creating dir " +:+ dir) e), fs1)
  | (Panic, fs1) => (Panic, fs1)
  | (Ok _, fs1) =>
      match os.ReadDir_name dir fs1 with
      | Ok infos =>
          let highestDir := fold_left highestDir_step infos (-1) in
          if 0 <=? highestDir then
            let subdir := path.JoinS dir (fmt.d highestDir) in
            match os.ReadDir subdir fs1 with
            | Ok infos2 =>
                (Ok {| dir := dir;
                       height := fold_left height_step infos2 0 |}, fs1)
            | Err e =>
                (Err (Wrap ("reading " +:+ path.str subdir) e), fs1)
            | Panic => (Panic, fs1)
            end
          else (Ok {| dir := dir; height := 0 |}, fs1)
      | Err e => (Err (Wrap ("reading dir " +:+ dir) e), fs1)
      | Panic => (Panic, fs1)
      end
  end.

Definition Height (s : blockStore) : result Z := Ok (height s).

Section methods.
Context {Block Snapshot : Type}.
Context {BC : BlockCodec Block} {SC : SnapshotCodec Snapshot}.

Definition GetBlock (s : blockStore) (height : Z) (fs : os.FS)
    : result Block :=
  let '(dir, filename) := blockFilename (dir s) height in
  let filename := path.Join dir filename in
  match os.ReadFile filename fs with
  | Ok bits =>
      match block_from_bytes bits with
      | Some b => Ok b
      | None => Err (Wrap ("parsing block " +:+ fmt.d height) ErrCodec)
      end
  | Err e => Err (Wrap ("reading block " +:+ fmt.d height) e)
  | Panic => Panic
  end.

Definition LatestSnapshot (s : blockStore) (fs : os.FS)
    : result Snapshot :=
  let filename := path.JoinS (dir s) "snapshot" in
  match os.ReadFile filename fs with
  | Ok bits =>
      match snapshot_from_bytes bits with
      | Some snapshot => Ok snapshot
      | None => Err (Wrap "parsing snapshot" ErrCodec)
      end
  | Err e =>
      if IsNotExist e then Ok snapshot_empty
      else Err (Wrap "reading snapshot" e)
  | Panic => Panic
  end.

Definition SaveBlock (s : blockStore) (b : Block) (fs : os.FS)
    : result unit * (blockStore * os.FS) :=
  match block_bytes b with
  | None =>
      (Err (Wrap ("storing block " +:+ fmt.d (block_height b)) ErrCodec),
       (s, fs))
  | Some bits =>
      let '(dir, filename) := blockFilename (dir s) (block_height b) in
      match os.MkdirAll dir fs with
      | (Err e, fs1) =>
          (Err (Wrap ("making dir " +:+ path.str dir) e), (s, fs1))
      | (Panic, fs1) => (Panic, (s, fs1))
      | (Ok _, fs1) =>
          let filename := path.Join dir filename in
          match os.OpenFile_excl filename fs1 with
          | (Err e, fs2) =>
              if IsExist e then
                match os.ReadFile filename fs2 with
                | Ok got =>
                    if bool_decide (got = bits) then (Ok tt, (s, fs2))
                    else (Err (conflict_fs (block_height b)), (s, fs2))
                | Err e' =>
                    (Err (Wrap ("file for block "
                                +:+ fmt.d (block_height b)
                                +:+ " already exists, can't tell if it's identical")
                            e'),
                     (s, fs2))
                | Panic => (Panic, (s, fs2))
                end
              else
                (Err (Wrap ("storing block " +:+ fmt.d (block_height b)) e),
                 (s, fs2))
          | (Panic, fs2) => (Panic, (s, fs2))
          | (Ok _, fs2) =>
              match os.Write filename bits fs2 with
              | (Err e, fs3) =>
                  (Err (Wrap ("writing block " +:+ fmt.d (block_height b)) e),
                   (s, fs3))
              | (r, fs3) => (r, (s, fs3))
              end
          end
      end
  end.

Definition SaveSnapshot (s : blockStore) (snapshot : Snapshot) (fs : os.FS)
    : result unit * (blockStore * os.FS) :=
  match snapshot_bytes snapshot with
  | None =>
      (Err (Wrap ("saving snapshot " +:+ fmt.d (snapshot_height snapshot))
              ErrCodec),
       (s, fs))
  | Some bits =>
      let '(r, fs1) :=
        os.WriteFile (path.JoinS (dir s) "snapshot") bits fs in
      (r, (s, fs1))
  end.

End methods.

End FsStore.

(** ** The database store (the bbolt variant)

    The database as the store lays it out: the bucket [root] holds the key
    [height], the bucket [blocks] and the key [latest_snapshot]; [blocks]
    holds one bucket per height, named by the varint of the height, with
    the keys [block] and [snapshot].  A key or bucket that is absent is
    [None]; [Get] of an absent key returns the empty slice, [Bucket] of an
    absent bucket returns nil, and a method called on a nil bucket
    panics. *)
Module bbolt.

Record bucket := { block : option bytes; snapshot : option bytes }.

Record root := {
  height : option bytes;
  blocks : option (gmap bytes bucket);
  latest_snapshot : option bytes;
}.

Definition DB := option root.

(** [Get(key)]. *)
Definition Get (v : option bytes) : bytes := default [] v.

(** The bucket [CreateBucketIfNotExists] returns for a name that may be
    absent. *)
Definition new_bucket : bucket := {| block := None; snapshot := None |}.

Definition new_root : root :=
  {| height := None; blocks := None; latest_snapshot := None |}.

(** [db.Update(fn)]: [fn] runs on the database and its changes are
    committed when it returns nil, dropped when it fails or panics. *)
Definition Update (fn : DB → result DB) (db : DB) : result unit * DB :=
  match fn db with
  | Ok db' => (Ok tt, db')
  | Err e => (Err e, db)
  | Panic => (Panic, db)
  end.

End bbolt.

Module BoltStore.
Import bbolt.

Definition getHeight (db : DB) : result Z :=
  match db with
  | None => Panic
  | Some root =>
      let '(h, n) := binary.Uvarint (Get (height root)) in
      if n <? 1 then Err (ErrNew "cannot parse height") else Ok h
  end.

(** [blockStore.Height]: [getHeight] in a read transaction. *)
Definition Height (db : DB) : result Z := getHeight db.

Section methods.
Context {Block Snapshot : Type}.
Context {BC : BlockCodec Block} {SC : SnapshotCodec Snapshot}.

(** [newBlockStore]; [initialBlock] is what
    [protocol.NewInitialBlock(nil, 0, time.Now())] returns. *)
Definition newBlockStore (initialBlock : result Block) (db : DB)
    : result unit * DB :=
  Update (λ db,
    let r := default new_root db in
    if bool_decide (length (Get (height r)) = 0%nat) then
      match blocks r with
      | Some _ => Err (Wrap "creating blocks bucket" ErrBucketExists)
      | None =>
          let h := binary.PutUvarint 1 in
          match initialBlock with
          | Ok ib =>
              match block_bytes ib with
              | Some bbytes =>
                  Ok (Some
                    {| height := Some h;
                       blocks :=
                         Some {[ h := {| block := Some bbytes;
                                         snapshot := None |} ]};
                       latest_snapshot := latest_snapshot r |})
              | None => Err (Wrap "serializing initial block" ErrCodec)
              end
          | Err e => Err (Wrap "producing genesis block" e)
          | Panic => Panic
          end
      end
    else Ok (Some r)) db.

Definition GetBlock (height : Z) (db : DB) : result Block :=
  match db with
  | None => Panic
  | Some root =>
      match blocks root with
      | None => Panic
      | Some blocks =>
          match blocks !! binary.PutUvarint height with
          | None => Panic
          | Some bu =>
              match block_from_bytes (Get (block bu)) with
              | Some b => Ok b
              | None => Err ErrCodec
              end
          end
      end
  end.

Definition LatestSnapshot (db : DB) : result Snapshot :=
  match db with
  | None => Panic
  | Some root =>
      let bits := Get (latest_snapshot root) in
      if bool_decide (0 < length bits)%nat then
        match snapshot_from_bytes bits with
        | Some st => Ok st
        | None => Err ErrCodec
        end
      else Ok snapshot_empty
  end.

Definition SaveBlock (b : Block) (db : DB) : result unit * DB :=
  Update (λ db,
    match getHeight db with
    | Ok h =>
        match db with
        | None => Panic
        | Some root =>
            match blocks root with
            | None => Panic
            | Some blocks =>
                let hbits := binary.PutUvarint (block_height b) in
                let bu := default new_bucket (blocks !! hbits) in
                match block_bytes b with
                | None =>
                    Err (Wrap ("serializing block " +:+ fmt.d (block_height b))
                           ErrCodec)
                | Some bits =>
                    let exists_ := Get (block bu) in
                    if bool_decide (0 < length exists_)%nat then
                      if negb (bool_decide (bits = exists_))
                      then Err (conflict_db (block_height b))
                      else
                        Ok (Some {| height := height root;
                                    blocks := Some (<[hbits := bu]> blocks);
                                    latest_snapshot := latest_snapshot root |})
                    else
                      let bu' := {| block := Some bits;
                                    snapshot := snapshot bu |} in
                      Ok (Some
                        {| height :=
                             if h <? block_height b then Some hbits
                             else height root;
                           blocks := Some (<[hbits := bu']> blocks);
                           latest_snapshot := latest_snapshot root |})
                end
            end
        end
    | Err e => Err (Wrap "getting blockstore height" e)
    | Panic => Panic
    end) db.

Definition SaveSnapshot (snapshot : Snapshot) (db : DB) : result unit * DB :=
  let sheight := snapshot_height snapshot in
  if sheight =? 0 then (Ok tt, db)
  else
    Update (λ db,
      match getHeight db with
      | Ok h =>
          match db with
          | None => Panic
          | Some root =>
              match blocks root with
              | None => Panic
              | Some blocks =>
                  let hbits := binary.PutUvarint sheight in
                  let bu := default new_bucket (blocks !! hbits) in
                  match snapshot_bytes snapshot with
                  | None =>
                      Err (Wrap ("serializing snapshot " +:+ fmt.d sheight)
                             ErrCodec)
                  | Some bits =>
                      let bu' := {| block := block bu;
                                    bbolt.snapshot := Some bits |} in
                      let blocks' := <[hbits := bu']> blocks in
                      let latestBits := Get (latest_snapshot root) in
                      let stored (doStore : bool) :=
                        Ok (Some
                          {| height := height root;
                             blocks := Some blocks';
                             latest_snapshot :=
                               if doStore then Some bits
                               else latest_snapshot root |}) in
                      if bool_decide (0 < length latestBits)%nat then
                        match snapshot_from_bytes latestBits with
                        | None =>
                            Err (Wrap ("getting latest snapshot for comparison to "
                                       +:+ fmt.d sheight) ErrCodec)
                        | Some latest =>
                            stored (negb (sheight <? snapshot_height latest))
                        end
                      else stored true
                  end
              end
          end
      | Err e => Err (Wrap "getting blockstore height" e)
      | Panic => Panic
      end) db.

End methods.

End BoltStore.

(** ** The handler of /get (main.go)

    The chain is the txvm [protocol.Chain]: [chain_Height] is what
    [chain.Height()] returns, [chain_GetBlock] what [chain.GetBlock] returns,
    and [chain_wait h] tells whether the waiter of [chain.BlockWaiter(h)]
    fires before the context of the request is done.  The handler returns
    its response and the calls that it made on the chain after reading the
    height, in order. *)
Module Handler.

Inductive response :=
  | Body (content_type : string) (bits : bytes)   (* 200 *)
  | Error (code : Z) (msg : string).              (* http.Error *)

Inductive call :=
  | BlockWaiter (height : Z)
  | GetBlock (height : Z).

Section get.
Context {Block : Type} {BC : BlockCodec Block}.

Record chain := {
  chain_Height : Z;
  chain_wait : Z → bool;
  chain_GetBlock : Z → result Block;
}.

(** The end of the handler, from [chain.GetBlock] on; [calls] are the
    calls made before. *)
Definition fetch (c : chain) (want : Z) (calls : list call)
    : result response * list call :=
  match chain_GetBlock c want with
  | Ok b =>
      match block_bytes b with
      | Some bits =>
          (Ok (Body "application/octet-stream" bits),
           calls ++ [GetBlock want])
      | None =>
          (Ok (Error 500 ("serializing block " +:+ fmt.d want)),
           calls ++ [GetBlock want])
      end
  | Err e =>
      (Ok (Error 500 ("getting block " +:+ fmt.d want)),
       calls ++ [GetBlock want])
  | Panic => (Panic, calls ++ [GetBlock want])
  end.

(** The handler; [want0] is the value [want] is declared with. *)
Definition get_from (want0 : Z) (c : chain) (wantStr : string)
    : result response * list call :=
  let parsed :=
    if bool_decide (wantStr ≠ "") then strconv.ParseUint wantStr
    else Some want0 in
  match parsed with
  | None => (Ok (Error 400 "parsing height"), [])
  | Some want =>
      let height := chain_Height c in
      let want := if want =? 0 then height else want in
      if height <? want then
        if chain_wait c want then fetch c want [BlockWaiter want]
        else (Ok (Error 408 "timed out"), [BlockWaiter want])
      else fetch c want []
  end.

End get.

(** [get] of the server on the filesystem store: [var want uint64]. *)
Module Fs.
Definition get {Block} {BC : BlockCodec Block} := @get_from Block BC 0.
End Fs.

(** [get] of the server on the database store: [want uint64 = 1]. *)
Module Bolt.
Definition get {Block} {BC : BlockCodec Block} := @get_from Block BC 1.
End Bolt.

End Handler.

(** ** Starting the servers (main.go)

    [main] up to the call of [protocol.NewChain]: the store and the
    initial block it passes to the chain.  An error is the argument of
    [log.Fatal]; [NewInitialBlock] is what
    [protocol.NewInitialBlock(nil, 0, time.Now())] returns. *)
Module Main.
Section main.
Context {Block : Type} {BC : BlockCodec Block}.

(** The server on the database store, from the database [bbolt.Open]
    returns. *)
Definition start_db (NewInitialBlock : result Block) (db : bbolt.DB)
    : result Block * bbolt.DB :=
  match BoltStore.newBlockStore NewInitialBlock db with
  | (Ok _, db1) => (BoltStore.GetBlock 1 db1, db1)
  | (Err err, db1) => (Err err, db1)
  | (Panic, db1) => (Panic, db1)
  end.

(** The server on the filesystem store. *)
Definition start (dir : string) (NewInitialBlock : result Block) (fs : os.FS)
    : result (FsStore.blockStore * Block) * os.FS :=
  match FsStore.newBlockStore dir fs with
  | (Ok bs, fs1) =>
      match FsStore.GetBlock bs 1 fs1 with
      | Ok initialBlock => (Ok (bs, initialBlock), fs1)
      | Err err =>
          if IsNotExist (Root err) then
            match NewInitialBlock with
            | Ok initialBlock => (Ok (bs, initialBlock), fs1)
            | Err err' => (Err (Wrap "producing genesis block: " err'), fs1)
            | Panic => (Panic, fs1)
            end
          else (Err err, fs1)
      | Panic => (Panic, fs1)
      end
  | (Err err, fs1) => (Err err, fs1)
  | (Panic, fs1) => (Panic, fs1)
  end.

End main.
End Main.

(** ** Submitting transactions (main.go, both servers)

    The handler [submit] and the function it hands to [time.AfterFunc]
    share the variable [bb] under the mutex [bbmu]: the part of [submit]
    from [bbmu.Lock()] to its return and the whole of the timer function
    each run as one step on the state of the server.  That state is the
    pointer [bb] with the builder it points to, the number of timer
    functions waiting to run, and the state of everything the txvm
    library holds (the chain and its snapshot), on which its operations
    act.  The operations are those of the class [Txvm]; nothing is assumed
    of what they return. *)
Definition MaxInt64 : Z := 2 ^ 63 - 1.

(** The value of an [int64] after an operation that may overflow. *)
Definition wrap_int64 (x : Z) : Z := (x + 2 ^ 63) mod 2 ^ 64 - 2 ^ 63.

(** [blockInterval], in the milliseconds [bc.Millis] counts. *)
Definition blockInterval : Z := 5000.

Class Txvm (W Builder Tx UBlock Snap : Type) := {
  (* txvm.Validate(prog, version, runlimit), then vm.Runlimit() *)
  Validate : bytes → Z → Z → result Z;
  (* proto.Unmarshal(bits, &rawTx): Program, Version, Runlimit *)
  Unmarshal : bytes → result (bytes * Z * Z);
  (* bc.NewTx(prog, version, runlimit) *)
  NewTx : bytes → Z → Z → result Tx;
  (* protocol.NewBlockBuilder() *)
  NewBlockBuilder : Builder;
  (* chain.State().Header == nil *)
  HeaderNil : W → bool;
  (* chain.State().ApplyBlockHeader(initialBlock.BlockHeader) *)
  ApplyBlockHeader : W → result unit * W;
  (* bb.Start(chain.State(), timestampMS) *)
  Start : Z → Builder → W → result unit * (Builder * W);
  (* bb.AddTx(bc.NewCommitmentsTx(tx)) *)
  AddTx : Tx → Builder → W → result unit * (Builder * W);
  (* bb.Build() *)
  Build : Builder → W → result (UBlock * Snap) * (Builder * W);
  (* chain.CommitAppliedBlock(ctx, &bc.Block{UnsignedBlock: b}, snapshot) *)
  CommitAppliedBlock : UBlock → Snap → W → result unit * W;
}.

Module Server.

(** What a step ends in. *)
Inductive outcome :=
  | Replied (code : Z) (msg : string)  (* http.Error; 204 by WriteHeader *)
  | HandlerPanic        (* a call of the handler panicked *)
  | Committed           (* the timer function ran to its end *)
  | Fatal (msg : string)               (* log.Fatal in the timer function *)
  | NilBuilder          (* the timer function found [bb] nil *)
  | Crash               (* a call of the timer function panicked *)
  | NoTimer.            (* no timer function is waiting *)

Inductive event :=
  | Submit (body : result bytes) (now : Z)  (* a request to /submit *)
  | Fire.                                   (* a timer function runs *)

Section server.
Context {W Builder Tx UBlock Snap : Type}.
Context {T : Txvm W Builder Tx UBlock Snap}.

Record state := { bb : option Builder; timers : nat; world : W }.

(** The state of the server when [main] starts to serve. *)
Definition init (w : W) : state := {| bb := None; timers := 0; world := w |}.

(** The end of [submit], from [bb.AddTx] on. *)
Definition add (tx : Tx) (b : Builder) (n : nat) (w : W) : outcome * state :=
  match AddTx tx b w with
  | (Ok _, (b1, w1)) =>
      (Replied 204 "", {| bb := Some b1; timers := n; world := w1 |})
  | (Err _, (b1, w1)) =>
      (Replied 400 "adding tx to pool",
       {| bb := Some b1; timers := n; world := w1 |})
  | (Panic, (b1, w1)) =>
      (HandlerPanic, {| bb := Some b1; timers := n; world := w1 |})
  end.

(** The timer function; [reset] tells whether it ends with [bb = nil]. *)
Definition commit (reset : bool) (st : state) : outcome * state :=
  match bb st with
  | None => (NilBuilder, st)
  | Some b =>
      match Build b (world st) with
      | (Ok (unsignedBlock, newSnapshot), (b1, w1)) =>
          match CommitAppliedBlock unsignedBlock newSnapshot w1 with
          | (Ok _, w2) =>
              (Committed,
               {| bb := if reset then None else Some b1;
                  timers := timers st; world := w2 |})
          | (Err _, w2) =>
              (Fatal "committing new block",
               {| bb := Some b1; timers := timers st; world := w2 |})
          | (Panic, w2) =>
              (Crash, {| bb := Some b1; timers := timers st; world := w2 |})
          end
      | (Err _, (b1, w1)) =>
          (Fatal "building new block",
           {| bb := Some b1; timers := timers st; world := w1 |})
      | (Panic, (b1, w1)) =>
          (Crash, {| bb := Some b1; timers := timers st; world := w1 |})
      end
  end.

(** A timer function that waits runs. *)
Definition fire (reset : bool) (st : state) : outcome * state :=
  match timers st with
  | O => (NoTimer, st)
  | S n => commit reset {| bb := bb st; timers := n; world := world st |}
  end.

End server.

(** The server on the filesystem store. *)
Module Fs.
Section fs.
Context {W Builder Tx UBlock Snap : Type}.
Context {T : Txvm W Builder Tx UBlock Snap}.

(** [submit] from [bbmu.Lock()] on. *)
Definition locked (tx : Tx) (now : Z) (st : state) : outcome * state :=
  match bb st with
  | None =>
      let b := NewBlockBuilder in
      let nextBlockTime := now + blockInterval in
      match Start nextBlockTime b (world st) with
      | (Ok _, (b1, w1)) => add tx b1 (S (timers st)) w1
      | (Err _, (b1, w1)) =>
          (Replied 500 "starting a new tx pool",
           {| bb := Some b1; timers := timers st; world := w1 |})
      | (Panic, (b1, w1)) =>
          (HandlerPanic,
           {| bb := Some b1; timers := timers st; world := w1 |})
      end
  | Some b => add tx b (timers st) (world st)
  end.

Definition submit (body : result bytes) (now : Z) (st : state)
    : outcome * state :=
  match body with
  | Ok prog =>
      match Validate prog 3 MaxInt64 with
      | Ok vm_Runlimit =>
          let runlimit := wrap_int64 (MaxInt64 - vm_Runlimit) in
          match NewTx prog 3 runlimit with
          | Ok tx => locked tx now st
          | Err _ => (Replied 400 "building tx", st)
          | Panic => (HandlerPanic, st)
          end
      | Err _ => (Replied 400 "validating tx", st)
      | Panic => (HandlerPanic, st)
      end
  | Err _ => (Replied 500 "reading request body", st)
  | Panic => (HandlerPanic, st)
  end.

Definition step (ev : event) (st : state) : outcome * state :=
  match ev with
  | Submit body now => submit body now st
  | Fire => fire false st
  end.

End fs.
End Fs.

(** The server on the database store. *)
Module Bolt.
Section bolt.
Context {W Builder Tx UBlock Snap : Type}.
Context {T : Txvm W Builder Tx UBlock Snap}.

(** [submit] from [bbmu.Lock()] on. *)
Definition locked (tx : Tx) (now : Z) (st : state) : outcome * state :=
  match bb st with
  | None =>
      let b := NewBlockBuilder in
      let nextBlockTime := now + blockInterval in
      match (if HeaderNil (world st) then ApplyBlockHeader (world st)
             else (Ok tt, world st)) with
      | (Ok _, w0) =>
          match Start nextBlockTime b w0 with
          | (Ok _, (b1, w1)) => add tx b1 (S (timers st)) w1
          | (Err _, (b1, w1)) =>
              (Replied 500 "starting a new tx pool",
               {| bb := Some b1; timers := timers st; world := w1 |})
          | (Panic, (b1, w1)) =>
              (HandlerPanic,
               {| bb := Some b1; timers := timers st; world := w1 |})
          end
      | (Err _, w0) =>
          (Replied 500 "initializing empty state",
           {| bb := Some b; timers := timers st; world := w0 |})
      | (Panic, w0) =>
          (HandlerPanic, {| bb := Some b; timers := timers st; world := w0 |})
      end
  | Some b => add tx b (timers st) (world st)
  end.

Definition submit (body : result bytes) (now : Z) (st : state)
    : outcome * state :=
  match body with
  | Ok bits =>
      match Unmarshal bits with
      | Ok (Program, Version, Runlimit) =>
          match NewTx Program Version Runlimit with
          | Ok tx => locked tx now st
          | Err _ => (Replied 400 "building tx", st)
          | Panic => (HandlerPanic, st)
          end
      | Err _ => (Replied 400 "parsing request body", st)
      | Panic => (HandlerPanic, st)
      end
  | Err _ => (Replied 500 "reading request body", st)
  | Panic => (HandlerPanic, st)
  end.

Definition step (ev : event) (st : state) : outcome * state :=
  match ev with
  | Submit body now => submit body now st
  | Fire => fire true st
  end.

End bolt.
End Bolt.

(** The process ends with [log.Fatal] and with a panic outside a
    handler. *)
Definition ends (o : outcome) : bool :=
  match o with
  | Fatal _ | NilBuilder | Crash => true
  | _ => false
  end.

(** The events [evs] one after the other, as long as the process
    lives: what each ended in, and the state left. *)
Fixpoint run {St : Type} (step : event → St → outcome * St)
    (evs : list event) (st : St) : list outcome * St :=
  match evs with
  | [] => ([], st)
  | ev :: evs' =>
      let '(o, st1) := step ev st in
      if ends o then ([o], st1)
      else let '(os, st2) := run step evs' st1 in (o :: os, st2)
  end.

End Server.

(** ** Auxiliary notions for the statements *)

Fixpoint str_forall (P : ascii → bool) (s : string) : bool :=
  match s with
  | EmptyString => true
  | String c s' => P c && str_forall P s'
  end.

Definition is_digit (c : ascii) : bool :=
  match strconv.digit_of c with Some _ => true | None => false end.

(** The bytes of the names the filesystem store gives: digits and the
    dash. *)
Definition name_char (c : ascii) : bool := is_digit c || Ascii.eqb c "-".

Definition not_char (x c : ascii) : bool := negb (Ascii.eqb c x).

(** An element that [path.Clean] keeps as it is. *)
Definition plain_name (e : string) : Prop :=
  e ≠ "" ∧ e ≠ "." ∧ e ≠ ".." ∧ str_forall (not_char "/") e = true.

(** The path of the root directory of a store. *)
Definition root_path (a : string) : path.t :=
  if bool_decide (a = "") then path.Path false [] else path.Clean a.

(** The elements of the name of a directory, the leading slash of a
    rooted name apart. *)
Definition dir_elems (dir : string) : list string :=
  if path.is_rooted dir then tail (path.split dir) else path.split dir.

(** A name made of plain elements with single slashes between them, with
    or without a leading slash, as [/data] and [var/blocks] are: the
    operating system reads it as [path.Clean] does. *)
Definition plain_dir (dir : string) : Prop := Forall plain_name (dir_elems dir).

(** The name of the directory of the shard of a height. *)
Definition shard_name (height : Z) : string :=
  let n := height / 1000 in
  fmt.d_d (wrap64 (n * 1000)) (wrap64 (wrap64 (n * 1000) + 999)).

(** The path of the file of the block at a height. *)
Definition block_path (root : string) (height : Z) : path.t :=
  let '(dir, filename) := FsStore.blockFilename root height in
  path.Join dir filename.

(** The elements of a path, each followed by a slash. *)
Fixpoint slashed (cs : list string) : string :=
  match cs with
  | [] => ""
  | c :: cs' => c +:+ "/" +:+ slashed cs'
  end.

(** A regular file lies in a directory. *)
Definition disk_wf (fs : os.FS) : Prop :=
  ∀ p, is_Some (os.files fs !! p) → os.is_dir fs (path.parent p) = true.

(** Nothing is stored at a height, and no regular file stands where the
    directory of its shard has to be. *)
Definition vacant (s : FsStore.blockStore) (fs : os.FS) (h : Z) : Prop :=
  os.files fs !! block_path (FsStore.dir s) h = None
  ∧ (block_path (FsStore.dir s) h ∉ os.dirs fs)
  ∧ (existsb (os.is_file fs)
       (path.prefixes (FsStore.blockFilename (FsStore.dir s) h).1) = false).

(** The path [q] lies below the directory [root]. *)
Definition below (root q : path.t) : Prop :=
  path.rooted q = path.rooted root
  ∧ ∃ n, (n < length (path.comps q))%nat
         ∧ take n (path.comps q) = path.comps root.

(** The directory [root] is missing or empty, and can be made: nothing
    on the disk lies below it, and neither it nor a directory above it is
    a regular file. *)
Definition empty_root (root : path.t) (fs : os.FS) : Prop :=
  existsb (os.is_file fs) (path.prefixes root) = false
  ∧ ∀ q, below root q → (q ∉ os.dirs fs) ∧ os.files fs !! q = None.

(** The step was a timer function that ran. *)
Definition callback_ran (o : Server.outcome) : bool :=
  match o with
  | Server.Committed | Server.Fatal _ | Server.NilBuilder | Server.Crash => true
  | _ => false
  end.

(** The number of timer functions that ran. *)
Definition callbacks (os : list Server.outcome) : nat :=
  length (List.filter callback_ran os).

(** A builder is set and no timer function waits to take it away. *)
Definition stuck {W Builder : Type} (st : Server.state (W := W) (Builder := Builder))
    : Prop :=
  Server.bb st ≠ None ∧ Server.timers st = 0%nat.

(** The states the server on the database store reaches: at most one
    timer function waits, and a builder is set when one does. *)
Definition bolt_inv {W Builder : Type}
    (st : Server.state (W := W) (Builder := Builder)) : Prop :=
  (Server.timers st ≤ 1)%nat
  ∧ (Server.bb st = None → Server.timers st = 0%nat).

(** A failed start of a builder is final: in a state the server reaches
    from its start, a request answered 500 from inside the locked part of
    [submit] leaves a state in which no timer function runs any more. *)
Definition start_failure_final {W Builder : Type}
    (step : Server.event → Server.state (W := W) (Builder := Builder)
            → Server.outcome * Server.state (W := W) (Builder := Builder))
    (w : W) : Prop :=
  ∀ evs1 body now msg st' evs2,
    step (Server.Submit body now) (Server.run step evs1 (Server.init w)).2
    = (Server.Replied 500 msg, st') →
    msg ≠ "reading request body"%string →
    stuck st'
    ∧ callbacks (Server.run step evs2 st').1 = 0%nat
    ∧ stuck (Server.run step evs2 st').2.

(** [m] is the greatest of [floor] and the numbers that satisfy [P]. *)
Definition greatest_from (floor : Z) (P : Z → Prop) (m : Z) : Prop :=
  (m = floor ∨ P m) ∧ floor ≤ m ∧ ∀ n, P n → n ≤ m.

(** The calls [op a1], [op a2], ... made one after the other on a state:
    their results and the state they leave. *)
Fixpoint run_all {A St : Type} (op : A → St → result unit * St)
    (l : list A) (st : St) : list (result unit) * St :=
  match l with
  | [] => ([], st)
  | a :: l' =>
      let '(r, st1) := op a st in
      let '(rs, st2) := run_all op l' st1 in
      (r :: rs, st2)
  end.

(** The bytes kept for the block of a height, if any. *)
Definition stored_block (db : bbolt.DB) (h : Z) : option bytes :=
  match db with
  | Some r =>
      match bbolt.blocks r with
      | Some m =>
          match m !! binary.PutUvarint h with
          | Some bu => bbolt.block bu
          | None => None
          end
      | None => None
      end
  | None => None
  end.

(** The database has its root and blocks buckets and a height that can be
    read: the state [newBlockStore] leaves. *)
Definition db_ready (db : bbolt.DB) : Prop :=
  ∃ r m h, db = Some r ∧ bbolt.blocks r = Some m
           ∧ BoltStore.getHeight db = Ok h.

(** Every stored block lies at a height up to the height of the
    database. *)
Definition heights_bounded (db : bbolt.DB) : Prop :=
  ∀ H bits h, is_uint64 H → stored_block db H = Some bits → bits ≠ [] →
              BoltStore.Height db = Ok h → H ≤ h.

(** The bytes in the slot [latest_snapshot] of the database. *)
Definition latest_slot (db : bbolt.DB) : bytes :=
  match db with
  | Some r => bbolt.Get (bbolt.latest_snapshot r)
  | None => []
  end.

(** The path of the snapshot file. *)
Definition snapshot_path (s : FsStore.blockStore) : path.t :=
  path.JoinS (FsStore.dir s) "snapshot".

(** The snapshot file can be written: its directory exists, and it is
    not itself a directory. *)
Definition snapshot_writable (s : FsStore.blockStore) (fs : os.FS) : Prop :=
  os.is_dir fs (snapshot_path s) = false
  ∧ os.under_file fs (snapshot_path s) = false
  ∧ os.is_dir fs (path.parent (snapshot_path s)) = true.

(** The bytes kept for the snapshot of a height, if any. *)
Definition stored_snapshot (db : bbolt.DB) (h : Z) : option bytes :=
  match db with
  | Some r =>
      match bbolt.blocks r with
      | Some m =>
          match m !! binary.PutUvarint h with
          | Some bu => bbolt.snapshot bu
          | None => None
          end
      | None => None
      end
  | None => None
  end.

(** A call that writes to a store. *)
Inductive store_call (Block Snapshot : Type) :=
  | CallSaveBlock (b : Block)
  | CallSaveSnapshot (x : Snapshot).
Arguments CallSaveBlock {Block Snapshot} b.
Arguments CallSaveSnapshot {Block Snapshot} x.

Section store_calls.
Context {Block Snapshot : Type}.
Context {BC : BlockCodec Block} {SC : SnapshotCodec Snapshot}.

(** A call made on the database store. *)
Definition db_call (c : store_call Block Snapshot) (db : bbolt.DB)
    : result unit * bbolt.DB :=
  match c with
  | CallSaveBlock b => BoltStore.SaveBlock b db
  | CallSaveSnapshot x => BoltStore.SaveSnapshot x db
  end.

(** The heights of the blocks of a call are [uint64] values. *)
Definition call_uint64 (c : store_call Block Snapshot) : Prop :=
  match c with
  | CallSaveBlock b => is_uint64 (block_height b)
  | CallSaveSnapshot _ => True
  end.

(** A call made on the filesystem store. *)
Definition fs_call (c : store_call Block Snapshot)
    (st : FsStore.blockStore * os.FS)
    : result unit * (FsStore.blockStore * os.FS) :=
  match c with
  | CallSaveBlock b => FsStore.SaveBlock st.1 b st.2
  | CallSaveSnapshot x => FsStore.SaveSnapshot st.1 x st.2
  end.

End store_calls.

(** The number a decimal numeral denotes after the digits read so far
    gave [acc]. *)
Fixpoint dec_val (d : Decimal.uint) (acc : Z) : Z :=
  match d with
  | Decimal.Nil => acc
  | Decimal.D0 l => dec_val l (acc * 10 + 0)
  | Decimal.D1 l => dec_val l (acc * 10 + 1)
  | Decimal.D2 l => dec_val l (acc * 10 + 2)
  | Decimal.D3 l => dec_val l (acc * 10 + 3)
  | Decimal.D4 l => dec_val l (acc * 10 + 4)
  | Decimal.D5 l => dec_val l (acc * 10 + 5)
  | Decimal.D6 l => dec_val l (acc * 10 + 6)
  | Decimal.D7 l => dec_val l (acc * 10 + 7)
  | Decimal.D8 l => dec_val l (acc * 10 + 8)
  | Decimal.D9 l => dec_val l (acc * 10 + 9)
  end.

Section notions.
Context {Block Snapshot : Type}.
Context {BC : BlockCodec Block} {SC : SnapshotCodec Snapshot}.

(** What the contract asks of saving a block [b] with the bytes [bits],
    [stored] being what the state holds at the height of [b]: with nothing
    stored the call succeeds, the bytes are stored, and a further call
    with a block of the same height and bytes succeeds without changing
    the state; with the same bytes stored the call succeeds and changes
    nothing; with other bytes stored it returns a conflict error and
    changes nothing. *)
Definition idempotent_or_conflict {St : Type}
    (stored : St → option bytes) (save : Block → St → result unit * St)
    (b : Block) (bits : bytes) (st : St) : Prop :=
  match stored st with
  | None =>
      ∃ st', save b st = (Ok tt, st')
             ∧ stored st' = Some bits
             ∧ ∀ b2, block_height b2 = block_height b →
                     block_bytes b2 = Some bits →
                     save b2 st' = (Ok tt, st')
  | Some old =>
      if bool_decide (old = bits) then save b st = (Ok tt, st)
      else ∃ e, is_conflict e ∧ save b st = (Err e, st)
  end.

(** The filesystem store as a state: the struct and the disk. *)
Definition fs_stored (h : Z) (st : FsStore.blockStore * os.FS)
    : option bytes :=
  os.files st.2 !! block_path (FsStore.dir st.1) h.

Definition fs_save (b : Block) (st : FsStore.blockStore * os.FS)
    : result unit * (FsStore.blockStore * os.FS) :=
  FsStore.SaveBlock st.1 b st.2.

(** What the specification asks [LatestSnapshot] to return after the
    snapshots [l] were saved in this order: a snapshot of the greatest
    height, the last one saved among those of that height. *)
Definition is_latest (l : list Snapshot) (r : Snapshot) : Prop :=
  ∃ l1 l2, l = l1 ++ r :: l2
           ∧ (∀ x, x ∈ l1 → snapshot_height x ≤ snapshot_height r)
           ∧ (∀ x, x ∈ l2 → snapshot_height x < snapshot_height r).

(** The snapshot codec of txvm on a snapshot: its height is a [uint64],
    it has an encoding, the encoding decodes to the snapshot, and the
    encoding of a snapshot of a height other than 0 is not empty. *)
Definition snapshot_ok (x : Snapshot) : Prop :=
  is_uint64 (snapshot_height x)
  ∧ ∃ bits, snapshot_bytes x = Some bits
            ∧ snapshot_from_bytes bits = Some x
            ∧ (snapshot_height x ≠ 0 → bits ≠ []).

Definition fs_save_snapshot (x : Snapshot) (st : FsStore.blockStore * os.FS)
    : result unit * (FsStore.blockStore * os.FS) :=
  FsStore.SaveSnapshot st.1 x st.2.

(** The slot after the snapshots [l] were saved: empty when all had
    height 0, else the encoding of the snapshot the specification asks
    for. *)
Definition slot_holds (l : list Snapshot) (bits : bytes) : Prop :=
  match bits with
  | [] => ∀ x, x ∈ l → snapshot_height x = 0
  | _ =>
      ∃ r, snapshot_from_bytes bits = Some r
           ∧ is_latest l r ∧ snapshot_height r ≠ 0
  end.

(** The chain as [get] sees it while no block has been committed since
    the server started: [protocol.NewChain] takes its height from
    [Height()] of the store, [chain.GetBlock] is [GetBlock] of the store,
    and no waiter fires. *)
Definition fs_chain (s : FsStore.blockStore) (fs : os.FS)
    : Handler.chain (Block := Block) :=
  {| Handler.chain_Height := FsStore.height s;
     Handler.chain_wait := λ _, false;
     Handler.chain_GetBlock := λ n, FsStore.GetBlock s n fs |}.

Definition db_chain (db : bbolt.DB) : Handler.chain (Block := Block) :=
  {| Handler.chain_Height :=
       match BoltStore.Height db with Ok h => h | _ => 0 end;
     Handler.chain_wait := λ _, false;
     Handler.chain_GetBlock := λ n, BoltStore.GetBlock n db |}.

End notions.

(** ** A store of each kind, for concrete runs *)

#[local] Existing Instances wire_block wire_snapshot.

Definition demo_store : FsStore.blockStore :=
  {| FsStore.dir := "/data"; FsStore.height := 0 |}.

(** The disk after [newBlockStore("/data", heights)] on an empty disk. *)
Definition demo_disk : os.FS := (FsStore.newBlockStore "/data" os.empty).2.

(** The database after [newBlockStore] on an empty database, the genesis
    block at height 1. *)
Definition demo_db : bbolt.DB :=
  (BoltStore.newBlockStore (Ok [1; 0]) None).2.

(** The disk of the store after the block of height 1 is saved. *)
Definition disk_with_block_1 : os.FS :=
  (FsStore.SaveBlock demo_store [1; 0] demo_disk).2.2.

(** A disk whose only entry is the regular file [data] of the working
    directory. *)
Definition disk_with_file_data : os.FS :=
  {| os.files := {[ path.Path false ["data"%string] := [1] ]};
     os.dirs := ∅ |}.

(** A disk in the layout [newBlockStore] reads: the directories [3] and
    [5] in [/data], a file [7] in the first and a file [42] in the
    second. *)
Definition disk_numbered : os.FS :=
  {| os.files :=
       {[ path.Path true ["data"; "3"; "7"]%string := [7; 0];
          path.Path true ["data"; "5"; "42"]%string := [42; 0] ]};
     os.dirs :=
       {[ path.Path true ["data"%string];
          path.Path true ["data"; "3"]%string;
          path.Path true ["data"; "5"]%string ]} |}.

(** A chain of height 3 whose block at height [n] is the wire block
    [[n; 0]], and whose waiters never fire. *)
Definition demo_chain : Handler.chain (Block := bytes) :=
  {| Handler.chain_Height := 3;
     Handler.chain_wait := λ _, false;
     Handler.chain_GetBlock := λ n, Ok [n; 0] |}.

(** A library for concrete runs: the chain is the number of blocks
    committed, a builder the transactions added to it, a transaction the
    length of its program; [Start] fails for a negative timestamp and
    every other operation succeeds. *)
Definition toy_txvm : Txvm nat (list Z) Z (list Z) unit :=
  {| Validate := λ _ _ _, Ok 0;
     Unmarshal := λ bits, Ok (bits, 3, 0);
     NewTx := λ prog _ _, Ok (Z.of_nat (length prog));
     NewBlockBuilder := [];
     HeaderNil := λ _, false;
     ApplyBlockHeader := λ w, (Ok tt, w);
     Start := λ t b w, (if t <? 0 then Err (ErrNew "bad timestamp") else Ok tt,
                        (b, w));
     AddTx := λ tx b w, (Ok tt, (tx :: b, w));
     Build := λ b w, (Ok (b, tt), (b, w));
     CommitAppliedBlock := λ _ _ w, (Ok tt, S w) |}.

(** ** Strings and names *)

Lemma str_forall_app P s t :
  str_forall P (s +:+ t) = str_forall P s && str_forall P t.
Proof.
  induction s as [|c s IH]; simpl; [done|].
  by rewrite IH, andb_assoc.
Qed.

Lemma str_forall_impl (P Q : ascii → bool) s :
  (∀ c, P c = true → Q c = true) →
  str_forall P s = true → str_forall Q s = true.
Proof.
  intros HPQ. induction s as [|c s IH]; simpl; [done|].
  rewrite !andb_true_iff. intros [? ?]. auto.
Qed.

(** Two strings cut at the first occurrence of a separator agree on both
    sides of it. *)
Lemma app_sep_inj (x : ascii) s1 t1 s2 t2 :
  str_forall (not_char x) s1 = true →
  str_forall (not_char x) s2 = true →
  s1 +:+ String x t1 = s2 +:+ String x t2 →
  s1 = s2 ∧ t1 = t2.
Proof.
  revert s2. induction s1 as [|c s1 IH]; intros [|c2 s2]; simpl.
  - intros _ _ [= ->]. done.
  - rewrite andb_true_iff. intros _ [Hc _] [= <- _].
    unfold not_char in Hc. by rewrite Ascii.eqb_refl in Hc.
  - rewrite andb_true_iff. intros [Hc _] _ [= -> _].
    unfold not_char in Hc. by rewrite Ascii.eqb_refl in Hc.
  - rewrite !andb_true_iff. intros [_ H1] [_ H2] [= -> Heq].
    destruct (IH _ H1 H2 Heq) as [-> ->]. done.
Qed.

Lemma digit_not_dash c : is_digit c = true → not_char "-" c = true.
Proof.
  unfold is_digit, not_char. destruct (Ascii.eqb_spec c "-") as [->|]; done.
Qed.

Lemma name_char_not_slash c : name_char c = true → not_char "/" c = true.
Proof.
  unfold name_char, not_char, is_digit.
  destruct (Ascii.eqb_spec c "/") as [->|]; done.
Qed.

Lemma digit_name_char c : is_digit c = true → name_char c = true.
Proof. unfold name_char. intros ->. done. Qed.

Lemma string_of_uint_digits u :
  str_forall is_digit (NilEmpty.string_of_uint u) = true.
Proof. induction u; simpl; auto. Qed.

Lemma fmt_d_nonneg z :
  0 ≤ z →
  ∃ c s, fmt.d z = String c s ∧ is_digit c = true
         ∧ str_forall is_digit s = true.
Proof.
  intros Hz. unfold fmt.d. destruct z as [|p|p]; [by eexists _, _|..|lia].
  simpl. pose proof (DecimalPos.Unsigned.to_uint_nonnil p) as Hnil.
  pose proof (string_of_uint_digits (Pos.to_uint p)) as Hd.
  destruct (Pos.to_uint p) eqn:E; [done|..]; simpl in *;
    eexists _, _; (split; [reflexivity|]); done.
Qed.

Lemma fmt_d_digits z : 0 ≤ z → str_forall is_digit (fmt.d z) = true.
Proof.
  intros Hz. destruct (fmt_d_nonneg z Hz) as (c & s & -> & Hc & Hs).
  simpl. by rewrite Hc, Hs.
Qed.

Lemma fmt_d_inj z1 z2 : fmt.d z1 = fmt.d z2 → z1 = z2.
Proof.
  unfold fmt.d. intros Heq. apply DecimalZ.to_int_inj.
  assert (Hn : ∀ z, Z.to_int z ≠ Decimal.Pos Decimal.Nil
                    ∧ Z.to_int z ≠ Decimal.Neg Decimal.Nil).
  { intros [|p|p]; simpl; split; try done;
      intros [= E]; by apply (DecimalPos.Unsigned.to_uint_nonnil p). }
  destruct (Hn z1) as [? ?], (Hn z2) as [? ?].
  assert (Some (Z.to_int z1) = Some (Z.to_int z2)) as [= ->]; [|done].
  rewrite <- (NilZero.isi (Z.to_int z1)), <- (NilZero.isi (Z.to_int z2)) by done.
  by rewrite Heq.
Qed.

Lemma fmt_d_d_inj a1 b1 a2 b2 :
  0 ≤ a1 → 0 ≤ a2 →
  fmt.d_d a1 b1 = fmt.d_d a2 b2 → a1 = a2 ∧ b1 = b2.
Proof.
  intros H1 H2. unfold fmt.d_d. simpl. intros Heq.
  apply app_sep_inj in Heq as [Ha Hb].
  - split; by apply fmt_d_inj.
  - eapply str_forall_impl; [apply digit_not_dash|by apply fmt_d_digits].
  - eapply str_forall_impl; [apply digit_not_dash|by apply fmt_d_digits].
Qed.

Lemma name_chars_plain c s :
  is_digit c = true → str_forall name_char s = true →
  plain_name (String c s).
Proof.
  intros Hc Hs. repeat split; try done.
  - intros [= -> _]. done.
  - intros [= -> _]. done.
  - simpl. rewrite name_char_not_slash by by apply digit_name_char.
    eapply str_forall_impl; [apply name_char_not_slash|done].
Qed.

Lemma fmt_d_plain z : 0 ≤ z → plain_name (fmt.d z).
Proof.
  intros Hz. destruct (fmt_d_nonneg z Hz) as (c & s & -> & Hc & Hs).
  apply name_chars_plain; [done|].
  eapply str_forall_impl; [apply digit_name_char|done].
Qed.

Lemma fmt_d_d_plain a b : 0 ≤ a → 0 ≤ b → plain_name (fmt.d_d a b).
Proof.
  intros Ha Hb. unfold fmt.d_d.
  destruct (fmt_d_nonneg a Ha) as (c & s & -> & Hc & Hs).
  simpl. apply name_chars_plain; [done|].
  rewrite str_forall_app. simpl. rewrite andb_true_iff. split.
  - eapply str_forall_impl; [apply digit_name_char|done].
  - eapply str_forall_impl; [apply digit_name_char|by apply fmt_d_digits].
Qed.

Lemma wrap64_range x : 0 ≤ wrap64 x < 2 ^ 64.
Proof. unfold wrap64. apply Z.mod_pos_bound. lia. Qed.

Lemma shard_name_plain h : plain_name (shard_name h).
Proof. apply fmt_d_d_plain; apply wrap64_range. Qed.

(** The shard of a height determines the name of its directory, and the
    name determines the shard. *)
Lemma shard_name_inj h1 h2 :
  is_uint64 h1 → is_uint64 h2 →
  shard_name h1 = shard_name h2 ↔ h1 / 1000 = h2 / 1000.
Proof.
  intros [? ?] [? ?]. unfold shard_name. split.
  - intros Heq. apply fmt_d_d_inj in Heq as [Heq _]; try apply wrap64_range.
    unfold wrap64 in Heq.
    assert (Hb : ∀ h, 0 ≤ h < 2 ^ 64 → 0 ≤ h / 1000 * 1000 < 2 ^ 64).
    { intros h [? ?]. pose proof (Z.mul_div_le h 1000). 
      assert (0 ≤ h / 1000) by (apply Z.div_pos; lia). lia. }
    rewrite !Z.mod_small in Heq by (apply Hb; done). lia.
  - intros ->. done.
Qed.

(** ** Paths *)

Lemma split_plain e :
  str_forall (not_char "/") e = true → path.split e = [e].
Proof.
  induction e as [|c e IH]; simpl; [done|].
  rewrite andb_true_iff. intros [Hc He]. unfold not_char in Hc.
  destruct (Ascii.eqb c "/"); [done|]. by rewrite IH.
Qed.

Lemma clean_step_plain r st e :
  plain_name e → path.clean_step r st e = st ++ [e].
Proof.
  intros (? & ? & ? & _). unfold path.clean_step.
  rewrite bool_decide_eq_false_2 by (intros [?|?]; done).
  by rewrite bool_decide_eq_false_2.
Qed.

Lemma Join_plain p e :
  plain_name e → path.Join p e = path.Path (path.rooted p) (path.comps p ++ [e]).
Proof.
  intros He. unfold path.Join.
  rewrite split_plain by apply He. simpl. by rewrite clean_step_plain.
Qed.

Lemma JoinS_plain a e :
  plain_name e → path.JoinS a e = path.Join (root_path a) e.
Proof.
  intros He. unfold path.JoinS, root_path. case_bool_decide; [|done].
  rewrite Join_plain by done. unfold path.Clean.
  rewrite split_plain by apply He. simpl. rewrite clean_step_plain by done.
  destruct He as (Hne & _ & _ & Hs). destruct e as [|c e]; [done|].
  simpl in *. apply andb_true_iff in Hs as [Hc _]. unfold not_char in Hc.
  by destruct (Ascii.eqb c "/").
Qed.

Lemma parent_Join_plain p e : plain_name e → path.parent (path.Join p e) = p.
Proof.
  intros He. rewrite Join_plain by done. unfold path.parent. simpl.
  rewrite removelast_last. by destruct p.
Qed.

Lemma Join_plain_inj p e1 e2 :
  plain_name e1 → plain_name e2 →
  path.Join p e1 = path.Join p e2 → e1 = e2.
Proof.
  intros H1 H2. rewrite !Join_plain by done. intros [= Heq].
  by apply app_inv_head in Heq as [= ->].
Qed.

Lemma str_app_cons c (s t : string) : String c s +:+ t = String c (s +:+ t).
Proof. reflexivity. Qed.

Lemma str_app_nil (t : string) : "" +:+ t = t.
Proof. reflexivity. Qed.

Lemma str_app_assoc (s t u : string) : (s +:+ t) +:+ u = s +:+ (t +:+ u).
Proof.
  induction s as [|c s IH]; [done|]. by rewrite !str_app_cons, IH.
Qed.

Lemma concat_slash_snoc cs e : path.concat_slash (cs ++ [e]) = slashed cs +:+ e.
Proof.
  induction cs as [|c cs IH]; [done|].
  change (path.concat_slash ((c :: cs) ++ [e]))
    with (match cs ++ [e] with
          | [] => c
          | _ => c +:+ "/" +:+ path.concat_slash (cs ++ [e])
          end).
  rewrite IH. destruct cs as [|c' cs]; simpl;
    rewrite ?str_app_assoc, ?str_app_nil; reflexivity.
Qed.

Lemma slashed_snoc cs e : slashed (cs ++ [e]) = slashed cs +:+ e +:+ "/".
Proof.
  induction cs as [|c cs IH]; simpl; [done|].
  by rewrite IH, !str_app_assoc.
Qed.

Lemma str_snoc r cs e :
  path.str (path.Path r (cs ++ [e]))
  = (if r then "/" else "") +:+ slashed cs +:+ e.
Proof.
  rewrite <- concat_slash_snoc. unfold path.str.
  cbn [path.comps path.rooted].
  destruct (cs ++ [e]) eqn:E; [by destruct cs|done].
Qed.

(** The parts of a block path: the root of the store, the directory of
    the shard, the file of the height. *)
Lemma blockFilename_parts root h :
  is_uint64 h →
  FsStore.blockFilename root h
  = (path.Path (path.rooted (root_path root))
       (path.comps (root_path root) ++ [shard_name h]),
     fmt.d h).
Proof.
  intros _. unfold FsStore.blockFilename. cbv zeta.
  fold (shard_name h).
  rewrite JoinS_plain by apply shard_name_plain.
  by rewrite Join_plain by apply shard_name_plain.
Qed.

Lemma block_path_parts root h :
  is_uint64 h →
  block_path root h
  = path.Path (path.rooted (root_path root))
      ((path.comps (root_path root) ++ [shard_name h]) ++ [fmt.d h]).
Proof.
  intros Hh. unfold block_path. rewrite blockFilename_parts by done.
  rewrite Join_plain by (apply fmt_d_plain; apply Hh). done.
Qed.

(** ** The file system *)

Lemma prefixes_spec p q :
  q ∈ path.prefixes p →
  path.comps q ≠ [] ∧ (length (path.comps q) ≤ length (path.comps p))%nat.
Proof.
  unfold path.prefixes. intros Hq.
  apply list_elem_of_fmap in Hq as (n & -> & Hn).
  apply elem_of_seq in Hn as [_ Hn]. simpl in *.
  destruct (path.comps p) as [|c cs]; simpl in *; [lia|].
  split; [done|]. rewrite length_take. lia.
Qed.

Lemma self_prefix p : path.comps p ≠ [] → p ∈ path.prefixes p.
Proof.
  intros Hne. unfold path.prefixes. apply list_elem_of_fmap.
  exists (pred (length (path.comps p))). split.
  - destruct p as [r cs]. simpl in *. f_equal.
    destruct cs as [|c cs]; [done|]. simpl. by rewrite take_ge.
  - apply elem_of_seq. destruct (path.comps p); simpl; [done|lia].
Qed.

Lemma is_dir_true fs p :
  path.comps p ≠ [] → os.is_dir fs p = true ↔ p ∈ os.dirs fs.
Proof.
  intros Hne. unfold os.is_dir. rewrite bool_decide_eq_true.
  split; [by intros [?|?]|by right].
Qed.

Lemma MkdirAll_spec d fs :
  path.comps d ≠ [] →
  existsb (os.is_file fs) (path.prefixes d) = false →
  ∃ fs1, os.MkdirAll d fs = (Ok tt, fs1)
         ∧ os.files fs1 = os.files fs
         ∧ os.is_dir fs1 d = true
         ∧ (∀ q, q ∈ os.dirs fs → q ∈ os.dirs fs1)
         ∧ (∀ q, q ∈ os.dirs fs1 → q ∈ os.dirs fs ∨ q ∈ path.prefixes d).
Proof.
  intros Hne Hfree. unfold os.MkdirAll.
  destruct (os.is_dir fs d) eqn:Hd.
  - exists fs. naive_solver.
  - rewrite Hfree. eexists. split; [reflexivity|]. simpl.
    split; [done|]. split; [|split].
    + apply is_dir_true; [done|]. simpl. apply elem_of_union_r.
      apply elem_of_list_to_set. by apply self_prefix.
    + intros q Hq. by apply elem_of_union_l.
    + intros q Hq. apply elem_of_union in Hq as [Hq|Hq]; [by left|right].
      by apply elem_of_list_to_set in Hq.
Qed.

Lemma MkdirAll_dir d fs :
  os.is_dir fs d = true → os.MkdirAll d fs = (Ok tt, fs).
Proof. intros Hd. unfold os.MkdirAll. by rewrite Hd. Qed.

Section fs_store.
Context {Block Snapshot : Type}.
Context {BC : BlockCodec Block} {SC : SnapshotCodec Snapshot}.

Lemma block_dir_parent root h :
  is_uint64 h →
  path.parent (block_path root h) = (FsStore.blockFilename root h).1.
Proof.
  intros Hh. unfold block_path.
  destruct (FsStore.blockFilename root h) as [d f] eqn:E.
  rewrite blockFilename_parts in E by done. injection E as <- <-.
  by rewrite parent_Join_plain by (apply fmt_d_plain; apply Hh).
Qed.

Lemma block_dir_comps root h :
  is_uint64 h → path.comps (FsStore.blockFilename root h).1 ≠ [].
Proof.
  intros Hh. rewrite blockFilename_parts by done. simpl.
  by destruct (path.comps (root_path root)).
Qed.

Lemma block_path_comps root h :
  is_uint64 h →
  length (path.comps (block_path root h))
  = S (length (path.comps (FsStore.blockFilename root h).1)).
Proof.
  intros Hh. rewrite block_path_parts, blockFilename_parts by done.
  simpl. rewrite !length_app. simpl. lia.
Qed.

Lemma SaveBlock_unfold s b bits fs :
  block_bytes b = Some bits →
  FsStore.SaveBlock s b fs =
    let d := (FsStore.blockFilename (FsStore.dir s) (block_height b)).1 in
    let p := block_path (FsStore.dir s) (block_height b) in
    match os.MkdirAll d fs with
    | (Err e, fs1) => (Err (Wrap ("making dir " +:+ path.str d) e), (s, fs1))
    | (Panic, fs1) => (Panic, (s, fs1))
    | (Ok _, fs1) =>
        match os.OpenFile_excl p fs1 with
        | (Err e, fs2) =>
            if IsExist e then
              match os.ReadFile p fs2 with
              | Ok got =>
                  if bool_decide (got = bits) then (Ok tt, (s, fs2))
                  else (Err (conflict_fs (block_height b)), (s, fs2))
              | Err e' =>
                  (Err (Wrap ("file for block "
                              +:+ fmt.d (block_height b)
                              +:+ " already exists, can't tell if it's identical")
                          e'),
                   (s, fs2))
              | Panic => (Panic, (s, fs2))
              end
            else
              (Err (Wrap ("storing block " +:+ fmt.d (block_height b)) e),
               (s, fs2))
        | (Panic, fs2) => (Panic, (s, fs2))
        | (Ok _, fs2) =>
            match os.Write p bits fs2 with
            | (Err e, fs3) =>
                (Err (Wrap ("writing block " +:+ fmt.d (block_height b)) e),
                 (s, fs3))
            | (r, fs3) => (r, (s, fs3))
            end
        end
    end.
Proof.
  intros Hb. unfold FsStore.SaveBlock, block_path. rewrite Hb.
  by destruct (FsStore.blockFilename _ _).
Qed.

(** A block saved at a vacant height is written to its file. *)
Lemma SaveBlock_fresh s fs b bits :
  is_uint64 (block_height b) →
  block_bytes b = Some bits →
  vacant s fs (block_height b) →
  ∃ fs', FsStore.SaveBlock s b fs = (Ok tt, (s, fs'))
         ∧ os.files fs'
           = <[block_path (FsStore.dir s) (block_height b) := bits]> (os.files fs)
         ∧ os.is_dir fs'
             (FsStore.blockFilename (FsStore.dir s) (block_height b)).1 = true
         ∧ (∀ q, q ∈ os.dirs fs → q ∈ os.dirs fs').
Proof.
  intros Hh Hb (Hnone & Hnd & Hfree).
  rewrite (SaveBlock_unfold _ _ _ _ Hb). cbv zeta.
  set (d := (FsStore.blockFilename _ _).1) in *.
  set (p := block_path _ _) in *.
  assert (Hdc : path.comps d ≠ []) by by apply block_dir_comps.
  assert (Hpar : path.parent p = d) by by apply block_dir_parent.
  assert (Hlen : length (path.comps p) = S (length (path.comps d)))
    by by apply block_path_comps.
  destruct (MkdirAll_spec d fs Hdc Hfree)
    as (fs1 & -> & Hf1 & Hd1 & Hsub & Hnew).
  unfold os.OpenFile_excl, os.is_file, os.under_file.
  rewrite Hf1, Hnone, Hpar, Hd1.
  rewrite (bool_decide_eq_false_2 (is_Some None)) by by intros [? ?].
  assert (Hpd : os.is_dir fs1 p = false).
  { unfold os.is_dir. apply bool_decide_eq_false_2. intros [Hc|Hin].
    - rewrite Hc in Hlen. done.
    - apply Hnew in Hin as [?|Hin]; [done|].
      apply prefixes_spec in Hin. lia. }
  rewrite Hpd. simpl.
  unfold os.is_file in *. rewrite Hf1, Hfree.
  unfold os.Write. simpl. rewrite lookup_insert_eq. simpl.
  eexists. split; [reflexivity|]. simpl.
  rewrite insert_insert_eq, drop_nil, app_nil_r.
  split; [done|]. split; [|done].
  apply is_dir_true; [done|]. simpl. by apply is_dir_true in Hd1.
Qed.

(** Saving the bytes that the file of the height already holds changes
    nothing. *)
Lemma SaveBlock_same s fs b bits :
  is_uint64 (block_height b) →
  block_bytes b = Some bits →
  os.files fs !! block_path (FsStore.dir s) (block_height b) = Some bits →
  os.is_dir fs (FsStore.blockFilename (FsStore.dir s) (block_height b)).1 = true →
  FsStore.SaveBlock s b fs = (Ok tt, (s, fs)).
Proof.
  intros Hh Hb Hsome Hd.
  rewrite (SaveBlock_unfold _ _ _ _ Hb). cbv zeta.
  rewrite MkdirAll_dir by done.
  unfold os.OpenFile_excl, os.is_file. rewrite Hsome.
  rewrite bool_decide_eq_true_2 by by eexists. simpl.
  unfold os.ReadFile. rewrite Hsome. by rewrite bool_decide_eq_true_2.
Qed.

(** Saving other bytes than the file of the height holds is refused,
    and nothing changes. *)
Lemma SaveBlock_conflict s fs b bits old :
  is_uint64 (block_height b) →
  block_bytes b = Some bits →
  os.files fs !! block_path (FsStore.dir s) (block_height b) = Some old →
  old ≠ bits →
  os.is_dir fs (FsStore.blockFilename (FsStore.dir s) (block_height b)).1 = true →
  FsStore.SaveBlock s b fs = (Err (conflict_fs (block_height b)), (s, fs)).
Proof.
  intros Hh Hb Hsome Hne Hd.
  rewrite (SaveBlock_unfold _ _ _ _ Hb). cbv zeta.
  rewrite MkdirAll_dir by done.
  unfold os.OpenFile_excl, os.is_file. rewrite Hsome.
  rewrite bool_decide_eq_true_2 by by eexists. simpl.
  unfold os.ReadFile. rewrite Hsome. by rewrite bool_decide_eq_false_2.
Qed.

Lemma wf_block_dir s fs h bits :
  is_uint64 h → disk_wf fs →
  os.files fs !! block_path (FsStore.dir s) h = Some bits →
  os.is_dir fs (FsStore.blockFilename (FsStore.dir s) h).1 = true.
Proof.
  intros Hh Hwf Hsome. rewrite <- block_dir_parent by done.
  apply Hwf. by eexists.
Qed.

End fs_store.

(** ** Varints *)

Lemma low7_high x : 0 ≤ x → Z.lor (x mod 128) (Z.shiftl (Z.shiftr x 7) 7) = x.
Proof.
  intros Hx. change 128 with (2 ^ 7).
  rewrite <- Z.land_ones, <- Z.ldiff_ones_r by lia.
  rewrite Z.lor_comm. apply Z.lor_ldiff_and.
Qed.

Lemma shift_split x s :
  0 ≤ x → 0 ≤ s →
  Z.lor (Z.shiftl (x mod 128) s) (Z.shiftl (Z.shiftr x 7) (s + 7))
  = Z.shiftl x s.
Proof.
  intros Hx Hs. rewrite (Z.add_comm s 7), <- Z.shiftl_shiftl by lia.
  rewrite <- Z.shiftl_lor. by rewrite low7_high.
Qed.

Lemma more_byte_low x : 0 ≤ x → Z.land (Z.lor (x mod 256) 128) 127 = x mod 128.
Proof.
  intros Hx. rewrite Z.land_lor_distr_l. change (Z.land 128 127) with 0.
  rewrite Z.lor_0_r. change 127 with (Z.ones 7).
  rewrite Z.land_ones by lia. change (2 ^ 7) with 128.
  apply Z.mod_mod_divide. by exists 2.
Qed.

Lemma more_byte_high x : 0 ≤ x → 128 ≤ Z.lor (x mod 256) 128.
Proof.
  intros Hx. set (b := Z.lor (x mod 256) 128).
  assert (Hb : 0 ≤ b).
  { apply Z.lor_nonneg. split; [|lia]. apply Z.mod_pos_bound. lia. }
  destruct (Z_lt_le_dec b 128) as [Hlt|]; [|done].
  assert (Ht : Z.testbit b 7 = true).
  { unfold b. rewrite Z.lor_spec. by rewrite orb_true_r. }
  rewrite <- (Z.mod_small b (2 ^ 7)) in Ht by (change (2 ^ 7) with 128; lia).
  rewrite Z.mod_pow2_bits_high in Ht by lia. done.
Qed.

Lemma shiftl_bound x s k :
  0 ≤ s → 0 ≤ k → 0 ≤ x < 2 ^ k → 0 ≤ Z.shiftl x s < 2 ^ (s + k).
Proof.
  intros Hs Hk [Hx0 Hx]. rewrite Z.shiftl_mul_pow2 by done.
  rewrite Z.pow_add_r by done.
  assert (0 < 2 ^ s) by (apply Z.pow_pos_nonneg; lia). nia.
Qed.

Lemma wrap64_small x : 0 ≤ x < 2 ^ 64 → wrap64 x = x.
Proof. intros ?. unfold wrap64. by apply Z.mod_small. Qed.

Lemma pow2_le a b : 0 ≤ a ≤ b → 2 ^ a ≤ 2 ^ b.
Proof. intros ?. apply Z.pow_le_mono_r; lia. Qed.

(** Reading back what [PutUvarint_loop] wrote: [i] bytes have been read,
    [room] bytes are left after the current one, and the value fits in
    the bits that are left. *)
Lemma Uvarint_PutUvarint_loop room x i acc :
  0 ≤ i → i + Z.of_nat room = 9 → 0 ≤ x < 2 ^ (64 - 7 * i) →
  binary.Uvarint_loop (binary.PutUvarint_loop room x) i acc (7 * i)
  = (Z.lor acc (Z.shiftl x (7 * i)),
     i + Z.of_nat (length (binary.PutUvarint_loop room x))).
Proof.
  revert x i acc. induction room as [|room IH]; intros x i acc Hi Hroom Hx.
  - assert (i = 9) as -> by lia. simpl in Hx.
    change (2 ^ (64 - 63)) with 2 in Hx.
    unfold binary.PutUvarint_loop.
    destruct (Z.leb_spec 128 x); [lia|].
    rewrite Z.mod_small by lia. simpl.
    destruct (Z.ltb_spec x 128); [|lia].
    destruct (Z.ltb_spec 1 x); [lia|]. simpl.
    rewrite wrap64_small; [done|].
    change 64 with (63 + 1). apply shiftl_bound; lia.
  - cbn [binary.PutUvarint_loop].
    assert (Hi9 : i ≤ 8) by lia.
    destruct (Z.leb_spec 128 x) as [Hbig|Hsmall].
    + cbn [binary.Uvarint_loop length].
      destruct (Z.eqb_spec i binary.MaxVarintLen64) as [E|_];
        [unfold binary.MaxVarintLen64 in E; lia|].
      pose proof (more_byte_high x ltac:(lia)) as Hhigh.
      destruct (Z.ltb_spec (Z.lor (x mod 256) 128) 128); [lia|].
      rewrite more_byte_low by lia.
      rewrite wrap64_small.
      2:{ assert (0 ≤ Z.shiftl (x mod 128) (7 * i) < 2 ^ (7 * i + 7)).
          { apply shiftl_bound; [lia..|]. change (2 ^ 7) with 128.
            apply Z.mod_pos_bound. lia. }
          assert (2 ^ (7 * i + 7) ≤ 2 ^ 64) by (apply pow2_le; lia). lia. }
      replace (7 * i + 7) with (7 * (i + 1)) by lia.
      rewrite IH; [| lia | lia |].
      * f_equal; [|lia].
        rewrite <- Z.lor_assoc. f_equal.
        replace (7 * (i + 1)) with (7 * i + 7) by lia.
        apply shift_split; lia.
      * split; [apply Z.shiftr_nonneg; lia|].
        rewrite Z.shiftr_div_pow2 by lia.
        apply Z.div_lt_upper_bound; [lia|].
        rewrite <- Z.pow_add_r by lia.
        replace (7 + (64 - 7 * (i + 1))) with (64 - 7 * i) by lia. lia.
    + rewrite Z.mod_small by lia. cbn [binary.Uvarint_loop length].
      destruct (Z.eqb_spec i binary.MaxVarintLen64) as [E|_];
        [unfold binary.MaxVarintLen64 in E; lia|].
      destruct (Z.ltb_spec x 128); [|lia].
      destruct (Z.eqb_spec i (binary.MaxVarintLen64 - 1)) as [E|_];
        [unfold binary.MaxVarintLen64 in E; lia|].
      simpl. rewrite wrap64_small; [done|].
      assert (0 ≤ Z.shiftl x (7 * i) < 2 ^ (7 * i + (64 - 7 * i))).
      { apply shiftl_bound; lia. }
      replace (7 * i + (64 - 7 * i)) with 64 in * by lia. lia.
Qed.

Lemma PutUvarint_length x : (1 ≤ length (binary.PutUvarint x))%nat.
Proof.
  unfold binary.PutUvarint. generalize 9%nat. intros room.
  destruct room; simpl; destruct (128 <=? x); simpl; lia.
Qed.

(** [binary.Uvarint] reads back the value that [binary.PutUvarint] wrote,
    and reports at least one byte read. *)
Lemma Uvarint_PutUvarint x :
  is_uint64 x →
  ∃ n, binary.Uvarint (binary.PutUvarint x) = (x, n) ∧ 1 ≤ n.
Proof.
  intros Hx. unfold binary.Uvarint, binary.PutUvarint.
  change 0 with (7 * 0) at 3.
  rewrite Uvarint_PutUvarint_loop by (unfold is_uint64 in Hx; simpl; lia).
  eexists. split.
  - rewrite Z.lor_0_l, Z.shiftl_0_r. reflexivity.
  - pose proof (PutUvarint_length x). unfold binary.PutUvarint in *. lia.
Qed.

Lemma PutUvarint_inj x y :
  is_uint64 x → is_uint64 y →
  binary.PutUvarint x = binary.PutUvarint y → x = y.
Proof.
  intros Hx Hy Heq.
  destruct (Uvarint_PutUvarint x Hx) as (n & Hn & _).
  destruct (Uvarint_PutUvarint y Hy) as (m & Hm & _).
  rewrite Heq in Hn. congruence.
Qed.

(** ** Sequences of calls *)

Lemma run_all_app {A St} (op : A → St → result unit * St) l1 l2 st :
  run_all op (l1 ++ l2) st
  = ((run_all op l1 st).1 ++ (run_all op l2 (run_all op l1 st).2).1,
     (run_all op l2 (run_all op l1 st).2).2).
Proof.
  revert st. induction l1 as [|a l1 IH]; intros st; simpl.
  - by destruct (run_all op l2 st).
  - destruct (op a st) as [r st1]. rewrite IH.
    destruct (run_all op l1 st1) as [rs1 st2]. simpl.
    by destruct (run_all op l2 st2).
Qed.

(** ** The database store *)

Lemma getHeight_put mb l h :
  is_uint64 h →
  BoltStore.getHeight
    (Some {| bbolt.height := Some (binary.PutUvarint h);
             bbolt.blocks := mb;
             bbolt.latest_snapshot := l |})
  = Ok h.
Proof.
  intros Hh. unfold BoltStore.getHeight, bbolt.Get. simpl.
  destruct (Uvarint_PutUvarint h Hh) as (n & -> & Hn).
  destruct (Z.ltb_spec n 1); [lia|done].
Qed.

Lemma getHeight_frame r m l :
  BoltStore.getHeight
    (Some {| bbolt.height := bbolt.height r; bbolt.blocks := m;
             bbolt.latest_snapshot := l |})
  = BoltStore.getHeight (Some r).
Proof. done. Qed.

Section bolt_store.
Context {Block Snapshot : Type}.
Context {BC : BlockCodec Block} {SC : SnapshotCodec Snapshot}.

(** What [SaveBlock] does on a database that is ready, by the bytes the
    bucket of the height holds. *)
Lemma SaveBlock_db_spec r m h b bits :
  bbolt.blocks r = Some m →
  BoltStore.getHeight (Some r) = Ok h →
  block_bytes b = Some bits →
  let key := binary.PutUvarint (block_height b) in
  let bu := default bbolt.new_bucket (m !! key) in
  BoltStore.SaveBlock b (Some r) =
    match bbolt.Get (bbolt.block bu) with
    | [] =>
        (Ok tt,
         Some {| bbolt.height :=
                   if h <? block_height b then Some key else bbolt.height r;
                 bbolt.blocks :=
                   Some (<[key := {| bbolt.block := Some bits;
                                     bbolt.snapshot := bbolt.snapshot bu |}]> m);
                 bbolt.latest_snapshot := bbolt.latest_snapshot r |})
    | old =>
        if bool_decide (bits = old) then (Ok tt, Some r)
        else (Err (conflict_db (block_height b)), Some r)
    end.
Proof.
  intros Hm Hh Hb key bu.
  unfold BoltStore.SaveBlock, bbolt.Update. rewrite Hh, Hm, Hb.
  fold key. fold bu.
  destruct (bbolt.Get (bbolt.block bu)) as [|x old] eqn:Hold.
  - rewrite bool_decide_eq_false_2 by (simpl; lia). done.
  - rewrite bool_decide_eq_true_2 by (simpl; lia).
    case_bool_decide; simpl; [|done].
    do 2 f_equal. destruct r as [rh rb rl]. simpl in *. subst rb.
    do 2 f_equal. apply insert_id.
    unfold bu in *. destruct (m !! key) as [bu'|]; [done|].
    by simpl in Hold.
Qed.

(** Whatever a call of [SaveBlock] returns, the height of the database
    can still be read, and it is the old height or, when that was
    lower, the height of the block. *)
Lemma SaveBlock_db_height db h b :
  BoltStore.Height db = Ok h →
  is_uint64 (block_height b) →
  ∃ h', BoltStore.Height (BoltStore.SaveBlock b db).2 = Ok h'
        ∧ (h' = h ∨ (h < block_height b ∧ h' = block_height b)).
Proof.
  intros Hh Hb. unfold BoltStore.Height in *.
  destruct db as [r|]; [|done].
  destruct (bbolt.blocks r) as [m|] eqn:Hm.
  2:{ unfold BoltStore.SaveBlock, bbolt.Update. rewrite Hh, Hm.
      simpl. eauto. }
  destruct (block_bytes b) as [bits|] eqn:Hbits.
  2:{ unfold BoltStore.SaveBlock, bbolt.Update. rewrite Hh, Hm, Hbits.
      simpl. eauto. }
  rewrite (SaveBlock_db_spec r m h b bits) by done. cbv zeta.
  destruct (bbolt.Get _) as [|x old].
  - cbn [snd]. destruct (Z.ltb_spec h (block_height b)).
    + exists (block_height b). split; [|by right].
      by apply getHeight_put.
    + exists h. split; [|by left]. by rewrite getHeight_frame.
  - case_bool_decide; cbn [snd]; eauto.
Qed.

(** A successful call leaves the database ready. *)
Lemma SaveBlock_db_ready db b :
  db_ready db → is_uint64 (block_height b) →
  db_ready (BoltStore.SaveBlock b db).2.
Proof.
  intros (r & m & h & -> & Hm & Hh) Hb.
  destruct (SaveBlock_db_height (Some r) h b Hh Hb) as (h' & Hh' & _).
  unfold BoltStore.Height in Hh'.
  destruct (block_bytes b) as [bits|] eqn:Hbits.
  2:{ unfold BoltStore.SaveBlock, bbolt.Update. rewrite Hh, Hm, Hbits.
      by exists r, m, h. }
  rewrite (SaveBlock_db_spec r m h b bits) in * by done. cbv zeta in *.
  destruct (bbolt.Get _) as [|x old].
  - simpl in *. eexists _, _, h'. eauto.
  - case_bool_decide; simpl; by exists r, m, h.
Qed.

End bolt_store.

Section save_block_twice.
Context {Block : Type} {BC : BlockCodec Block}.

Lemma SaveBlock_db_fresh db b bits :
  db_ready db → is_uint64 (block_height b) →
  block_bytes b = Some bits →
  stored_block db (block_height b) = None →
  ∃ db', BoltStore.SaveBlock b db = (Ok tt, db')
         ∧ stored_block db' (block_height b) = Some bits
         ∧ ∀ b2, block_height b2 = block_height b →
                 block_bytes b2 = Some bits →
                 BoltStore.SaveBlock b2 db' = (Ok tt, db').
Proof.
  intros (r & m & h & -> & Hm & Hh) Hb Hbits Hnone.
  rewrite (SaveBlock_db_spec r m h b bits) by done. cbv zeta.
  set (key := binary.PutUvarint (block_height b)).
  set (bu := default bbolt.new_bucket (m !! key)).
  assert (Hget : bbolt.Get (bbolt.block bu) = []).
  { unfold stored_block in Hnone. rewrite Hm in Hnone. fold key in Hnone.
    unfold bu. destruct (m !! key) as [bu'|]; simpl; [|done].
    by rewrite Hnone. }
  rewrite Hget. eexists. split; [reflexivity|]. split.
  { unfold stored_block. simpl. fold key. by rewrite lookup_insert_eq. }
  intros b2 Hb2 Hbits2.
  set (r' := {| bbolt.height := _; bbolt.blocks := _;
                bbolt.latest_snapshot := _ |}).
  assert (Hh' : ∃ h', BoltStore.getHeight (Some r') = Ok h'
                      ∧ block_height b ≤ h').
  { unfold r'. destruct (Z.ltb_spec h (block_height b)).
    - exists (block_height b). split; [|lia].
      by apply getHeight_put.
    - exists h. split; [|lia]. by rewrite getHeight_frame. }
  destruct Hh' as (h' & Hh' & Hle).
  rewrite (SaveBlock_db_spec r' _ h' b2 bits) by done. cbv zeta.
  rewrite Hb2. fold key. rewrite lookup_insert_eq. simpl.
  destruct bits as [|x bits]; simpl.
  - destruct (Z.ltb_spec h' (block_height b)); [lia|].
    unfold r'. simpl. by rewrite insert_insert_eq.
  - by rewrite bool_decide_eq_true_2.
Qed.

Lemma SaveBlock_db_stored db b bits old :
  db_ready db →
  block_bytes b = Some bits →
  stored_block db (block_height b) = Some old → old ≠ [] →
  BoltStore.SaveBlock b db
  = if bool_decide (bits = old) then (Ok tt, db)
    else (Err (conflict_db (block_height b)), db).
Proof.
  intros (r & m & h & -> & Hm & Hh) Hbits Hold Hne.
  rewrite (SaveBlock_db_spec r m h b bits) by done. cbv zeta.
  unfold stored_block in Hold. rewrite Hm in Hold.
  destruct (m !! binary.PutUvarint (block_height b)) as [bu|]; [|done].
  simpl. rewrite Hold. simpl. by destruct old.
Qed.

(** C1.  [SaveBlock] is idempotent on the same bytes and refuses other
    bytes, on the filesystem store and on the database store.  The disk
    is well formed and no regular file or directory stands in the way of
    the file of the block; the database is the one [newBlockStore] leaves,
    and what it stores at the height is not the empty slice, which no
    block is serialized to. *)
Theorem SaveBlock_idempotent_or_conflict
    (s : FsStore.blockStore) (fs : os.FS) (db : bbolt.DB)
    (b : Block) (bits : bytes) :
  is_uint64 (block_height b) →
  block_bytes b = Some bits →
  disk_wf fs →
  block_path (FsStore.dir s) (block_height b) ∉ os.dirs fs →
  existsb (os.is_file fs)
    (path.prefixes (FsStore.blockFilename (FsStore.dir s) (block_height b)).1)
  = false →
  db_ready db →
  stored_block db (block_height b) ≠ Some [] →
  idempotent_or_conflict (fs_stored (block_height b)) fs_save b bits (s, fs)
  ∧ idempotent_or_conflict (λ db, stored_block db (block_height b))
      BoltStore.SaveBlock b bits db.
Proof.
  intros Hh Hbits Hwf Hnd Hfree Hready Hne.
  unfold idempotent_or_conflict, fs_stored, fs_save. simpl. split.
  - destruct (os.files fs !! _) as [old|] eqn:Hold.
    + pose proof (wf_block_dir s fs _ old Hh Hwf Hold) as Hd.
      case_bool_decide as Heq.
      * subst old. by apply (SaveBlock_same s fs b bits).
      * exists (conflict_fs (block_height b)). split.
        { exists (block_height b). by left. }
        by apply (SaveBlock_conflict s fs b bits old).
    + destruct (SaveBlock_fresh s fs b bits Hh Hbits)
        as (fs' & Hsave & Hfiles & Hd & _); [done|].
      exists (s, fs'). simpl. split; [done|].
      assert (Hlook : os.files fs' !! block_path (FsStore.dir s) (block_height b)
                      = Some bits).
      { rewrite Hfiles. apply lookup_insert_eq. }
      split; [done|]. intros b2 Hb2 Hbits2.
      apply SaveBlock_same with (bits := bits); rewrite ?Hb2; done.
  - destruct (stored_block db _) as [old|] eqn:Hold.
    + rewrite (SaveBlock_db_stored db b bits old) by congruence.
      rewrite (bool_decide_ext (old = bits) (bits = old)) by done.
      case_bool_decide; [done|].
      exists (conflict_db (block_height b)). split; [|done].
      exists (block_height b). by right.
    + by apply SaveBlock_db_fresh.
Qed.

End save_block_twice.

Lemma demo_disk_files : os.files demo_disk = ∅.
Proof. vm_compute. reflexivity. Qed.

Lemma demo_disk_wf : disk_wf demo_disk.
Proof.
  intros p [x Hx]. rewrite demo_disk_files in Hx.
  by rewrite lookup_empty in Hx.
Qed.

Lemma demo_db_ready : db_ready demo_db.
Proof. eexists _, _, _; split_and!; vm_compute; reflexivity. Qed.

Lemma SaveBlock_idempotent_or_conflict_witness :
  idempotent_or_conflict (fs_stored 2) fs_save
    [2; 7] [2; 7] (demo_store, demo_disk)
  ∧ idempotent_or_conflict (λ db, stored_block db 2)
      BoltStore.SaveBlock [2; 7] [2; 7] demo_db.
Proof.
  pose proof (SaveBlock_idempotent_or_conflict
                demo_store demo_disk demo_db [2; 7] [2; 7]) as H.
  change (block_height [2; 7]) with 2 in H. apply H.
  - by vm_compute.
  - reflexivity.
  - apply demo_disk_wf.
  - intros Hin. by vm_compute in Hin.
  - by vm_compute.
  - apply demo_db_ready.
  - by vm_compute.
Defined.

(** ** The paths of the blocks *)

Lemma block_path_str root h :
  is_uint64 h →
  path.str (block_path root h)
  = (if path.rooted (root_path root) then "/" else "")
    +:+ slashed (path.comps (root_path root))
    +:+ shard_name h +:+ String "/" (fmt.d h).
Proof.
  intros Hh. rewrite block_path_parts by done.
  rewrite str_snoc, slashed_snoc. by rewrite !str_app_assoc.
Qed.

Lemma block_dir_str root h :
  is_uint64 h →
  path.str (FsStore.blockFilename root h).1
  = (if path.rooted (root_path root) then "/" else "")
    +:+ slashed (path.comps (root_path root)) +:+ shard_name h.
Proof.
  intros Hh. rewrite blockFilename_parts by done. simpl. by rewrite str_snoc.
Qed.

(** C10.  The files of two different heights have different names and
    different paths, as paths and as the strings Go holds; their
    directories are the same exactly when the heights lie in the same
    shard of 1000. *)
Theorem blockFilename_distinct (root : string) (h1 h2 : Z) :
  is_uint64 h1 → is_uint64 h2 → h1 ≠ h2 →
  (FsStore.blockFilename root h1).2 ≠ (FsStore.blockFilename root h2).2
  ∧ ((FsStore.blockFilename root h1).1 = (FsStore.blockFilename root h2).1
     ↔ h1 / 1000 = h2 / 1000)
  ∧ (path.str (FsStore.blockFilename root h1).1
     = path.str (FsStore.blockFilename root h2).1
     ↔ h1 / 1000 = h2 / 1000)
  ∧ block_path root h1 ≠ block_path root h2
  ∧ path.str (block_path root h1) ≠ path.str (block_path root h2).
Proof.
  intros H1 H2 Hne.
  assert (Hstr : path.str (block_path root h1) ≠ path.str (block_path root h2)).
  { rewrite !block_path_str by done. intros Heq.
    do 2 apply (inj (String.append _)) in Heq.
    apply app_sep_inj in Heq as [_ Heq]; try apply shard_name_plain.
    by apply fmt_d_inj in Heq. }
  split_and!.
  - simpl. intros Heq. by apply fmt_d_inj in Heq.
  - rewrite !blockFilename_parts by done. simpl.
    rewrite <- shard_name_inj by done. split.
    + intros [= Heq]. by apply app_inv_head in Heq as [= ?].
    + by intros ->.
  - rewrite !block_dir_str by done.
    rewrite <- shard_name_inj by done. split.
    + intros Heq. by do 2 apply (inj (String.append _)) in Heq.
    + by intros ->.
  - intros Heq. by rewrite Heq in Hstr.
  - done.
Qed.

Lemma blockFilename_distinct_witness :
  (FsStore.blockFilename "/data" 999).2 ≠ (FsStore.blockFilename "/data" 1000).2
  ∧ ((FsStore.blockFilename "/data" 999).1 = (FsStore.blockFilename "/data" 1000).1
     ↔ 999 / 1000 = 1000 / 1000)
  ∧ (path.str (FsStore.blockFilename "/data" 999).1
     = path.str (FsStore.blockFilename "/data" 1000).1
     ↔ 999 / 1000 = 1000 / 1000)
  ∧ block_path "/data" 999 ≠ block_path "/data" 1000
  ∧ path.str (block_path "/data" 999) ≠ path.str (block_path "/data" 1000).
Proof.
  apply (blockFilename_distinct "/data" 999 1000); unfold is_uint64; lia.
Defined.

Example block_path_999 :
  path.str (block_path "/data" 999) = "/data/0-999/999"%string.
Proof. reflexivity. Qed.

Example block_path_max :
  path.str (block_path "d" maxUint64)
  = "d/18446744073709551000-383/18446744073709551615"%string.
Proof. reflexivity. Qed.

(** ** The height across calls of SaveBlock *)

Section height_monotone.
Context {Block : Type} {BC : BlockCodec Block}.

(** [SaveBlock] of the filesystem store leaves the struct as it is. *)
Lemma SaveBlock_store s b fs : (FsStore.SaveBlock s b fs).2.1 = s.
Proof.
  unfold FsStore.SaveBlock.
  repeat (done || case_match || simplify_eq/=).
Qed.

Lemma run_SaveBlock_store bs s fs : (run_all fs_save bs (s, fs)).2.1 = s.
Proof.
  revert s fs. induction bs as [|b bs IH]; intros s fs; simpl; [done|].
  unfold fs_save at 1. simpl.
  pose proof (SaveBlock_store s b fs) as Hs.
  destruct (FsStore.SaveBlock s b fs) as [r [s1 fs1]]. simpl in Hs. subst s1.
  specialize (IH s fs1). by destruct (run_all fs_save bs (s, fs1)).
Qed.

Lemma run_SaveBlock_db_height bs db h1 :
  BoltStore.Height db = Ok h1 →
  (∀ b, b ∈ bs → is_uint64 (block_height b)) →
  ∃ h2, BoltStore.Height (run_all BoltStore.SaveBlock bs db).2 = Ok h2
        ∧ h1 ≤ h2.
Proof.
  revert db h1. induction bs as [|b bs IH]; intros db h1 Hh Hbs; simpl.
  - exists h1. split; [done|lia].
  - destruct (SaveBlock_db_height db h1 b Hh) as (h' & Hh' & Hcase).
    { apply Hbs. by left. }
    destruct (BoltStore.SaveBlock b db) as [r db1]. simpl in Hh'.
    destruct (IH db1 h' Hh') as (h2 & Hh2 & Hle).
    { intros b' Hb'. apply Hbs. by right. }
    destruct (run_all BoltStore.SaveBlock bs db1) as [rs db2].
    exists h2. split; [done|]. lia.
Qed.

(** C7.  Between a read of [Height()] and a later one, with any calls of
    [SaveBlock] in between, the height does not go down, on either
    store.  The heights of the blocks are [uint64] values. *)
Theorem Height_never_decreases
    (s : FsStore.blockStore) (fs : os.FS) (db : bbolt.DB)
    (bs : list Block) (h1 : Z) :
  BoltStore.Height db = Ok h1 →
  (∀ b, b ∈ bs → is_uint64 (block_height b)) →
  (∃ h0 h2, FsStore.Height s = Ok h0
            ∧ FsStore.Height (run_all fs_save bs (s, fs)).2.1 = Ok h2
            ∧ h0 ≤ h2)
  ∧ (∃ h2, BoltStore.Height (run_all BoltStore.SaveBlock bs db).2 = Ok h2
           ∧ h1 ≤ h2).
Proof.
  intros Hh Hbs. split.
  - exists (FsStore.height s), (FsStore.height s).
    rewrite run_SaveBlock_store. unfold FsStore.Height. split_and!; [done..|lia].
  - by apply run_SaveBlock_db_height.
Qed.

End height_monotone.

Lemma Height_never_decreases_witness :
  (∃ h0 h2, FsStore.Height demo_store = Ok h0
            ∧ FsStore.Height
                (run_all fs_save [[2; 7]; [1; 0]; [2; 8]]
                   (demo_store, demo_disk)).2.1 = Ok h2
            ∧ h0 ≤ h2)
  ∧ (∃ h2, BoltStore.Height
             (run_all BoltStore.SaveBlock [[2; 7]; [1; 0]; [2; 8]] demo_db).2
           = Ok h2
           ∧ 1 ≤ h2).
Proof.
  apply (Height_never_decreases demo_store demo_disk demo_db
           [[2; 7]; [1; 0]; [2; 8]] 1).
  - by vm_compute.
  - intros b Hb. repeat (apply elem_of_cons in Hb as [->|Hb]; [by vm_compute|]).
    by apply elem_of_nil in Hb.
Defined.

Example demo_fs_saves :
  (run_all fs_save [[2; 7]; [2; 7]; [2; 8]] (demo_store, demo_disk)).1
  = [Ok tt; Ok tt; Err (conflict_fs 2)]
  ∧ fs_stored 2
      (run_all fs_save [[2; 7]; [2; 7]; [2; 8]] (demo_store, demo_disk)).2
    = Some [2; 7].
Proof. by vm_compute. Qed.

Example demo_db_heights :
  BoltStore.Height demo_db = Ok 1
  ∧ BoltStore.Height
      (run_all BoltStore.SaveBlock [[2; 7]; [1; 0]; [2; 8]] demo_db).2 = Ok 2
  ∧ (run_all BoltStore.SaveBlock [[2; 7]; [1; 0]; [2; 8]] demo_db).1
    = [Ok tt; Ok tt; Err (conflict_db 2)].
Proof. by vm_compute. Qed.

(** ** Recovery of the height by the filesystem store *)

Lemma ParseUint_loop_digits s n :
  str_forall is_digit s = false → strconv.ParseUint_loop s n = None.
Proof.
  revert n. induction s as [|c s IH]; intros n; simpl; [done|].
  unfold is_digit at 1. destruct (strconv.digit_of c) as [d|]; [|done].
  simpl. intros Hs. destruct (_ <=? n); [done|].
  destruct (_ <? _); [done|]. by apply IH.
Qed.

(** The name of a shard directory is not a number for [strconv.Atoi]. *)
Lemma Atoi_shard_name h : strconv.Atoi (shard_name h) = None.
Proof.
  unfold shard_name, fmt.d_d.
  destruct (fmt_d_nonneg (wrap64 (h / 1000 * 1000))) as (c & s & -> & Hc & Hs);
    [apply wrap64_range|].
  rewrite str_app_cons.
  assert (Hrest : str_forall is_digit
                    (s +:+ "-" +:+ fmt.d (wrap64 (wrap64 (h / 1000 * 1000) + 999)))
                  = false).
  { rewrite str_forall_app, str_app_cons. simpl. by rewrite andb_false_r. }
  revert Hrest. generalize (s +:+ "-" +:+ fmt.d (wrap64 (wrap64 (h / 1000 * 1000) + 999))).
  intros rest Hrest. unfold strconv.Atoi.
  assert (Ascii.eqb c "-" = false ∧ Ascii.eqb c "+" = false) as [-> ->].
  { split; [destruct (Ascii.eqb_spec c "-")|destruct (Ascii.eqb_spec c "+")];
      subst; done. }
  cbn [orb]. unfold strconv.ParseUint.
  rewrite ParseUint_loop_digits; [done|].
  simpl. by rewrite Hrest, andb_false_r.
Qed.

(** The first loop of [newBlockStore] finds no number when every
    directory it is shown is named as a shard. *)
Lemma highestDir_shards infos :
  (∀ info, info ∈ infos → info.2 = true → ∃ h, info.1 = shard_name h) →
  fold_left FsStore.highestDir_step infos (-1) = -1.
Proof.
  induction infos as [|info infos IH]; intros Hall; simpl; [done|].
  assert (FsStore.highestDir_step (-1) info = -1) as ->.
  { unfold FsStore.highestDir_step. destruct info.2 eqn:Hd; [|done]. simpl.
    destruct (Hall info) as [h ->]; [by left|done|].
    by rewrite Atoi_shard_name. }
  apply IH. intros i Hi. apply Hall. by right.
Qed.

(** So [newBlockStore] recovers the height 0 from any root directory
    whose directories are all shards, whatever blocks they hold. *)
Lemma newBlockStore_only_shards dir fs fs1 infos :
  os.MkdirAll_name dir fs = (Ok tt, fs1) →
  os.ReadDir_name dir fs1 = Ok infos →
  (∀ info, info ∈ infos → info.2 = true → ∃ h, info.1 = shard_name h) →
  FsStore.newBlockStore dir fs
  = (Ok {| FsStore.dir := dir; FsStore.height := 0 |}, fs1).
Proof.
  intros Hmk Hrd Hall. unfold FsStore.newBlockStore.
  rewrite Hmk, Hrd. cbv zeta. by rewrite highestDir_shards.
Qed.

(** C2.  A block saved at height 1 is on the disk, in the shard directory
    [0-999], and [newBlockStore] on that disk recovers the height 0: the
    name [0-999] is not a number, so the directory is passed over. *)
Theorem newBlockStore_recovers_zero :
  (FsStore.SaveBlock demo_store [1; 0] demo_disk).1 = Ok tt
  ∧ path.str (block_path "/data" 1) = "/data/0-999/1"%string
  ∧ FsStore.GetBlock demo_store 1 disk_with_block_1 = Ok [1; 0]
  ∧ os.ReadDir (path.Clean "/data") disk_with_block_1 = Ok [("0-999"%string, true)]
  ∧ FsStore.newBlockStore "/data" disk_with_block_1
    = (Ok {| FsStore.dir := "/data"; FsStore.height := 0 |}, disk_with_block_1).
Proof. by vm_compute. Qed.

(** The same with blocks in two shards and a snapshot: the root lists the
    two shard directories and the snapshot file, and the height recovered
    is 0. *)
Example demo_listing :
  let fs :=
    (FsStore.SaveSnapshot demo_store [1000]
       (run_all fs_save [[1; 0]; [232; 7; 0]] (demo_store, demo_disk)).2.2).2.2 in
  block_height ([232; 7; 0] : bytes) = 1000
  ∧ os.ReadDir (path.Clean "/data") fs
    = Ok [("0-999"%string, true); ("1000-1999"%string, true);
          ("snapshot"%string, false)]
  ∧ (FsStore.newBlockStore "/data" fs).1
    = Ok {| FsStore.dir := "/data"; FsStore.height := 0 |}.
Proof. by vm_compute. Qed.

(** ** The height pointer after SaveBlock *)

(** C3.  [SaveBlock] of the filesystem store never assigns the field
    [height]: whatever the store, the block and the disk, [Height()]
    returns after the call what it returned before.  So on the store whose
    height is 0, [SaveBlock] of a block of height 1 succeeds and
    [Height()] still returns 0. *)
Theorem SaveBlock_fs_height_stays :
  (∀ (Block : Type) (BC : BlockCodec Block)
     (s : FsStore.blockStore) (b : Block) (fs : os.FS),
     FsStore.Height (FsStore.SaveBlock s b fs).2.1 = FsStore.Height s)
  ∧ FsStore.Height demo_store = Ok 0
  ∧ block_height ([1; 0] : bytes) = 1
  ∧ (FsStore.SaveBlock demo_store [1; 0] demo_disk).1 = Ok tt
  ∧ FsStore.Height (FsStore.SaveBlock demo_store [1; 0] demo_disk).2.1 = Ok 0.
Proof.
  split; [|by vm_compute].
  intros Block BC s b fs. by rewrite SaveBlock_store.
Qed.

Section bolt_height.
Context {Block : Type} {BC : BlockCodec Block}.

(** The database store moves its height to the height of a block saved
    above it. *)
Lemma SaveBlock_db_advances db db' b h :
  db_ready db → heights_bounded db →
  BoltStore.Height db = Ok h →
  is_uint64 (block_height b) →
  BoltStore.SaveBlock b db = (Ok tt, db') →
  h < block_height b →
  BoltStore.Height db' = Ok (block_height b).
Proof.
  intros (r & m & h0 & -> & Hm & Hh0) Hbound Hh Hb Hsave Hlt.
  unfold BoltStore.Height in *. assert (h0 = h) as -> by congruence.
  destruct (block_bytes b) as [bits|] eqn:Hbits.
  2:{ unfold BoltStore.SaveBlock, bbolt.Update in Hsave.
      rewrite Hh, Hm, Hbits in Hsave. by simpl in Hsave. }
  rewrite (SaveBlock_db_spec r m h b bits) in Hsave by done.
  cbv zeta in Hsave.
  destruct (bbolt.Get _) as [|x old] eqn:Hold.
  - injection Hsave as <-. destruct (Z.ltb_spec h (block_height b)); [|lia].
    by apply getHeight_put.
  - exfalso.
    assert (stored_block (Some r) (block_height b) = Some (x :: old)) as Hst.
    { revert Hold. unfold stored_block. rewrite Hm.
      destruct (m !! _) as [bu|]; simpl; [|done].
      destruct (bbolt.block bu); simpl; congruence. }
    specialize (Hbound _ _ h Hb Hst). unfold BoltStore.Height in Hbound.
    specialize (Hbound ltac:(done) Hh). lia.
Qed.

Lemma SaveBlock_db_bounded db b :
  db_ready db → heights_bounded db → is_uint64 (block_height b) →
  heights_bounded (BoltStore.SaveBlock b db).2.
Proof.
  intros (r & m & h & -> & Hm & Hh) Hbound Hb.
  destruct (block_bytes b) as [bits|] eqn:Hbits.
  2:{ unfold BoltStore.SaveBlock, bbolt.Update. rewrite Hh, Hm, Hbits.
      by cbn [snd]. }
  rewrite (SaveBlock_db_spec r m h b bits) by done. cbv zeta.
  destruct (bbolt.Get _) as [|x old] eqn:Hold.
  2:{ by case_bool_decide. }
  cbn [snd]. intros H bits' h' HH Hst Hne Hh'.
  unfold BoltStore.Height in Hh'.
  assert (Hmax : h ≤ h' ∧ block_height b ≤ h').
  { revert Hh'. destruct (Z.ltb_spec h (block_height b)); intros Hh'.
    - assert (Ok h' = Ok (block_height b)) as [= ->]; [|lia].
      rewrite <- Hh'. by apply getHeight_put.
    - assert (Ok h' = Ok h) as [= ->]; [|lia].
      rewrite <- Hh', <- Hh. apply getHeight_frame. }
  destruct (decide (H = block_height b)) as [->|Hdiff]; [lia|].
  assert (stored_block (Some r) H = Some bits') as Hst0.
  { unfold stored_block in *. simpl in Hst. rewrite Hm.
    rewrite lookup_insert_ne in Hst; [done|].
    intros Heq. by apply PutUvarint_inj in Heq. }
  specialize (Hbound _ _ h HH Hst0 Hne Hh). lia.
Qed.

End bolt_height.

Lemma demo_db_bounded : heights_bounded demo_db.
Proof.
  intros H bits h HH Hst Hne Hh.
  assert (h = 1) as -> by (vm_compute in Hh; congruence).
  unfold stored_block in Hst.
  destruct (decide (H = 1)) as [->|Hdiff]; [lia|].
  change demo_db with
    (Some {| bbolt.height := Some (binary.PutUvarint 1);
             bbolt.blocks :=
               Some {[ binary.PutUvarint 1 :=
                         {| bbolt.block := Some [1; 0];
                            bbolt.snapshot := None |} ]};
             bbolt.latest_snapshot := None |}) in Hst.
  simpl in Hst. rewrite lookup_singleton_ne in Hst; [done|].
  intros Heq. apply PutUvarint_inj in Heq; [done| |done].
  unfold is_uint64. lia.
Qed.

(** ** GetBlock at a height without a block *)

Section get_block.
Context {Block : Type} {BC : BlockCodec Block}.

(** The filesystem store returns an error for a height whose file does
    not exist, the error of the file system at its root. *)
Lemma GetBlock_fs_absent s h fs :
  os.files fs !! block_path (FsStore.dir s) h = None →
  ∃ e, FsStore.GetBlock s h fs = Err e
       ∧ (Root e = ENOENT ∨ Root e = EISDIR ∨ Root e = ENOTDIR).
Proof.
  intros Hnone. unfold FsStore.GetBlock, block_path in *.
  destruct (FsStore.blockFilename _ _) as [d f].
  unfold os.ReadFile. rewrite Hnone.
  destruct (os.is_dir _ _); [|destruct (os.under_file _ _)];
    eexists; (split; [reflexivity|]); simpl; auto.
Qed.

(** It returns an error for stored bytes that do not parse. *)
Lemma GetBlock_fs_corrupt s h fs bits :
  os.files fs !! block_path (FsStore.dir s) h = Some bits →
  block_from_bytes bits = None →
  ∃ e, FsStore.GetBlock s h fs = Err e.
Proof.
  intros Hsome Hbad. unfold FsStore.GetBlock, block_path in *.
  destruct (FsStore.blockFilename _ _) as [d f].
  unfold os.ReadFile. rewrite Hsome, Hbad. by eexists.
Qed.

(** The database store panics for a height that has no bucket: [Get] is
    called on the nil bucket. *)
Lemma GetBlock_db_absent r m h :
  bbolt.blocks r = Some m → m !! binary.PutUvarint h = None →
  BoltStore.GetBlock h (Some r) = Panic.
Proof. intros Hm Hnone. unfold BoltStore.GetBlock. by rewrite Hm, Hnone. Qed.

End get_block.

(** C6.  On the database that holds the genesis block only, [GetBlock(2)]
    panics instead of returning an error. *)
Theorem GetBlock_db_absent_panics :
  stored_block demo_db 2 = None
  ∧ BoltStore.GetBlock (Block := bytes) 2 demo_db = Panic.
Proof. by vm_compute. Qed.

(** ** Snapshots *)

Section snapshots.
Context {Snapshot : Type} {SC : SnapshotCodec Snapshot}.

(** *** The database store *)

Lemma SaveSnapshot_db_zero x db :
  snapshot_height x = 0 → BoltStore.SaveSnapshot x db = (Ok tt, db).
Proof. intros Hx. unfold BoltStore.SaveSnapshot. by rewrite Hx. Qed.

(** A snapshot of a height other than 0 saved in a ready database: the
    call succeeds, the database stays ready, and the slot takes the
    snapshot unless it holds one of a greater height. *)
Lemma SaveSnapshot_db_nonzero x bits db :
  db_ready db →
  snapshot_height x ≠ 0 →
  snapshot_bytes x = Some bits →
  (latest_slot db = [] ∨
   ∃ cur, snapshot_from_bytes (latest_slot db) = Some cur) →
  ∃ db', BoltStore.SaveSnapshot x db = (Ok tt, db')
         ∧ db_ready db'
         ∧ latest_slot db'
           = match latest_slot db with
             | [] => bits
             | _ =>
                 match snapshot_from_bytes (latest_slot db) with
                 | Some cur =>
                     if snapshot_height x <? snapshot_height cur
                     then latest_slot db else bits
                 | None => bits
                 end
             end.
Proof.
  intros (r & m & h & -> & Hm & Hh) Hx Hbits Hslot.
  unfold BoltStore.SaveSnapshot, bbolt.Update.
  destruct (Z.eqb_spec (snapshot_height x) 0); [done|].
  rewrite Hh, Hm, Hbits. cbv zeta. unfold latest_slot in *.
  destruct (bbolt.Get (bbolt.latest_snapshot r)) as [|c cur_bits] eqn:Hget.
  - rewrite bool_decide_eq_false_2 by (simpl; lia).
    eexists. split; [reflexivity|]. split; [|done].
    eexists _, _, h. split_and!; [done..|].
    by rewrite getHeight_frame.
  - rewrite bool_decide_eq_true_2 by (simpl; lia).
    destruct Hslot as [?|[cur Hcur]]; [done|]. rewrite Hcur.
    eexists. split; [reflexivity|]. split.
    + eexists _, _, h. split_and!; [done..|]. by rewrite getHeight_frame.
    + simpl. destruct (_ <? _); simpl; [|done].
      by rewrite Hget.
Qed.

Lemma run_SaveSnapshot_db l db :
  db_ready db → latest_slot db = [] →
  (∀ x, x ∈ l → snapshot_ok x) →
  let out := run_all BoltStore.SaveSnapshot l db in
  (∀ r, r ∈ out.1 → r = Ok tt)
  ∧ db_ready out.2
  ∧ slot_holds l (latest_slot out.2).
Proof.
  unfold slot_holds.
  intros Hready Hempty. induction l as [|x l IH] using rev_ind; intros Hok.
  { simpl. rewrite Hempty. split_and!; [|done|].
    - intros r Hr. by apply elem_of_nil in Hr.
    - intros x Hx. by apply elem_of_nil in Hx. }
  assert (Hokl : ∀ y, y ∈ l → snapshot_ok y).
  { intros y Hy. apply Hok. apply elem_of_app. by left. }
  destruct (Hok x) as ([Hx0 Hx64] & bits & Hbits & Hback & Hne).
  { apply elem_of_app. right. by left. }
  specialize (IH Hokl). cbv zeta in *. rewrite run_all_app.
  destruct (run_all BoltStore.SaveSnapshot l db) as [rs db1].
  simpl in IH. destruct IH as (Hrs & Hready1 & Hslot1). cbn [fst snd].
  destruct (decide (snapshot_height x = 0)) as [Hz|Hnz].
  - simpl. rewrite SaveSnapshot_db_zero by done. simpl.
    split_and!; [|done|].
    + intros r Hr. apply elem_of_app in Hr as [Hr|Hr]; [by apply Hrs|].
      by apply list_elem_of_singleton in Hr.
    + destruct (latest_slot db1) as [|c bs].
      * intros y Hy. apply elem_of_app in Hy as [Hy|Hy]; [by apply Hslot1|].
        by apply list_elem_of_singleton in Hy as ->.
      * destruct Hslot1 as (r & Hr & (l1 & l2 & -> & Hl1 & Hl2) & Hrnz).
        destruct (Hokl r) as [[? ?] _].
        { apply elem_of_app. right. by left. }
        exists r. split; [done|]. split; [|done].
        exists l1, (l2 ++ [x]). split; [by rewrite <- app_assoc|].
        split; [done|]. intros y Hy.
        apply elem_of_app in Hy as [Hy|Hy]; [by apply Hl2|].
        apply list_elem_of_singleton in Hy as ->. lia.
  - destruct (SaveSnapshot_db_nonzero x bits db1 Hready1 Hnz Hbits)
      as (db2 & Hsave & Hready2 & Hslot2).
    { destruct (latest_slot db1) as [|c bs]; [by left|right].
      destruct Hslot1 as (r & Hr & _). by exists r. }
    simpl. rewrite Hsave. simpl. split_and!; [|done|].
    + intros r Hr. apply elem_of_app in Hr as [Hr|Hr]; [by apply Hrs|].
      by apply list_elem_of_singleton in Hr.
    + rewrite Hslot2.
      assert (Hnew :
        (∀ y, y ∈ l → snapshot_height y ≤ snapshot_height x) →
        slot_holds (l ++ [x]) bits).
      { intros Hle. unfold slot_holds.
        destruct bits as [|c bs]; [by destruct Hne|].
        exists x. split; [done|]. split; [|done].
        exists l, []. split; [done|]. split; [done|].
        intros y Hy. by apply elem_of_nil in Hy. }
      destruct (latest_slot db1) as [|c bs] eqn:Hcur.
      * apply Hnew. intros y Hy. rewrite Hslot1 by done. lia.
      * destruct Hslot1 as (r & Hr & (l1 & l2 & -> & Hl1 & Hl2) & Hrnz).
        rewrite Hr. destruct (Z.ltb_spec (snapshot_height x) (snapshot_height r)).
        -- exists r. split; [done|]. split; [|done].
           exists l1, (l2 ++ [x]). split; [by rewrite <- app_assoc|].
           split; [done|]. intros y Hy.
           apply elem_of_app in Hy as [Hy|Hy]; [by apply Hl2|].
           by apply list_elem_of_singleton in Hy as ->.
        -- apply Hnew. intros y Hy.
           apply elem_of_app in Hy as [Hy|Hy].
           { specialize (Hl1 y Hy). lia. }
           apply elem_of_cons in Hy as [->|Hy]; [lia|].
           specialize (Hl2 y Hy). lia.
Qed.

End snapshots.

(** *** The filesystem store, and both together *)

Lemma existsb_eq_in {A} (f g : A → bool) (l : list A) :
  (∀ x, x ∈ l → f x = g x) → existsb f l = existsb g l.
Proof.
  induction l as [|a l IH]; intros Hfg; simpl; [done|].
  rewrite Hfg by by left. rewrite IH; [done|].
  intros x Hx. apply Hfg. by right.
Qed.

Lemma snapshot_plain : plain_name "snapshot".
Proof. by repeat split. Qed.

Section snapshots_fs.
Context {Snapshot : Type} {SC : SnapshotCodec Snapshot}.

Lemma snapshot_path_parts s :
  snapshot_path s
  = path.Path (path.rooted (root_path (FsStore.dir s)))
      (path.comps (root_path (FsStore.dir s)) ++ ["snapshot"%string]).
Proof.
  unfold snapshot_path. rewrite JoinS_plain by apply snapshot_plain.
  by rewrite Join_plain by apply snapshot_plain.
Qed.

(** [SaveSnapshot] of the filesystem store writes the snapshot file,
    whatever the height of the snapshot. *)
Lemma SaveSnapshot_fs_writes s x bits fs :
  snapshot_bytes x = Some bits →
  snapshot_writable s fs →
  FsStore.SaveSnapshot s x fs
  = (Ok tt, (s, {| os.files := <[snapshot_path s := bits]> (os.files fs);
                   os.dirs := os.dirs fs |})).
Proof.
  intros Hbits (Hd & Hu & Hp). unfold FsStore.SaveSnapshot. rewrite Hbits.
  fold (snapshot_path s). unfold os.WriteFile. by rewrite Hd, Hu, Hp.
Qed.

Lemma snapshot_writable_written s bits fs :
  snapshot_writable s fs →
  snapshot_writable s
    {| os.files := <[snapshot_path s := bits]> (os.files fs);
       os.dirs := os.dirs fs |}.
Proof.
  intros (Hd & Hu & Hp). split_and!; [done| |done].
  rewrite <- Hu. unfold os.under_file. apply existsb_eq_in.
  intros q Hq. unfold os.is_file. simpl.
  rewrite lookup_insert_ne; [done|]. intros <-.
  apply prefixes_spec in Hq as [_ Hq].
  rewrite snapshot_path_parts in Hq. unfold path.parent in Hq.
  simpl in Hq. rewrite removelast_last, length_app in Hq. simpl in Hq. lia.
Qed.

(** After the snapshots [l] are saved one after the other, every call
    has succeeded and the snapshot file holds the encoding of the last
    one. *)
Lemma run_SaveSnapshot_fs l s fs :
  snapshot_writable s fs →
  (∀ x, x ∈ l → snapshot_ok x) →
  let out := run_all fs_save_snapshot l (s, fs) in
  (∀ r, r ∈ out.1 → r = Ok tt)
  ∧ out.2.1 = s
  ∧ snapshot_writable s out.2.2
  ∧ ∀ l' x, l = l' ++ [x] →
      ∃ bits, os.files out.2.2 !! snapshot_path s = Some bits
              ∧ snapshot_from_bytes bits = Some x.
Proof.
  intros Hw. induction l as [|x l IH] using rev_ind; intros Hok.
  { simpl. split_and!; [|done..|].
    - intros r Hr. by apply elem_of_nil in Hr.
    - intros l' x Heq. by destruct l'. }
  assert (Hokl : ∀ y, y ∈ l → snapshot_ok y).
  { intros y Hy. apply Hok. apply elem_of_app. by left. }
  destruct (Hok x) as (_ & bits & Hbits & Hback & _).
  { apply elem_of_app. right. by left. }
  specialize (IH Hokl). cbv zeta in *. rewrite run_all_app.
  destruct (run_all fs_save_snapshot l (s, fs)) as [rs [s1 fs1]].
  simpl in IH. destruct IH as (Hrs & -> & Hw1 & _). cbn [fst snd].
  simpl. unfold fs_save_snapshot at 1 2 3 4. simpl.
  rewrite (SaveSnapshot_fs_writes s x bits fs1) by done. simpl.
  split_and!; [|done| |].
  - intros r Hr. apply elem_of_app in Hr as [Hr|Hr]; [by apply Hrs|].
    by apply list_elem_of_singleton in Hr.
  - by apply snapshot_writable_written.
  - intros l' x' Heq. apply app_inj_tail in Heq as [_ <-].
    exists bits. by rewrite lookup_insert_eq.
Qed.

Lemma LatestSnapshot_fs_read s fs bits x :
  os.files fs !! snapshot_path s = Some bits →
  snapshot_from_bytes bits = Some x →
  FsStore.LatestSnapshot s fs = Ok x.
Proof.
  intros Hsome Hback. unfold FsStore.LatestSnapshot.
  fold (snapshot_path s). unfold os.ReadFile. by rewrite Hsome, Hback.
Qed.

Lemma LatestSnapshot_db_slot db :
  db_ready db →
  BoltStore.LatestSnapshot db
  = match latest_slot db with
    | [] => Ok snapshot_empty
    | _ =>
        match snapshot_from_bytes (latest_slot db) with
        | Some st => Ok st
        | None => Err ErrCodec
        end
    end.
Proof.
  intros (r & m & h & -> & _). unfold BoltStore.LatestSnapshot, latest_slot.
  destruct (bbolt.Get _) as [|c bits].
  - by rewrite bool_decide_eq_false_2 by (simpl; lia).
  - by rewrite bool_decide_eq_true_2 by (simpl; lia).
Qed.

(** X25.  The database store keeps the rule of the greatest height:
    after any saves in a database whose slot was empty, [LatestSnapshot]
    returns the snapshot of the greatest height, the last one saved among
    those of that height, provided that some snapshot saved has a height
    other than 0; when all have height 0 nothing is stored and it returns
    the empty snapshot. *)
Theorem LatestSnapshot_db_after_saves (db : bbolt.DB) (l : list Snapshot) :
  (∀ x, x ∈ l → snapshot_ok x) →
  db_ready db → latest_slot db = [] →
  ((∃ x, x ∈ l ∧ snapshot_height x ≠ 0) →
   ∃ r, BoltStore.LatestSnapshot (run_all BoltStore.SaveSnapshot l db).2 = Ok r
        ∧ is_latest l r)
  ∧ ((∀ x, x ∈ l → snapshot_height x = 0) →
     BoltStore.LatestSnapshot (run_all BoltStore.SaveSnapshot l db).2
     = Ok snapshot_empty).
Proof.
  intros Hok Hready Hempty.
  destruct (run_SaveSnapshot_db l db Hready Hempty Hok) as (_ & Hready' & Hslot).
  rewrite (LatestSnapshot_db_slot _ Hready'). unfold slot_holds in Hslot.
  revert Hslot. generalize (latest_slot (run_all BoltStore.SaveSnapshot l db).2).
  intros slot Hslot. split.
  - intros (x & Hx & Hnz). destruct slot as [|c bits].
    + by destruct Hnz; apply Hslot.
    + destruct Hslot as (r & -> & Hr & _). by exists r.
  - intros Hzero. destruct slot as [|c bits]; [done|].
    destruct Hslot as (r & _ & (l1 & l2 & -> & _) & Hnz).
    destruct Hnz. apply Hzero. apply elem_of_app. right. by left.
Qed.

(** The filesystem store keeps no such rule: whatever the heights, the
    snapshot file holds the snapshot saved last. *)
Lemma LatestSnapshot_fs_last
    (s : FsStore.blockStore) (fs : os.FS) (l : list Snapshot) (x : Snapshot) :
  snapshot_writable s fs →
  (∀ y, y ∈ l ++ [x] → snapshot_ok y) →
  FsStore.LatestSnapshot s
    (run_all fs_save_snapshot (l ++ [x]) (s, fs)).2.2 = Ok x.
Proof.
  intros Hw Hok.
  destruct (run_SaveSnapshot_fs (l ++ [x]) s fs Hw Hok) as (_ & _ & _ & Hfile).
  destruct (Hfile l x eq_refl) as (bits & Hsome & Hback).
  by apply (LatestSnapshot_fs_read _ _ bits).
Qed.

End snapshots_fs.

Lemma wire_snapshot_ok (x : bytes) :
  is_uint64 (snapshot_height x) → snapshot_ok x.
Proof.
  intros Hx. split; [done|]. exists x. split_and!; [done..|].
  intros Hnz ->. by apply Hnz.
Qed.

Lemma demo_snapshot_writable : snapshot_writable demo_store demo_disk.
Proof. by vm_compute. Qed.

Example demo_latest_snapshots :
  BoltStore.LatestSnapshot
    (run_all BoltStore.SaveSnapshot [[5]; [3]; [5; 1]] demo_db).2 = Ok [5; 1]
  ∧ FsStore.LatestSnapshot demo_store
      (run_all fs_save_snapshot [[5; 1]; [5]; [3]] (demo_store, demo_disk)).2.2
    = Ok [3].
Proof. by vm_compute. Qed.

(** C4.  [SaveSnapshot] of the filesystem store writes the snapshot file
    without reading the height of the snapshot it replaces, so that
    [LatestSnapshot] returns the snapshot saved last, whatever the
    heights.  After snapshots of heights 5 and 3 are saved in this order,
    both with success, it returns the one of height 3, which is not the
    one of the greatest height; the database store, after the same
    calls, returns the one of height 5. *)
Theorem LatestSnapshot_fs_not_max :
  (∀ (Snapshot : Type) (SC : SnapshotCodec Snapshot)
     (s : FsStore.blockStore) (fs : os.FS) (l : list Snapshot) (x : Snapshot),
     snapshot_writable s fs →
     (∀ y, y ∈ l ++ [x] → snapshot_ok y) →
     FsStore.LatestSnapshot s
       (run_all fs_save_snapshot (l ++ [x]) (s, fs)).2.2 = Ok x)
  ∧ snapshot_height ([5] : bytes) = 5
  ∧ snapshot_height ([3] : bytes) = 3
  ∧ (run_all fs_save_snapshot [[5]; [3]] (demo_store, demo_disk)).1
    = [Ok tt; Ok tt]
  ∧ FsStore.LatestSnapshot demo_store
      (run_all fs_save_snapshot [[5]; [3]] (demo_store, demo_disk)).2.2
    = Ok [3]
  ∧ ¬ is_latest [[5]; [3]] [3]
  ∧ BoltStore.LatestSnapshot
      (run_all BoltStore.SaveSnapshot [[5]; [3]] demo_db).2 = Ok [5].
Proof.
  split; [intros Snapshot SC s fs l x; apply LatestSnapshot_fs_last|].
  split_and!; [by vm_compute..| |by vm_compute].
  intros (l1 & l2 & Heq & Hl1 & _).
  destruct l1 as [|a [|b l1]]; simplify_eq/=.
  - specialize (Hl1 [5] ltac:(by left)). by vm_compute in Hl1.
  - by destruct l1.
Qed.

(** C5.  [SaveSnapshot] of the filesystem store has no case for the
    height 0: it writes the snapshot file for a snapshot of any height.
    On the store just opened, where no snapshot file exists, the call
    with a snapshot of height 0 succeeds and creates the file, so that
    the stored state has changed; the same call on the database store
    returns at once and changes nothing. *)
Theorem SaveSnapshot_fs_zero_writes :
  (∀ (Snapshot : Type) (SC : SnapshotCodec Snapshot)
     (s : FsStore.blockStore) (x : Snapshot) (bits : bytes) (fs : os.FS),
     snapshot_bytes x = Some bits →
     snapshot_writable s fs →
     FsStore.SaveSnapshot s x fs
     = (Ok tt, (s, {| os.files := <[snapshot_path s := bits]> (os.files fs);
                      os.dirs := os.dirs fs |})))
  ∧ snapshot_height ([0] : bytes) = 0
  ∧ os.files demo_disk !! snapshot_path demo_store = None
  ∧ (FsStore.SaveSnapshot demo_store [0] demo_disk).1 = Ok tt
  ∧ os.files (FsStore.SaveSnapshot demo_store [0] demo_disk).2.2
      !! snapshot_path demo_store = Some [0]
  ∧ (FsStore.SaveSnapshot demo_store [0] demo_disk).2.2 ≠ demo_disk
  ∧ FsStore.LatestSnapshot demo_store demo_disk = Ok []
  ∧ FsStore.LatestSnapshot demo_store
      (FsStore.SaveSnapshot demo_store [0] demo_disk).2.2 = Ok [0]
  ∧ BoltStore.SaveSnapshot [0] demo_db = (Ok tt, demo_db).
Proof.
  split; [intros Snapshot SC s x bits fs; apply SaveSnapshot_fs_writes|].
  split_and!; [by vm_compute..| |by vm_compute|by vm_compute|by vm_compute].
  intros Heq.
  assert (os.files (FsStore.SaveSnapshot demo_store [0] demo_disk).2.2
            !! snapshot_path demo_store = None) as Hnone.
  { rewrite Heq. by vm_compute. }
  by vm_compute in Hnone.
Qed.

(** ** The handler of /get *)

Section handler.
Context {Block : Type} {BC : BlockCodec Block}.

Lemma ParseUint_nonempty wantStr want :
  strconv.ParseUint wantStr = Some want → wantStr ≠ "".
Proof. by intros Hp ->. Qed.

(** With a block to return, the end of the handler answers with its
    bytes and makes the one call [GetBlock]. *)
Lemma fetch_block (c : Handler.chain) N b bits calls :
  Handler.chain_GetBlock c N = Ok b → block_bytes b = Some bits →
  Handler.fetch c N calls
  = (Ok (Handler.Body "application/octet-stream" bits),
     calls ++ [Handler.GetBlock N]).
Proof. intros Hb Hbits. unfold Handler.fetch. by rewrite Hb, Hbits. Qed.

(** A request whose height parameter reads as [want] is resolved to the
    height [N]: the height of the chain when [want] is 0, else [want].
    When [N] is not above the height of the chain, either handler goes to
    [chain.GetBlock(N)] without waiting. *)
Lemma get_within_height
    (c : Handler.chain (Block := Block)) (wantStr : string) (want : Z) :
  strconv.ParseUint wantStr = Some want →
  let N := if want =? 0 then Handler.chain_Height c else want in
  N ≤ Handler.chain_Height c →
  Handler.Fs.get c wantStr = Handler.fetch c N []
  ∧ Handler.Bolt.get c wantStr = Handler.fetch c N [].
Proof.
  intros Hp N Hle. pose proof (ParseUint_nonempty _ _ Hp) as Hne.
  assert (Hget : ∀ want0,
            Handler.get_from want0 c wantStr = Handler.fetch c N []).
  { intros want0. unfold Handler.get_from.
    rewrite bool_decide_eq_true_2 by done. rewrite Hp. cbv zeta.
    fold N. by destruct (Z.ltb_spec (Handler.chain_Height c) N); [lia|]. }
  unfold Handler.Fs.get, Handler.Bolt.get. by rewrite !Hget.
Qed.

(** Without the parameter, the handler of the filesystem server resolves
    to the height of the chain and the handler of the database server
    to 1. *)
Lemma get_default (c : Handler.chain (Block := Block)) :
  Handler.Fs.get c "" = Handler.fetch c (Handler.chain_Height c) []
  ∧ Handler.Bolt.get c ""
    = if Handler.chain_Height c <? 1 then
        if Handler.chain_wait c 1
        then Handler.fetch c 1 [Handler.BlockWaiter 1]
        else (Ok (Handler.Error 408 "timed out"), [Handler.BlockWaiter 1])
      else Handler.fetch c 1 [].
Proof.
  split.
  - unfold Handler.Fs.get, Handler.get_from.
    rewrite bool_decide_eq_false_2 by (by intros ?). simpl.
    by rewrite Z.ltb_irrefl.
  - unfold Handler.Bolt.get, Handler.get_from.
    rewrite bool_decide_eq_false_2 by (by intros ?). done.
Qed.

End handler.

(** C8.  Either handler resolves the height 0 to the height of the
    chain and, for a resolved height [N] that is not above it, goes to
    [chain.GetBlock(N)] without waiting; without the parameter the
    handler of the filesystem server resolves to the height of the chain
    and that of the database server to 1.  On the filesystem server just
    started on an empty directory the height is 0 and the store holds no
    block: a request for the height 0, and a request without the
    parameter, resolve to 0, which is not above the height, and are
    answered 500, no block being stored at the height 0.  The database
    server, whose store holds the genesis block at the height 1 from the
    start, answers both requests with that block. *)
Theorem get_height_zero_no_block :
  (∀ (Block : Type) (BC : BlockCodec Block)
     (c : Handler.chain (Block := Block)) (wantStr : string) (want : Z),
     strconv.ParseUint wantStr = Some want →
     let N := if want =? 0 then Handler.chain_Height c else want in
     N ≤ Handler.chain_Height c →
     Handler.Fs.get c wantStr = Handler.fetch c N []
     ∧ Handler.Bolt.get c wantStr = Handler.fetch c N [])
  ∧ (∀ (Block : Type) (BC : BlockCodec Block)
       (c : Handler.chain (Block := Block)),
       Handler.Fs.get c "" = Handler.fetch c (Handler.chain_Height c) []
       ∧ Handler.Bolt.get c ""
         = if Handler.chain_Height c <? 1 then
             if Handler.chain_wait c 1
             then Handler.fetch c 1 [Handler.BlockWaiter 1]
             else (Ok (Handler.Error 408 "timed out"),
                   [Handler.BlockWaiter 1])
           else Handler.fetch c 1 [])
  ∧ Handler.chain_Height (fs_chain (Block := bytes) demo_store demo_disk) = 0
  ∧ Handler.Fs.get (fs_chain (Block := bytes) demo_store demo_disk) "0"
    = (Ok (Handler.Error 500 "getting block 0"), [Handler.GetBlock 0])
  ∧ Handler.Fs.get (fs_chain (Block := bytes) demo_store demo_disk) ""
    = (Ok (Handler.Error 500 "getting block 0"), [Handler.GetBlock 0])
  ∧ Handler.chain_Height (db_chain (Block := bytes) demo_db) = 1
  ∧ Handler.Bolt.get (db_chain (Block := bytes) demo_db) "0"
    = (Ok (Handler.Body "application/octet-stream" [1; 0]),
       [Handler.GetBlock 1])
  ∧ Handler.Bolt.get (db_chain (Block := bytes) demo_db) ""
    = (Ok (Handler.Body "application/octet-stream" [1; 0]),
       [Handler.GetBlock 1]).
Proof.
  split; [intros Block BC c wantStr want; apply get_within_height|].
  split; [intros Block BC c; apply get_default|].
  by vm_compute.
Qed.

Example demo_get :
  Handler.Fs.get demo_chain "0"
  = (Ok (Handler.Body "application/octet-stream" [3; 0]), [Handler.GetBlock 3])
  ∧ Handler.Fs.get demo_chain ""
    = (Ok (Handler.Body "application/octet-stream" [3; 0]), [Handler.GetBlock 3])
  ∧ Handler.Bolt.get demo_chain ""
    = (Ok (Handler.Body "application/octet-stream" [1; 0]), [Handler.GetBlock 1])
  ∧ Handler.Bolt.get demo_chain "2"
    = (Ok (Handler.Body "application/octet-stream" [2; 0]), [Handler.GetBlock 2])
  ∧ Handler.Bolt.get demo_chain "4"
    = (Ok (Handler.Error 408 "timed out"), [Handler.BlockWaiter 4])
  ∧ Handler.Bolt.get demo_chain "x"
    = (Ok (Handler.Error 400 "parsing height"), []).
Proof. by vm_compute. Qed.

(** ** The states the stores leave *)

Section invariants.
Context {Block Snapshot : Type}.
Context {BC : BlockCodec Block} {SC : SnapshotCodec Snapshot}.

Lemma MkdirAll_wf d fs : disk_wf fs → disk_wf (os.MkdirAll d fs).2.
Proof.
  intros Hwf. unfold os.MkdirAll.
  destruct (os.is_dir fs d); [done|].
  destruct (existsb _ _); [done|]. simpl.
  intros p Hp. specialize (Hwf p Hp). unfold os.is_dir in *. simpl in *.
  apply bool_decide_eq_true in Hwf. apply bool_decide_eq_true.
  destruct Hwf as [?|?]; [by left|right]. by apply elem_of_union_l.
Qed.

Lemma insert_file_wf p bits fs :
  disk_wf fs → os.is_dir fs (path.parent p) = true →
  disk_wf {| os.files := <[p := bits]> (os.files fs); os.dirs := os.dirs fs |}.
Proof.
  intros Hwf Hp q Hq. simpl in Hq.
  destruct (decide (p = q)) as [<-|Hne]; [done|].
  rewrite lookup_insert_ne in Hq by done. by apply Hwf.
Qed.

(** [SaveBlock] of the filesystem store keeps the disk well formed. *)
Lemma SaveBlock_fs_wf s b fs :
  disk_wf fs → disk_wf (FsStore.SaveBlock s b fs).2.2.
Proof.
  intros Hwf. unfold FsStore.SaveBlock.
  destruct (block_bytes b) as [bits|]; [|done].
  destruct (FsStore.blockFilename _ _) as [d f].
  pose proof (MkdirAll_wf d fs Hwf) as Hwf1.
  destruct (os.MkdirAll d fs) as [[[]|e|] fs1]; [|done..]. simpl in Hwf1.
  unfold os.OpenFile_excl.
  destruct (_ || _).
  { simpl. unfold os.ReadFile. repeat case_match; done. }
  destruct (os.under_file _ _); [done|].
  destruct (os.is_dir fs1 (path.parent _)) eqn:Hpar; [|done]. simpl.
  unfold os.Write. simpl. rewrite lookup_insert_eq. simpl.
  rewrite insert_insert_eq. by apply insert_file_wf.
Qed.

(** So does [SaveSnapshot]. *)
Lemma SaveSnapshot_fs_wf s x fs :
  disk_wf fs → disk_wf (FsStore.SaveSnapshot s x fs).2.2.
Proof.
  intros Hwf. unfold FsStore.SaveSnapshot.
  destruct (snapshot_bytes x) as [bits|]; [|done].
  unfold os.WriteFile.
  destruct (os.is_dir fs (path.JoinS _ _)); [done|].
  destruct (os.under_file _ _); [done|].
  destruct (os.is_dir fs (path.parent _)) eqn:Hpar; [|done]. simpl.
  by apply insert_file_wf.
Qed.

(** [newBlockStore] on an empty database leaves it ready, with the
    genesis block at height 1 and no snapshot. *)
Lemma newBlockStore_db_fresh ib bbytes :
  block_bytes ib = Some bbytes →
  ∃ db, BoltStore.newBlockStore (Ok ib) None = (Ok tt, db)
        ∧ db_ready db ∧ heights_bounded db ∧ latest_slot db = []
        ∧ BoltStore.Height db = Ok 1
        ∧ stored_block db 1 = Some bbytes.
Proof.
  intros Hbits. unfold BoltStore.newBlockStore, bbolt.Update. simpl.
  rewrite Hbits. eexists. split; [reflexivity|].
  assert (Hh : BoltStore.Height
            (Some {| bbolt.height := Some (binary.PutUvarint 1);
                     bbolt.blocks :=
                       Some {[ binary.PutUvarint 1 :=
                                 {| bbolt.block := Some bbytes;
                                    bbolt.snapshot := None |} ]};
                     bbolt.latest_snapshot := None |}) = Ok 1).
  { apply getHeight_put. unfold is_uint64. lia. }
  split_and!; [by eexists _, _, 1| |done|done|].
  - intros H bits h HH Hst Hne Hh'. rewrite Hh in Hh'. injection Hh' as <-.
    destruct (decide (H = 1)) as [->|Hdiff]; [lia|].
    unfold stored_block in Hst. simpl in Hst.
    rewrite lookup_singleton_ne in Hst; [done|].
    intros Heq. apply PutUvarint_inj in Heq; [done| |done].
    unfold is_uint64. lia.
  - unfold stored_block. simpl. by rewrite lookup_singleton_eq.
Qed.

End invariants.

(** ** More on the database store *)

Section more_bolt.
Context {Block Snapshot : Type}.
Context {BC : BlockCodec Block} {SC : SnapshotCodec Snapshot}.

(** [SaveBlock] leaves the database as it is, or it puts the bytes of
    the block in the bucket of its height, which held none. *)
Lemma SaveBlock_db_cases b db :
  (BoltStore.SaveBlock b db).2 = db
  ∨ ∃ r m h bits,
      db = Some r ∧ bbolt.blocks r = Some m
      ∧ BoltStore.getHeight db = Ok h
      ∧ block_bytes b = Some bits
      ∧ BoltStore.SaveBlock b db
        = (Ok tt,
           Some {| bbolt.height :=
                     if h <? block_height b
                     then Some (binary.PutUvarint (block_height b))
                     else bbolt.height r;
                   bbolt.blocks :=
                     Some (<[binary.PutUvarint (block_height b) :=
                              {| bbolt.block := Some bits;
                                 bbolt.snapshot :=
                                   bbolt.snapshot
                                     (default bbolt.new_bucket
                                        (m !! binary.PutUvarint (block_height b))) |}]> m);
                   bbolt.latest_snapshot := bbolt.latest_snapshot r |}).
Proof.
  destruct (BoltStore.getHeight db) as [h|e|] eqn:Hh.
  2,3: left; unfold BoltStore.SaveBlock, bbolt.Update; by rewrite Hh.
  destruct db as [r|]; [|done].
  destruct (bbolt.blocks r) as [m|] eqn:Hm.
  2:{ left. unfold BoltStore.SaveBlock, bbolt.Update. by rewrite Hh, Hm. }
  destruct (block_bytes b) as [bits|] eqn:Hbits.
  2:{ left. unfold BoltStore.SaveBlock, bbolt.Update. by rewrite Hh, Hm, Hbits. }
  pose proof (SaveBlock_db_spec r m h b bits Hm Hh Hbits) as Hspec.
  cbv zeta in Hspec.
  destruct (bbolt.Get _) as [|c old].
  - right. exists r, m, h, bits. by rewrite Hspec.
  - left. rewrite Hspec. by case_bool_decide.
Qed.

(** [SaveSnapshot] leaves the database as it is, or it puts the bytes of
    the snapshot in the bucket of its height and leaves the slot of the
    latest snapshot or puts the same bytes there. *)
Lemma SaveSnapshot_db_cases x db :
  (BoltStore.SaveSnapshot x db).2 = db
  ∨ ∃ r m h bits l',
      db = Some r ∧ bbolt.blocks r = Some m
      ∧ BoltStore.getHeight db = Ok h
      ∧ snapshot_height x ≠ 0
      ∧ snapshot_bytes x = Some bits
      ∧ (l' = Some bits ∨ l' = bbolt.latest_snapshot r)
      ∧ BoltStore.SaveSnapshot x db
        = (Ok tt,
           Some {| bbolt.height := bbolt.height r;
                   bbolt.blocks :=
                     Some (<[binary.PutUvarint (snapshot_height x) :=
                              {| bbolt.block :=
                                   bbolt.block
                                     (default bbolt.new_bucket
                                        (m !! binary.PutUvarint (snapshot_height x)));
                                 bbolt.snapshot := Some bits |}]> m);
                   bbolt.latest_snapshot := l' |}).
Proof.
  unfold BoltStore.SaveSnapshot, bbolt.Update.
  destruct (Z.eqb_spec (snapshot_height x) 0) as [|Hnz]; [by left|].
  destruct (BoltStore.getHeight db) as [h|e|] eqn:Hh; [|by left..].
  destruct db as [r|]; [|by left].
  destruct (bbolt.blocks r) as [m|] eqn:Hm; [|by left].
  destruct (snapshot_bytes x) as [bits|] eqn:Hbits; [|by left].
  cbv zeta. case_bool_decide.
  - destruct (snapshot_from_bytes _) as [latest|]; [|by left].
    right. eexists r, m, h, bits, _. split_and!; [done..| |reflexivity].
    destruct (negb _); auto.
  - right. eexists r, m, h, bits, _. split_and!; [done..| |reflexivity]. auto.
Qed.

End more_bolt.

Section more_bolt_facts.
Context {Block Snapshot : Type}.
Context {BC : BlockCodec Block} {SC : SnapshotCodec Snapshot}.

(** A call of [SaveBlock] that returns nil: the database had its buckets
    and a height, the block has bytes, and the bucket of its height now
    holds them. *)
Lemma SaveBlock_db_ok b db db' :
  BoltStore.SaveBlock b db = (Ok tt, db') →
  ∃ r' m' bu bits,
    db' = Some r' ∧ bbolt.blocks r' = Some m'
    ∧ m' !! binary.PutUvarint (block_height b) = Some bu
    ∧ block_bytes b = Some bits
    ∧ bbolt.Get (bbolt.block bu) = bits.
Proof.
  intros Hsave.
  destruct (BoltStore.getHeight db) as [h|e|] eqn:Hh.
  2,3: unfold BoltStore.SaveBlock, bbolt.Update in Hsave; by rewrite Hh in Hsave.
  destruct db as [r|]; [|done].
  destruct (bbolt.blocks r) as [m|] eqn:Hm.
  2:{ unfold BoltStore.SaveBlock, bbolt.Update in Hsave.
      by rewrite Hh, Hm in Hsave. }
  destruct (block_bytes b) as [bits|] eqn:Hbits.
  2:{ unfold BoltStore.SaveBlock, bbolt.Update in Hsave.
      by rewrite Hh, Hm, Hbits in Hsave. }
  rewrite (SaveBlock_db_spec r m h b bits Hm Hh Hbits) in Hsave.
  cbv zeta in Hsave.
  destruct (bbolt.Get _) as [|c old] eqn:Hold.
  - injection Hsave as <-. eexists _, _, _, bits.
    split_and!; [reflexivity|reflexivity|apply lookup_insert_eq|done|done].
  - case_bool_decide as Heq; [|done]. injection Hsave as <-.
    destruct (m !! binary.PutUvarint (block_height b)) as [bu|] eqn:Hbu;
      [|done].
    exists r, m, bu, bits. by rewrite Heq.
Qed.

(** X1.  On the database store, [GetBlock] at the height of a block that
    [SaveBlock] has accepted decodes the bytes of that block: with a codec
    that decodes what it encodes, it returns the block. *)
Theorem GetBlock_db_after_SaveBlock b db db' :
  (∀ bits, block_bytes b = Some bits → block_from_bytes bits = Some b) →
  BoltStore.SaveBlock b db = (Ok tt, db') →
  BoltStore.GetBlock (block_height b) db' = Ok b.
Proof.
  intros Hcodec Hsave.
  destruct (SaveBlock_db_ok b db db' Hsave)
    as (r' & m' & bu & bits & -> & Hm' & Hbu & Hbits & Hget).
  unfold BoltStore.GetBlock. rewrite Hm', Hbu, Hget.
  by rewrite (Hcodec bits Hbits).
Qed.

(** X2.  [SaveBlock] of the database store, whatever it returns, touches
    the block of no other height, no snapshot of any height and not the
    latest snapshot. *)
Theorem SaveBlock_db_frame b db H :
  is_uint64 (block_height b) → is_uint64 H → H ≠ block_height b →
  stored_block (BoltStore.SaveBlock b db).2 H = stored_block db H
  ∧ (∀ H', stored_snapshot (BoltStore.SaveBlock b db).2 H'
           = stored_snapshot db H')
  ∧ latest_slot (BoltStore.SaveBlock b db).2 = latest_slot db.
Proof.
  intros Hb HH Hne.
  destruct (SaveBlock_db_cases b db)
    as [->|(r & m & h & bits & -> & Hm & _ & _ & ->)]; [done|].
  cbn [snd]. unfold stored_block, stored_snapshot, latest_slot. simpl.
  rewrite Hm. split_and!; [|intros H'|done].
  - rewrite lookup_insert_ne; [done|].
    intros Heq. apply PutUvarint_inj in Heq; done.
  - destruct (decide (binary.PutUvarint (block_height b)
                      = binary.PutUvarint H')) as [Heq|Hdiff].
    + rewrite <- Heq, lookup_insert_eq. simpl.
      by destruct (m !! _).
    + by rewrite lookup_insert_ne.
Qed.

(** X3.  [SaveSnapshot] of the database store, whatever it returns,
    touches no block and not the height, and no snapshot of another
    height. *)
Theorem SaveSnapshot_db_frame x db H :
  is_uint64 (snapshot_height x) → is_uint64 H → H ≠ snapshot_height x →
  (∀ H', stored_block (BoltStore.SaveSnapshot x db).2 H' = stored_block db H')
  ∧ BoltStore.Height (BoltStore.SaveSnapshot x db).2 = BoltStore.Height db
  ∧ stored_snapshot (BoltStore.SaveSnapshot x db).2 H = stored_snapshot db H.
Proof.
  intros Hx HH Hne.
  destruct (SaveSnapshot_db_cases x db)
    as [->|(r & m & h & bits & l' & -> & Hm & _ & _ & _ & _ & ->)]; [done|].
  cbn [snd]. unfold stored_block, stored_snapshot, BoltStore.Height. simpl.
  rewrite Hm. split_and!; [intros H'|done|].
  - destruct (decide (binary.PutUvarint (snapshot_height x)
                      = binary.PutUvarint H')) as [Heq|Hdiff].
    + rewrite <- Heq, lookup_insert_eq. simpl.
      by destruct (m !! _).
    + by rewrite lookup_insert_ne.
  - rewrite lookup_insert_ne; [done|].
    intros Heq. apply PutUvarint_inj in Heq; done.
Qed.

(** A call of [SaveSnapshot] that returns nil for a height other than 0
    has put the bytes of the snapshot in the bucket of the height. *)
Lemma SaveSnapshot_db_ok x db db' :
  snapshot_height x ≠ 0 →
  BoltStore.SaveSnapshot x db = (Ok tt, db') →
  ∃ r m bits l',
    db = Some r ∧ bbolt.blocks r = Some m
    ∧ snapshot_bytes x = Some bits
    ∧ db' = Some {| bbolt.height := bbolt.height r;
                    bbolt.blocks :=
                      Some (<[binary.PutUvarint (snapshot_height x) :=
                               {| bbolt.block :=
                                    bbolt.block
                                      (default bbolt.new_bucket
                                         (m !! binary.PutUvarint (snapshot_height x)));
                                  bbolt.snapshot := Some bits |}]> m);
                    bbolt.latest_snapshot := l' |}.
Proof.
  intros Hnz. unfold BoltStore.SaveSnapshot, bbolt.Update.
  destruct (Z.eqb_spec (snapshot_height x) 0) as [|_]; [done|].
  destruct (BoltStore.getHeight db) as [h|e|] eqn:Hh; [|done..].
  destruct db as [r|]; [|done].
  destruct (bbolt.blocks r) as [m|] eqn:Hm; [|done].
  destruct (snapshot_bytes x) as [bits|] eqn:Hbits; [|done].
  cbv zeta. case_bool_decide.
  - destruct (snapshot_from_bytes _) as [latest|]; [|done].
    intros [= <-]. by eexists r, m, bits, _.
  - intros [= <-]. by eexists r, m, bits, _.
Qed.

(** X4.  [SaveSnapshot] of the database store keeps the snapshot of every
    height other than 0 it accepts in the bucket of that height, also when
    a greater height keeps the slot of the latest snapshot, and leaves the
    block of that height as it is.  The bucket is created when it is
    missing, so that [GetBlock] at that height finds a bucket afterwards:
    it decodes the block stored there, or the empty slice when none
    is. *)
Theorem SaveSnapshot_db_bucket x db db' :
  snapshot_height x ≠ 0 →
  BoltStore.SaveSnapshot x db = (Ok tt, db') →
  stored_snapshot db' (snapshot_height x) = snapshot_bytes x
  ∧ stored_block db' (snapshot_height x) = stored_block db (snapshot_height x)
  ∧ BoltStore.GetBlock (Block := Block) (snapshot_height x) db'
    = match block_from_bytes
              (bbolt.Get (stored_block db (snapshot_height x))) with
      | Some b => Ok b
      | None => Err ErrCodec
      end.
Proof.
  intros Hnz Hsave.
  destruct (SaveSnapshot_db_ok x db db' Hnz Hsave)
    as (r & m & bits & l' & -> & Hm & Hbits & ->).
  unfold stored_snapshot, stored_block, BoltStore.GetBlock. simpl.
  rewrite lookup_insert_eq, Hm. simpl.
  by destruct (m !! _) as [bu|].
Qed.

End more_bolt_facts.

Section bolt_sequences.
Context {Block Snapshot : Type}.
Context {BC : BlockCodec Block} {SC : SnapshotCodec Snapshot}.

Lemma SaveBlock_db_no_panic b db :
  db_ready db → (BoltStore.SaveBlock b db).1 ≠ Panic.
Proof.
  intros (r & m & h & -> & Hm & Hh).
  destruct (block_bytes b) as [bits|] eqn:Hbits.
  2:{ unfold BoltStore.SaveBlock, bbolt.Update. by rewrite Hh, Hm, Hbits. }
  rewrite (SaveBlock_db_spec r m h b bits Hm Hh Hbits). cbv zeta.
  destruct (bbolt.Get _); [done|]. by case_bool_decide.
Qed.

Lemma SaveSnapshot_db_blocks x db :
  (∀ H, stored_block (BoltStore.SaveSnapshot x db).2 H = stored_block db H)
  ∧ BoltStore.Height (BoltStore.SaveSnapshot x db).2 = BoltStore.Height db.
Proof.
  destruct (SaveSnapshot_db_cases x db)
    as [->|(r & m & h & bits & l' & -> & Hm & _ & _ & _ & _ & ->)]; [done|].
  cbn [snd]. unfold stored_block, BoltStore.Height. simpl.
  rewrite Hm. split; [intros H|done].
  destruct (decide (binary.PutUvarint (snapshot_height x)
                    = binary.PutUvarint H)) as [Heq|Hdiff].
  - rewrite <- Heq, lookup_insert_eq. simpl. by destruct (m !! _).
  - by rewrite lookup_insert_ne.
Qed.

Lemma SaveSnapshot_db_keeps x db :
  db_ready db → heights_bounded db →
  (BoltStore.SaveSnapshot x db).1 ≠ Panic
  ∧ db_ready (BoltStore.SaveSnapshot x db).2
  ∧ heights_bounded (BoltStore.SaveSnapshot x db).2.
Proof.
  intros Hready Hbound.
  destruct (SaveSnapshot_db_blocks x db) as [Hblocks Hheight].
  split_and!.
  - destruct Hready as (r & m & h & -> & Hm & Hh).
    unfold BoltStore.SaveSnapshot, bbolt.Update.
    destruct (_ =? 0); [done|]. rewrite Hh, Hm.
    destruct (snapshot_bytes x); [|done]. cbv zeta.
    case_bool_decide; [|done]. by destruct (snapshot_from_bytes _).
  - destruct (SaveSnapshot_db_cases x db)
      as [->|(r & m & h & bits & l' & -> & Hm & Hh & _ & _ & _ & ->)]; [done|].
    cbn [snd]. eexists _, _, h. split_and!; [done..|].
    by rewrite getHeight_frame.
  - intros H bits h HH Hst Hne Hh. rewrite Hblocks in Hst.
    rewrite Hheight in Hh. by apply (Hbound H bits h).
Qed.

(** X5.  From the database [newBlockStore] leaves, no sequence of
    [SaveBlock] and [SaveSnapshot] calls panics, and after any of them
    [Height()] returns a height, every stored block lies at a height up to
    it, and [LatestSnapshot()] does not panic. *)
Theorem db_calls_never_panic (calls : list (store_call Block Snapshot)) db :
  db_ready db → heights_bounded db →
  (∀ c, c ∈ calls → call_uint64 c) →
  (∀ r, r ∈ (run_all db_call calls db).1 → r ≠ Panic)
  ∧ db_ready (run_all db_call calls db).2
  ∧ heights_bounded (run_all db_call calls db).2
  ∧ (∃ h, BoltStore.Height (run_all db_call calls db).2 = Ok h)
  ∧ BoltStore.LatestSnapshot (Snapshot := Snapshot)
      (run_all db_call calls db).2 ≠ Panic.
Proof.
  intros Hready Hbound Hcalls.
  assert (Hmain : (∀ r, r ∈ (run_all db_call calls db).1 → r ≠ Panic)
                  ∧ db_ready (run_all db_call calls db).2
                  ∧ heights_bounded (run_all db_call calls db).2).
  { revert db Hready Hbound.
    induction calls as [|c calls IH]; intros db Hready Hbound; simpl.
    { split_and!; [|done..]. intros r Hr. by apply elem_of_nil in Hr. }
    assert (Hstep : (db_call c db).1 ≠ Panic
                    ∧ db_ready (db_call c db).2
                    ∧ heights_bounded (db_call c db).2).
    { destruct c as [b|x]; simpl.
      - assert (is_uint64 (block_height b)) as Hb
          by (apply (Hcalls (CallSaveBlock b)); by left).
        split_and!; [by apply SaveBlock_db_no_panic
                    |by apply SaveBlock_db_ready
                    |by apply SaveBlock_db_bounded].
      - by apply SaveSnapshot_db_keeps. }
    destruct (db_call c db) as [r db1]. simpl in Hstep.
    destruct Hstep as (Hr & Hready1 & Hbound1).
    destruct (IH ltac:(intros c' Hc'; apply Hcalls; by right) db1 Hready1 Hbound1)
      as (Hrs & Hready2 & Hbound2).
    destruct (run_all db_call calls db1) as [rs db2]. simpl in *.
    split_and!; [|done..].
    intros r' Hr'. apply elem_of_cons in Hr' as [->|Hr']; [done|by apply Hrs]. }
  destruct Hmain as (Hrs & Hready' & Hbound'). split_and!; [done..| |].
  - destruct Hready' as (r & m & h & _ & _ & Hh). by exists h.
  - destruct Hready' as (r & m & h & -> & _).
    unfold BoltStore.LatestSnapshot. case_bool_decide; [|done].
    by destruct (snapshot_from_bytes _).
Qed.

(** A database that is ready has a height key that is not empty. *)
Lemma db_ready_height db :
  db_ready db →
  ∃ r, db = Some r ∧ length (bbolt.Get (bbolt.height r)) ≠ 0%nat.
Proof.
  intros (r & m & h & -> & _ & Hh). exists r. split; [done|].
  unfold BoltStore.getHeight in Hh.
  destruct (bbolt.Get (bbolt.height r)); [done|]. simpl. lia.
Qed.

(** X6.  Opening a database that [newBlockStore] has set up before is a
    no-op that succeeds: no new genesis block is made, whatever
    [NewInitialBlock] would return this time, and nothing stored
    changes. *)
Theorem newBlockStore_db_reopen (initialBlock : result Block) db :
  db_ready db →
  BoltStore.newBlockStore initialBlock db = (Ok tt, db).
Proof.
  intros Hready. destruct (db_ready_height db Hready) as (r & -> & Hlen).
  unfold BoltStore.newBlockStore, bbolt.Update. simpl.
  by rewrite bool_decide_eq_false_2.
Qed.

(** X7.  On an empty database [newBlockStore] stores the bytes of the
    genesis block under the height 1, whatever height the block itself
    carries, and sets the height to 1: afterwards [Height()] returns 1,
    [GetBlock(1)] decodes those bytes and [LatestSnapshot()] returns the
    empty snapshot. *)
Theorem newBlockStore_db_genesis (ib : Block) (bbytes : bytes) :
  block_bytes ib = Some bbytes →
  ∃ db, BoltStore.newBlockStore (Ok ib) None = (Ok tt, db)
        ∧ BoltStore.Height db = Ok 1
        ∧ stored_block db 1 = Some bbytes
        ∧ BoltStore.GetBlock (Block := Block) 1 db
          = match block_from_bytes bbytes with
            | Some b => Ok b
            | None => Err ErrCodec
            end
        ∧ BoltStore.LatestSnapshot (Snapshot := Snapshot) db
          = Ok snapshot_empty.
Proof.
  intros Hbits.
  destruct (newBlockStore_db_fresh ib bbytes Hbits)
    as (db & Hnew & Hready & _ & Hslot & Hh & Hst).
  exists db. split_and!; [done..| |].
  - destruct Hready as (r & m & h & -> & Hm & _).
    unfold stored_block in Hst. rewrite Hm in Hst.
    unfold BoltStore.GetBlock. rewrite Hm.
    destruct (m !! binary.PutUvarint 1) as [bu|]; [|done].
    by rewrite Hst.
  - rewrite (LatestSnapshot_db_slot db Hready). by rewrite Hslot.
Qed.

End bolt_sequences.

(** ** Decimal names read back *)

Lemma dec_val_ge d acc : 0 ≤ acc → acc ≤ dec_val d acc.
Proof.
  revert acc. induction d as [|d IH|d IH|d IH|d IH|d IH|d IH|d IH|d IH|d IH|d IH];
    intros acc Hacc; simpl; [lia|..];
    (etrans; [|apply IH]; lia).
Qed.

Lemma dec_val_of_uint_acc d acc :
  Z.pos (Pos.of_uint_acc d acc) = dec_val d (Z.pos acc).
Proof.
  revert acc. induction d as [|d IH|d IH|d IH|d IH|d IH|d IH|d IH|d IH|d IH|d IH];
    intros acc; simpl; [done|..]; rewrite IH; f_equal; lia.
Qed.

Lemma dec_val_of_uint d : dec_val d 0 = Z.of_N (Pos.of_uint d).
Proof.
  induction d as [|d IH|d IH|d IH|d IH|d IH|d IH|d IH|d IH|d IH|d IH];
    simpl; [done|done|..]; by rewrite dec_val_of_uint_acc.
Qed.

(** One digit read by the loop of [ParseUint] without overflow. *)
Lemma ParseUint_loop_digit c k s n :
  strconv.digit_of c = Some k → 0 ≤ k ≤ 9 → 0 ≤ n → n * 10 + k < 2 ^ 64 →
  strconv.ParseUint_loop (String c s) n = strconv.ParseUint_loop s (n * 10 + k).
Proof.
  intros Hc Hk Hn Hlt. cbn [strconv.ParseUint_loop]. rewrite Hc. cbv zeta.
  rewrite wrap64_small by lia.
  destruct (Z.leb_spec (maxUint64 / 10 + 1) n) as [Hcut|_].
  { change (maxUint64 / 10 + 1) with 1844674407370955162 in Hcut.
    change (2 ^ 64) with 18446744073709551616 in Hlt. lia. }
  by destruct (Z.ltb_spec (n * 10 + k) (n * 10)); [lia|].
Qed.

(** The loop of [ParseUint] on a decimal numeral whose value fits in 64
    bits. *)
Lemma ParseUint_loop_numeral d n :
  0 ≤ n → dec_val d n < 2 ^ 64 →
  strconv.ParseUint_loop (NilEmpty.string_of_uint d) n = Some (dec_val d n).
Proof.
  revert n. induction d as [|d IH|d IH|d IH|d IH|d IH|d IH|d IH|d IH|d IH|d IH];
    intros n Hn Hlt; [done|..];
    simpl in Hlt; cbn [NilEmpty.string_of_uint];
    match goal with
    | H : dec_val ?d' (?m * 10 + ?k) < _ |- _ =>
        pose proof (dec_val_ge d' (m * 10 + k) ltac:(lia));
        rewrite (ParseUint_loop_digit _ k) by (done || lia);
        apply IH; [lia|done]
    end.
Qed.

(** [strconv.ParseUint] reads back what [%d] prints of a [uint64]. *)
Lemma ParseUint_fmt_d z : is_uint64 z → strconv.ParseUint (fmt.d z) = Some z.
Proof.
  intros [Hz0 Hz]. destruct z as [|p|p]; [done| |lia].
  unfold fmt.d. simpl.
  pose proof (DecimalPos.Unsigned.to_uint_nonnil p) as Hnil.
  assert (Hval : dec_val (Pos.to_uint p) 0 = Z.pos p).
  { by rewrite dec_val_of_uint, DecimalPos.Unsigned.of_to. }
  assert (Hs : NilZero.string_of_uint (Pos.to_uint p)
               = NilEmpty.string_of_uint (Pos.to_uint p)).
  { by destruct (Pos.to_uint p). }
  rewrite Hs. unfold strconv.ParseUint.
  rewrite ParseUint_loop_numeral by (rewrite ?Hval; lia). rewrite Hval.
  destruct (Pos.to_uint p); done.
Qed.

(** [strconv.Atoi] reads back what [%d] prints of an [int] that is not
    negative. *)
Lemma Atoi_fmt_d z : 0 ≤ z < 2 ^ 63 → strconv.Atoi (fmt.d z) = Some z.
Proof.
  intros [Hz0 Hz].
  assert (Hu : is_uint64 z).
  { split; [done|]. change (2 ^ 64) with (2 * 2 ^ 63). lia. }
  pose proof (ParseUint_fmt_d z Hu) as Hp.
  destruct (fmt_d_nonneg z Hz0) as (c & s & Heq & Hc & _).
  rewrite Heq in *. unfold strconv.Atoi.
  assert (Ascii.eqb c "-" = false ∧ Ascii.eqb c "+" = false) as [-> ->].
  { split; [destruct (Ascii.eqb_spec c "-")|destruct (Ascii.eqb_spec c "+")];
      subst; done. }
  cbn [orb]. rewrite Hp. by destruct (Z.ltb_spec z (2 ^ 63)); [|lia].
Qed.

(** ** More on the filesystem store *)

Lemma MkdirAll_files d fs : os.files (os.MkdirAll d fs).2 = os.files fs.
Proof.
  unfold os.MkdirAll. destruct (os.is_dir fs d); [done|].
  by destruct (existsb _ _).
Qed.

Lemma prefixes_take p q :
  q ∈ path.prefixes p →
  path.rooted q = path.rooted p
  ∧ ∃ n, path.comps q = take n (path.comps p).
Proof.
  unfold path.prefixes. intros Hq.
  apply list_elem_of_fmap in Hq as (n & -> & _). simpl. eauto.
Qed.

Lemma block_path_inj root h1 h2 :
  is_uint64 h1 → is_uint64 h2 →
  block_path root h1 = block_path root h2 → h1 = h2.
Proof.
  intros H1 H2. rewrite !block_path_parts by done. intros [= Heq].
  apply app_inj_tail in Heq as [_ Heq]. by apply fmt_d_inj.
Qed.

Lemma shard_name_not_snapshot h : shard_name h ≠ "snapshot"%string.
Proof.
  unfold shard_name, fmt.d_d.
  destruct (fmt_d_nonneg (wrap64 (h / 1000 * 1000))) as (c & s & -> & Hc & _);
    [apply wrap64_range|].
  rewrite str_app_cons. intros [= -> _]. done.
Qed.

Lemma snapshot_path_not_block s h :
  is_uint64 h → snapshot_path s ≠ block_path (FsStore.dir s) h.
Proof.
  intros Hh. rewrite snapshot_path_parts, block_path_parts by done.
  intros [= Heq]. apply (f_equal length) in Heq.
  rewrite !length_app in Heq. simpl in Heq. lia.
Qed.

(** The snapshot file is not the directory of a shard nor a directory
    above it. *)
Lemma snapshot_path_not_prefix s h q :
  is_uint64 h →
  q ∈ path.prefixes (FsStore.blockFilename (FsStore.dir s) h).1 →
  q ≠ snapshot_path s.
Proof.
  intros Hh Hq ->. apply prefixes_take in Hq as [_ [n Hn]].
  rewrite blockFilename_parts, snapshot_path_parts in Hn by done.
  simpl in Hn.
  assert (Hlen : length (path.comps (root_path (FsStore.dir s)) ++ ["snapshot"%string])
                 = length (take n (path.comps (root_path (FsStore.dir s))
                                   ++ [shard_name h]))) by by rewrite Hn.
  rewrite length_take, !length_app in Hlen. simpl in Hlen.
  rewrite take_ge in Hn by (rewrite length_app; simpl; lia).
  apply app_inj_tail in Hn as [_ Hn]. by apply (shard_name_not_snapshot h).
Qed.

Lemma MkdirAll_dirs d fs q :
  q ∉ path.prefixes d → q ∈ os.dirs (os.MkdirAll d fs).2 ↔ q ∈ os.dirs fs.
Proof.
  intros Hq. unfold os.MkdirAll. destruct (os.is_dir fs d); [done|].
  destruct (existsb _ _); [done|]. simpl.
  rewrite elem_of_union, elem_of_list_to_set.
  split; [by intros [?|?]|by left].
Qed.

(** [ioutil.ReadFile] at [q] looks at the file [q], at whether [q] is a
    directory, and at whether a directory above it is a regular file. *)
Lemma ReadFile_ext fs fs' q :
  os.files fs' !! q = os.files fs !! q →
  os.is_dir fs' q = os.is_dir fs q →
  os.under_file fs' q = os.under_file fs q →
  os.ReadFile q fs' = os.ReadFile q fs.
Proof. intros Hf Hd Hu. unfold os.ReadFile. by rewrite Hf, Hd, Hu. Qed.

Section more_fs.
Context {Block Snapshot : Type}.
Context {BC : BlockCodec Block} {SC : SnapshotCodec Snapshot}.

(** A call of [SaveBlock] that returns nil: the block has bytes and the
    file of its height holds them. *)
Lemma SaveBlock_fs_ok s b fs st' :
  FsStore.SaveBlock s b fs = (Ok tt, st') →
  st'.1 = s
  ∧ ∃ bits, block_bytes b = Some bits
            ∧ os.files st'.2 !! block_path (FsStore.dir s) (block_height b)
              = Some bits.
Proof.
  intros Hsave. split.
  { pose proof (SaveBlock_store s b fs) as Hs. by rewrite Hsave in Hs. }
  destruct (block_bytes b) as [bits|] eqn:Hbits.
  2:{ unfold FsStore.SaveBlock in Hsave. by rewrite Hbits in Hsave. }
  exists bits. split; [done|].
  rewrite (SaveBlock_unfold _ _ _ _ Hbits) in Hsave. cbv zeta in Hsave.
  destruct (os.MkdirAll _ fs) as [[[]|e|] fs1]; [|done..].
  unfold os.OpenFile_excl in Hsave.
  destruct (_ || _).
  { simpl in Hsave. unfold os.ReadFile in Hsave.
    destruct (os.files fs1 !! _) as [got|] eqn:Hgot.
    - case_bool_decide; [|done]. injection Hsave as <-. by subst got.
    - by repeat case_match. }
  destruct (os.under_file _ _); [done|].
  destruct (negb _); [done|].
  unfold os.Write in Hsave. simpl in Hsave.
  rewrite lookup_insert_eq in Hsave. injection Hsave as <-. simpl.
  by rewrite lookup_insert_eq, drop_nil, app_nil_r.
Qed.

(** X8.  On the filesystem store, [GetBlock] at the height of a block that
    [SaveBlock] has accepted decodes the bytes of that block: with a codec
    that decodes what it encodes, it returns the block. *)
Theorem GetBlock_fs_after_SaveBlock s b fs st' :
  (∀ bits, block_bytes b = Some bits → block_from_bytes bits = Some b) →
  FsStore.SaveBlock s b fs = (Ok tt, st') →
  FsStore.GetBlock st'.1 (block_height b) st'.2 = Ok b.
Proof.
  intros Hcodec Hsave.
  destruct (SaveBlock_fs_ok s b fs st' Hsave) as (-> & bits & Hbits & Hfile).
  unfold FsStore.GetBlock. unfold block_path in Hfile.
  destruct (FsStore.blockFilename _ _) as [d f].
  unfold os.ReadFile. rewrite Hfile. by rewrite (Hcodec bits Hbits).
Qed.

(** [SaveBlock], whatever it returns, writes to no file but the file of
    the height of the block. *)
Lemma SaveBlock_fs_files s b fs q :
  q ≠ block_path (FsStore.dir s) (block_height b) →
  os.files (FsStore.SaveBlock s b fs).2.2 !! q = os.files fs !! q.
Proof.
  intros Hq.
  destruct (block_bytes b) as [bits|] eqn:Hbits.
  2:{ unfold FsStore.SaveBlock. by rewrite Hbits. }
  rewrite (SaveBlock_unfold _ _ _ _ Hbits). cbv zeta.
  pose proof (MkdirAll_files
                (FsStore.blockFilename (FsStore.dir s) (block_height b)).1 fs)
    as Hmk.
  destruct (os.MkdirAll _ fs) as [[[]|e|] fs1]; simpl in Hmk;
    [|by rewrite <- Hmk..].
  rewrite <- Hmk. unfold os.OpenFile_excl.
  destruct (_ || _).
  { simpl. unfold os.ReadFile. by repeat case_match. }
  destruct (os.under_file _ _); [done|].
  destruct (negb _); [done|].
  unfold os.Write. simpl. rewrite lookup_insert_eq. simpl.
  by rewrite !lookup_insert_ne.
Qed.

Lemma GetBlock_fs_read s h fs :
  FsStore.GetBlock (Block := Block) s h fs
  = match os.ReadFile (block_path (FsStore.dir s) h) fs with
    | Ok bits =>
        match block_from_bytes bits with
        | Some b => Ok b
        | None => Err (Wrap ("parsing block " +:+ fmt.d h) ErrCodec)
        end
    | Err e => Err (Wrap ("reading block " +:+ fmt.d h) e)
    | Panic => Panic
    end.
Proof.
  unfold FsStore.GetBlock, block_path.
  by destruct (FsStore.blockFilename _ _).
Qed.

(** [SaveBlock], whatever it returns, makes no directory but the
    directory of the shard and the directories above it. *)
Lemma SaveBlock_fs_dirs s b fs q :
  q ∉ path.prefixes (FsStore.blockFilename (FsStore.dir s) (block_height b)).1 →
  q ∈ os.dirs (FsStore.SaveBlock s b fs).2.2 ↔ q ∈ os.dirs fs.
Proof.
  intros Hq.
  destruct (block_bytes b) as [bits|] eqn:Hbits.
  2:{ unfold FsStore.SaveBlock. by rewrite Hbits. }
  rewrite (SaveBlock_unfold _ _ _ _ Hbits). cbv zeta.
  pose proof (MkdirAll_dirs
                (FsStore.blockFilename (FsStore.dir s) (block_height b)).1
                fs q Hq) as Hmk.
  destruct (os.MkdirAll _ fs) as [[[]|e|] fs1]; simpl in Hmk; [|done..].
  rewrite <- Hmk. unfold os.OpenFile_excl.
  destruct (_ || _).
  { simpl. unfold os.ReadFile. by repeat case_match. }
  destruct (os.under_file _ _); [done|].
  destruct (negb _); [done|].
  unfold os.Write. simpl. by rewrite lookup_insert_eq.
Qed.

(** What [ioutil.ReadFile] returns at [q] after [SaveBlock], for a path
    [q] that is neither the file of the block nor a directory that file
    lies in, and that does not lie in that file. *)
Lemma SaveBlock_fs_ReadFile s b fs q :
  q ≠ block_path (FsStore.dir s) (block_height b) →
  q ∉ path.prefixes (FsStore.blockFilename (FsStore.dir s) (block_height b)).1 →
  block_path (FsStore.dir s) (block_height b) ∉ path.prefixes (path.parent q) →
  os.ReadFile q (FsStore.SaveBlock s b fs).2.2 = os.ReadFile q fs.
Proof.
  intros Hne Hpre Hunder. apply ReadFile_ext.
  - by apply SaveBlock_fs_files.
  - unfold os.is_dir. apply bool_decide_ext.
    by rewrite SaveBlock_fs_dirs.
  - unfold os.under_file. apply existsb_eq_in. intros p Hp.
    unfold os.is_file. apply bool_decide_ext.
    rewrite SaveBlock_fs_files; [done|]. by intros ->.
Qed.

(** X9.  [SaveBlock] of the filesystem store, whatever it returns, changes
    neither what [GetBlock] returns at another height nor what
    [LatestSnapshot] returns. *)
Theorem SaveBlock_fs_frame s b fs H :
  is_uint64 (block_height b) → is_uint64 H → H ≠ block_height b →
  FsStore.GetBlock (Block := Block) (FsStore.SaveBlock s b fs).2.1 H
    (FsStore.SaveBlock s b fs).2.2
  = FsStore.GetBlock s H fs
  ∧ FsStore.LatestSnapshot (Snapshot := Snapshot)
      (FsStore.SaveBlock s b fs).2.1 (FsStore.SaveBlock s b fs).2.2
    = FsStore.LatestSnapshot s fs.
Proof.
  intros Hb HH Hne. rewrite SaveBlock_store.
  assert (Hlen : ∀ h, is_uint64 h →
            length (path.comps (block_path (FsStore.dir s) h))
            = S (S (length (path.comps (root_path (FsStore.dir s)))))).
  { intros h Hh. rewrite block_path_parts by done. simpl.
    rewrite !length_app. simpl. lia. }
  assert (Hdlen : ∀ h q, is_uint64 h →
            q ∈ path.prefixes (FsStore.blockFilename (FsStore.dir s) h).1 →
            (length (path.comps q)
             ≤ S (length (path.comps (root_path (FsStore.dir s)))))%nat).
  { intros h q Hh Hq. apply prefixes_spec in Hq as [_ Hq].
    rewrite blockFilename_parts in Hq by done. simpl in Hq.
    rewrite length_app in Hq. simpl in Hq. lia. }
  split.
  - rewrite !GetBlock_fs_read. rewrite SaveBlock_fs_ReadFile; [done|..].
    + intros Heq. by apply block_path_inj in Heq.
    + intros Hq. apply (Hdlen _ _ Hb) in Hq. rewrite Hlen in Hq by done. lia.
    + rewrite block_dir_parent by done. intros Hq.
      apply (Hdlen _ _ HH) in Hq. rewrite Hlen in Hq by done. lia.
  - unfold FsStore.LatestSnapshot. fold (snapshot_path s).
    rewrite SaveBlock_fs_ReadFile; [done|..].
    + by apply snapshot_path_not_block.
    + intros Hq. by apply (snapshot_path_not_prefix s _ _ Hb Hq).
    + intros Hq. apply prefixes_spec in Hq as [_ Hq].
      rewrite Hlen in Hq by done. rewrite snapshot_path_parts in Hq.
      unfold path.parent in Hq. simpl in Hq.
      rewrite removelast_last in Hq. lia.
Qed.

(** [SaveSnapshot] leaves the disk as it is or writes the snapshot
    file. *)
Lemma SaveSnapshot_fs_cases s x fs :
  (FsStore.SaveSnapshot s x fs).2 = (s, fs)
  ∨ ∃ bits, (FsStore.SaveSnapshot s x fs).2
            = (s, {| os.files := <[snapshot_path s := bits]> (os.files fs);
                     os.dirs := os.dirs fs |}).
Proof.
  unfold FsStore.SaveSnapshot. destruct (snapshot_bytes x) as [bits|]; [|by left].
  fold (snapshot_path s). unfold os.WriteFile.
  destruct (os.is_dir _ _); [by left|].
  destruct (os.under_file _ _); [by left|].
  destruct (negb _); [by left|]. right. by exists bits.
Qed.

(** X10.  [SaveSnapshot] of the filesystem store, whatever it returns,
    changes what [GetBlock] returns at no height. *)
Theorem SaveSnapshot_fs_frame s x fs H :
  is_uint64 H →
  FsStore.GetBlock (Block := Block) (FsStore.SaveSnapshot s x fs).2.1 H
    (FsStore.SaveSnapshot s x fs).2.2
  = FsStore.GetBlock s H fs.
Proof.
  intros HH.
  destruct (SaveSnapshot_fs_cases s x fs) as [->|[bits ->]]; [done|].
  cbn [fst snd]. unfold FsStore.GetBlock.
  pose proof (block_dir_parent (FsStore.dir s) H HH) as Hpar.
  unfold block_path in Hpar.
  pose proof (snapshot_path_not_block s H HH) as Hsnap.
  unfold block_path in Hsnap.
  pose proof (snapshot_path_not_prefix s H) as Hpre.
  destruct (FsStore.blockFilename (FsStore.dir s) H) as [d f]. simpl in *.
  unfold os.ReadFile. simpl. rewrite lookup_insert_ne by done.
  assert (Hu : os.under_file
                 {| os.files := <[snapshot_path s := bits]> (os.files fs);
                    os.dirs := os.dirs fs |} (path.Join d f)
               = os.under_file fs (path.Join d f)).
  { unfold os.under_file. rewrite Hpar. apply existsb_eq_in.
    intros q Hq. unfold os.is_file. simpl.
    rewrite lookup_insert_ne; [done|]. intros Heq. by apply (Hpre q). }
  by rewrite Hu.
Qed.

End more_fs.

(** ** Opening the filesystem store *)

Lemma MkdirAll_ok d fs fs1 :
  os.MkdirAll d fs = (Ok tt, fs1) →
  os.is_dir fs1 d = true
  ∧ os.files fs1 = os.files fs
  ∧ ∀ q, q ∈ os.dirs fs → q ∈ os.dirs fs1.
Proof.
  unfold os.MkdirAll. destruct (os.is_dir fs d) eqn:Hd.
  { by intros [= <-]. }
  destruct (existsb _ _); [done|]. intros [= <-]. simpl. split_and!; [|done|].
  - unfold os.is_dir. apply bool_decide_eq_true. simpl.
    destruct (decide (path.comps d = [])) as [?|Hne]; [by left|right].
    apply elem_of_union_r, elem_of_list_to_set. by apply self_prefix.
  - intros q Hq. by apply elem_of_union_l.
Qed.

Lemma ParseUint_loop_range s n m :
  is_uint64 n → strconv.ParseUint_loop s n = Some m → is_uint64 m.
Proof.
  revert n. induction s as [|c s IH]; intros n Hn; simpl.
  { by intros [= <-]. }
  destruct (strconv.digit_of c) as [d|]; [|done].
  destruct (_ <=? n); [done|].
  destruct (_ <? _); [done|]. apply IH. apply wrap64_range.
Qed.

Lemma ParseUint_range s m : strconv.ParseUint s = Some m → is_uint64 m.
Proof.
  destruct s as [|c s]; [done|]. unfold strconv.ParseUint.
  apply ParseUint_loop_range. unfold is_uint64. lia.
Qed.

Lemma fold_highestDir infos a :
  greatest_from a
    (λ n, ∃ name, (name, true) ∈ infos ∧ strconv.Atoi name = Some n)
    (fold_left FsStore.highestDir_step infos a).
Proof.
  revert a. induction infos as [|[name d] infos IH]; intros a; simpl.
  { split_and!; [by left|lia|]. intros n (? & Hin & _). by inversion Hin. }
  destruct (IH (FsStore.highestDir_step a (name, d))) as (Hr & Hle & Hmax).
  unfold FsStore.highestDir_step in *. simpl in *.
  destruct d; simpl in *.
  2:{ split_and!; [|done|].
      - destruct Hr as [?|(nm & ? & ?)]; [by left|right].
        exists nm. split; [by right|done].
      - intros n (nm & Hin & Hn). apply Hmax. exists nm. split; [|done].
        by apply elem_of_cons in Hin as [[=]|?]. }
  destruct (strconv.Atoi name) as [k|] eqn:Hk.
  2:{ split_and!; [|done|].
      - destruct Hr as [?|(nm & ? & ?)]; [by left|right].
        exists nm. split; [by right|done].
      - intros n (nm & Hin & Hn).
        apply elem_of_cons in Hin as [[= ->]|Hin]; [congruence|].
        apply Hmax. by exists nm. }
  destruct (Z.ltb_spec a k).
  - split_and!; [|lia|].
    + right. destruct Hr as [->|(nm & ? & ?)].
      * exists name. split; [by left|done].
      * exists nm. split; [by right|done].
    + intros n (nm & Hin & Hn).
      apply elem_of_cons in Hin as [[= ->]|Hin].
      * assert (n = k) as -> by congruence. done.
      * apply Hmax. by exists nm.
  - split_and!; [|done|].
    + destruct Hr as [?|(nm & ? & ?)]; [by left|right].
      exists nm. split; [by right|done].
    + intros n (nm & Hin & Hn).
      apply elem_of_cons in Hin as [[= ->]|Hin].
      * assert (n = k) as -> by congruence. lia.
      * apply Hmax. by exists nm.
Qed.

Lemma fold_height infos a :
  greatest_from a
    (λ n, ∃ name, (name, false) ∈ infos ∧ strconv.ParseUint name = Some n)
    (fold_left FsStore.height_step infos a).
Proof.
  revert a. induction infos as [|[name d] infos IH]; intros a; simpl.
  { split_and!; [by left|lia|]. intros n (? & Hin & _). by inversion Hin. }
  destruct (IH (FsStore.height_step a (name, d))) as (Hr & Hle & Hmax).
  unfold FsStore.height_step in *. simpl in *.
  destruct d; simpl in *.
  { split_and!; [|done|].
    - destruct Hr as [?|(nm & ? & ?)]; [by left|right].
      exists nm. split; [by right|done].
    - intros n (nm & Hin & Hn). apply Hmax. exists nm. split; [|done].
      by apply elem_of_cons in Hin as [[=]|?]. }
  destruct (strconv.ParseUint name) as [k|] eqn:Hk.
  2:{ split_and!; [|done|].
      - destruct Hr as [?|(nm & ? & ?)]; [by left|right].
        exists nm. split; [by right|done].
      - intros n (nm & Hin & Hn).
        apply elem_of_cons in Hin as [[= ->]|Hin]; [congruence|].
        apply Hmax. by exists nm. }
  destruct (Z.ltb_spec a k).
  - split_and!; [|lia|].
    + right. destruct Hr as [->|(nm & ? & ?)].
      * exists name. split; [by left|done].
      * exists nm. split; [by right|done].
    + intros n (nm & Hin & Hn).
      apply elem_of_cons in Hin as [[= ->]|Hin].
      * assert (n = k) as -> by congruence. done.
      * apply Hmax. by exists nm.
  - split_and!; [|done|].
    + destruct Hr as [?|(nm & ? & ?)]; [by left|right].
      exists nm. split; [by right|done].
    + intros n (nm & Hin & Hn).
      apply elem_of_cons in Hin as [[= ->]|Hin].
      * assert (n = k) as -> by congruence. lia.
      * apply Hmax. by exists nm.
Qed.

(** What [MkdirAll] of a name does to the disk, whatever it returns:
    no file is touched and no directory removed. *)
Lemma MkdirAll_walk_frame r cur es fs :
  os.files (os.MkdirAll_walk r cur es fs).2 = os.files fs
  ∧ ∀ q, q ∈ os.dirs fs → q ∈ os.dirs (os.MkdirAll_walk r cur es fs).2.
Proof.
  revert cur fs. induction es as [|e es IH]; intros cur fs; simpl; [done|].
  destruct (os.is_dir fs _); [apply IH|].
  destruct (os.is_file fs _); [done|].
  destruct (IH (path.clean_step r cur e)
              {| os.files := os.files fs;
                 os.dirs := os.dirs fs
                            ∪ {[path.Path r (path.clean_step r cur e)]} |})
    as [Hf Hd].
  split; [done|]. intros q Hq. apply Hd. simpl. by apply elem_of_union_l.
Qed.

Lemma MkdirAll_name_frame dir fs :
  os.files (os.MkdirAll_name dir fs).2 = os.files fs
  ∧ ∀ q, q ∈ os.dirs fs → q ∈ os.dirs (os.MkdirAll_name dir fs).2.
Proof.
  unfold os.MkdirAll_name. case_bool_decide; [done|].
  apply MkdirAll_walk_frame.
Qed.

(** [MkdirAll] of a name that has succeeded succeeds again, with nothing
    to do, on the disk it left and on any disk with those directories. *)
Lemma MkdirAll_walk_again r cur es fs fs1 :
  os.MkdirAll_walk r cur es fs = (Ok tt, fs1) →
  ∀ fs', (∀ q, q ∈ os.dirs fs1 → q ∈ os.dirs fs') →
         os.MkdirAll_walk r cur es fs' = (Ok tt, fs').
Proof.
  revert cur fs. induction es as [|e es IH]; intros cur fs; simpl; [done|].
  set (next := path.Path r (path.clean_step r cur e)).
  assert (Hdir : ∀ fs0 fs', os.MkdirAll_walk r (path.clean_step r cur e) es fs0
                         = (Ok tt, fs1) →
            os.is_dir fs0 next = true →
            (∀ q, q ∈ os.dirs fs1 → q ∈ os.dirs fs') →
            os.is_dir fs' next = true).
  { intros fs0 fs' Hrun Hd Hsub. unfold os.is_dir in *.
    apply bool_decide_eq_true in Hd. apply bool_decide_eq_true.
    destruct Hd as [?|Hd]; [by left|right]. apply Hsub.
    pose proof (MkdirAll_walk_frame r (path.clean_step r cur e) es fs0)
      as [_ Hmono].
    rewrite Hrun in Hmono. by apply Hmono. }
  destruct (os.is_dir fs next) eqn:Hd.
  - intros Hrun fs' Hsub. rewrite (Hdir fs fs' Hrun Hd Hsub).
    by apply (IH _ fs).
  - destruct (os.is_file fs next); [done|].
    intros Hrun fs' Hsub.
    rewrite (Hdir _ fs' Hrun); [by apply (IH _ _ Hrun)| |done].
    unfold os.is_dir. apply bool_decide_eq_true. right. simpl.
    apply elem_of_union_r. by apply elem_of_singleton.
Qed.

(** X11.  [newBlockStore] that succeeds has read the directory it was
    given; with [N] the greatest number that is the name of a directory
    there, from -1, the height of the store is 0 when [N] is -1, and else
    the greatest number that is the name of a regular file of the
    directory named [N], from 0.  It is the value of a uint64 in both
    cases. *)
Theorem newBlockStore_fs_height dir fs s fs1 :
  FsStore.newBlockStore dir fs = (Ok s, fs1) →
  FsStore.dir s = dir
  ∧ is_uint64 (FsStore.height s)
  ∧ ∃ infos N,
      os.ReadDir_name dir fs1 = Ok infos
      ∧ greatest_from (-1)
          (λ n, ∃ name, (name, true) ∈ infos ∧ strconv.Atoi name = Some n) N
      ∧ if N <? 0 then FsStore.height s = 0
        else ∃ infos2,
          os.ReadDir (path.JoinS dir (fmt.d N)) fs1 = Ok infos2
          ∧ greatest_from 0
              (λ n, ∃ name, (name, false) ∈ infos2
                            ∧ strconv.ParseUint name = Some n)
              (FsStore.height s).
Proof.
  unfold FsStore.newBlockStore.
  destruct (os.MkdirAll_name dir fs) as [[[]|e|] fs0]; [|done..].
  destruct (os.ReadDir_name dir fs0) as [infos|e|] eqn:Hrd; [|done..].
  cbv zeta. pose proof (fold_highestDir infos (-1)) as HN.
  destruct (Z.leb_spec 0 (fold_left FsStore.highestDir_step infos (-1)))
    as [Hle|Hlt].
  - destruct (os.ReadDir (path.JoinS dir _) fs0) as [infos2|e|] eqn:Hrd2;
      [|done..].
    intros [= <- <-]. simpl. pose proof (fold_height infos2 0) as Hh.
    split_and!; [done| |].
    + destruct Hh as ([->|(nm & _ & Hp)] & _ & _); [by unfold is_uint64|].
      by apply ParseUint_range in Hp.
    + exists infos, (fold_left FsStore.highestDir_step infos (-1)).
      split_and!; [done..|].
      destruct (Z.ltb_spec (fold_left FsStore.highestDir_step infos (-1)) 0);
        [lia|]. by exists infos2.
  - intros [= <- <-]. simpl. split_and!; [done|by unfold is_uint64|].
    exists infos, (fold_left FsStore.highestDir_step infos (-1)).
    split_and!; [done..|].
    by destruct (Z.ltb_spec (fold_left FsStore.highestDir_step infos (-1)) 0);
      [|lia].
Qed.

(** X12.  [newBlockStore] of the filesystem store writes no file and
    removes no directory, and after it has succeeded, calling it again on
    the disk it left gives the same store and leaves that disk as it
    is. *)
Theorem newBlockStore_fs_reopen dir fs s fs1 :
  FsStore.newBlockStore dir fs = (Ok s, fs1) →
  FsStore.newBlockStore dir fs1 = (Ok s, fs1)
  ∧ os.files fs1 = os.files fs
  ∧ ∀ q, q ∈ os.dirs fs → q ∈ os.dirs fs1.
Proof.
  unfold FsStore.newBlockStore.
  pose proof (MkdirAll_name_frame dir fs) as [Hf Hdirs].
  destruct (os.MkdirAll_name dir fs) as [[[]|e|] fs0] eqn:Hmk; [|done..].
  simpl in Hf, Hdirs.
  assert (Hagain : os.MkdirAll_name dir fs0 = (Ok tt, fs0)).
  { unfold os.MkdirAll_name in *. case_bool_decide; [done|].
    by apply (MkdirAll_walk_again _ _ _ fs fs0). }
  destruct (os.ReadDir_name dir fs0) as [infos|e|] eqn:Hrd; [|done..]. cbv zeta.
  destruct (0 <=? _) eqn:Hle.
  - destruct (os.ReadDir (path.JoinS dir _) fs0) as [infos2|e|] eqn:Hrd2;
      [|done..].
    intros [= <- <-]. rewrite Hagain, Hrd. cbv zeta.
    by rewrite Hle, Hrd2.
  - intros [= <- <-]. rewrite Hagain, Hrd. cbv zeta.
    by rewrite Hle.
Qed.

(** ** Starting on an empty directory *)

Lemma below_length root q :
  below root q → (length (path.comps root) < length (path.comps q))%nat.
Proof.
  intros (_ & n & Hn & Htake). rewrite <- Htake, length_take. lia.
Qed.

Lemma prefix_not_below root q : q ∈ path.prefixes root → ¬ below root q.
Proof.
  intros Hq Hb. apply prefixes_spec in Hq as [_ Hq].
  apply below_length in Hb. lia.
Qed.

Lemma below_child root q :
  path.parent q = root → path.comps q ≠ [] → below root q.
Proof.
  intros <- Hne. unfold below, path.parent. simpl. split; [done|].
  exists (pred (length (path.comps q))). split.
  - destruct (path.comps q); [done|simpl; lia].
  - destruct (path.comps q) as [|c cs] using rev_ind; [done|].
    rewrite removelast_last, length_app. simpl.
    replace (pred (length cs + 1)) with (length cs) by lia.
    by rewrite take_app_length.
Qed.

Lemma below_app root (l : list string) :
  l ≠ [] →
  below root (path.Path (path.rooted root) (path.comps root ++ l)).
Proof.
  intros Hl. split; [done|]. exists (length (path.comps root)). simpl. split.
  - rewrite length_app. destruct l; [done|simpl; lia].
  - by rewrite take_app_length.
Qed.

Lemma prefixes_snoc p e q :
  q ∈ path.prefixes (path.Path (path.rooted p) (path.comps p ++ [e])) →
  q ∈ path.prefixes p ∨ q = path.Path (path.rooted p) (path.comps p ++ [e]).
Proof.
  unfold path.prefixes. simpl. intros Hq.
  apply list_elem_of_fmap in Hq as (n & -> & Hn).
  apply elem_of_seq in Hn as [_ Hn]. rewrite length_app in Hn. simpl in Hn.
  destruct (decide (n < length (path.comps p))%nat) as [Hlt|Hge].
  - left. apply list_elem_of_fmap. exists n. split.
    + by rewrite take_app_le by lia.
    + apply elem_of_seq. lia.
  - right. by rewrite take_ge by (rewrite length_app; simpl; lia).
Qed.

Lemma omap_none {A B} (f : A → option B) (l : list A) :
  (∀ x, x ∈ l → f x = None) → omap f l = [].
Proof.
  induction l as [|x l IH]; intros Hall; simpl; [done|].
  rewrite (Hall x) by by left. apply IH. intros y Hy. apply Hall. by right.
Qed.

Lemma ReadDir_empty_root root fs :
  empty_root root fs → os.is_dir fs root = true → os.ReadDir root fs = Ok [].
Proof.
  intros [_ Hbelow] Hd. unfold os.ReadDir. rewrite Hd.
  rewrite omap_none; [done|].
  intros q Hq. unfold os.entry_of. case_bool_decide as Hc; [|done].
  destruct Hc as (Hpar & Hne & _).
  destruct (Hbelow q (below_child root q Hpar Hne)) as [Hnd Hnf].
  apply elem_of_elements, elem_of_union in Hq as [Hq|Hq]; [|done].
  apply elem_of_dom in Hq as [x Hx]. congruence.
Qed.

(** *** Names made of plain elements *)

Lemma split_rooted dir :
  path.is_rooted dir = true →
  path.split dir = ""%string :: tail (path.split dir).
Proof.
  destruct dir as [|c dir]; [done|]. simpl. by intros ->.
Qed.

Lemma fold_clean_plain r es acc :
  Forall plain_name es → fold_left (path.clean_step r) es acc = acc ++ es.
Proof.
  intros Hes. revert acc.
  induction Hes as [|e es He _ IH]; intros acc; simpl.
  - by rewrite app_nil_r.
  - rewrite clean_step_plain by done. by rewrite IH, <- app_assoc.
Qed.

Lemma clean_step_empty r st : path.clean_step r st "" = st.
Proof. unfold path.clean_step. by rewrite bool_decide_eq_true_2 by by left. Qed.

Lemma root_path_plain dir :
  plain_dir dir →
  dir ≠ ""%string
  ∧ root_path dir = path.Path (path.is_rooted dir) (dir_elems dir).
Proof.
  intros Hplain.
  assert (Hne : dir ≠ ""%string).
  { intros ->. unfold plain_dir, dir_elems in Hplain. simpl in Hplain.
    apply Forall_cons in Hplain as [(Hne & _) _]. done. }
  split; [done|]. unfold root_path. rewrite bool_decide_eq_false_2 by done.
  unfold path.Clean, plain_dir, dir_elems in *. f_equal.
  destruct (path.is_rooted dir) eqn:Hr.
  - rewrite (split_rooted dir Hr). simpl. rewrite clean_step_empty.
    by rewrite fold_clean_plain.
  - by rewrite fold_clean_plain.
Qed.

(** [MkdirAll] along plain elements none of which names a regular file:
    it succeeds, every directory of the name exists afterwards, and it
    has made no other. *)
Lemma MkdirAll_walk_plain r cur es fs :
  Forall plain_name es →
  (∀ k, (0 < k ≤ length es)%nat →
        os.is_file fs (path.Path r (cur ++ take k es)) = false) →
  ∃ fs1, os.MkdirAll_walk r cur es fs = (Ok tt, fs1)
         ∧ (∀ k, (0 < k ≤ length es)%nat →
                 path.Path r (cur ++ take k es) ∈ os.dirs fs1)
         ∧ ∀ q, q ∈ os.dirs fs1 →
                q ∈ os.dirs fs
                ∨ ∃ k, (0 < k ≤ length es)%nat
                       ∧ q = path.Path r (cur ++ take k es).
Proof.
  intros Hes. revert cur fs.
  induction Hes as [|e es He _ IH]; intros cur fs Hfree; simpl.
  { exists fs. split_and!; [done| |by left]. intros k Hk. simpl in Hk. lia. }
  rewrite clean_step_plain by done.
  assert (Hshift : ∀ k, (cur ++ [e]) ++ take k es
                        = cur ++ take (S k) (e :: es)).
  { intros k. by rewrite <- app_assoc. }
  assert (Hfile : os.is_file fs (path.Path r (cur ++ [e])) = false).
  { specialize (Hfree 1%nat ltac:(simpl; lia)). simpl in Hfree.
    by rewrite take_0 in Hfree. }
  assert (Hstep : ∀ fs2,
            os.files fs2 = os.files fs →
            path.Path r (cur ++ [e]) ∈ os.dirs fs2 →
            (∀ q, q ∈ os.dirs fs2 →
                  q ∈ os.dirs fs ∨ q = path.Path r (cur ++ [e])) →
            ∃ fs1, os.MkdirAll_walk r (cur ++ [e]) es fs2 = (Ok tt, fs1)
                   ∧ (∀ k, (0 < k ≤ S (length es))%nat →
                           path.Path r (cur ++ take k (e :: es)) ∈ os.dirs fs1)
                   ∧ ∀ q, q ∈ os.dirs fs1 →
                          q ∈ os.dirs fs
                          ∨ ∃ k, (0 < k ≤ S (length es))%nat
                                 ∧ q = path.Path r (cur ++ take k (e :: es))).
  { intros fs2 Hf2 Hin Honly.
    destruct (IH (cur ++ [e]) fs2) as (fs1 & Hrun & Hmade & Hno).
    { intros k Hk. unfold os.is_file. rewrite Hf2, Hshift.
      apply (Hfree (S k)). simpl. lia. }
    exists fs1. split; [done|]. split.
    - intros k Hk. destruct k as [|k]; [lia|].
      destruct k as [|k].
      + simpl. rewrite take_0.
        pose proof (MkdirAll_walk_frame r (cur ++ [e]) es fs2) as [_ Hmono].
        rewrite Hrun in Hmono. by apply Hmono.
      + rewrite <- Hshift. apply Hmade. lia.
    - intros q Hq. destruct (Hno q Hq) as [Hq2|(k & Hk & ->)].
      + destruct (Honly q Hq2) as [?| ->]; [by left|right].
        exists 1%nat. split; [lia|]. simpl. by rewrite take_0.
      + right. exists (S k). split; [lia|]. by rewrite Hshift. }
  destruct (os.is_dir fs (path.Path r (cur ++ [e]))) eqn:Hd.
  - apply (Hstep fs); [done| |by left].
    apply is_dir_true in Hd; [done|]. simpl. by destruct cur.
  - rewrite Hfile. apply Hstep; simpl; [done| |].
    + apply elem_of_union_r. by apply elem_of_singleton.
    + intros q Hq. apply elem_of_union in Hq as [?|Hq]; [by left|right].
      by apply elem_of_singleton in Hq.
Qed.

(** The lookup of plain elements through directories that exist. *)
Lemma walk_plain fs r cur es :
  Forall plain_name es →
  (∀ k, (k < length es)%nat →
        os.is_dir fs (path.Path r (cur ++ take k es)) = true) →
  os.walk fs r cur es = Ok (path.Path r (cur ++ es)).
Proof.
  intros Hes. revert cur.
  induction Hes as [|e es He _ IH]; intros cur Hdirs; simpl.
  { by rewrite app_nil_r. }
  pose proof (Hdirs 0%nat ltac:(simpl; lia)) as Hcur.
  rewrite take_0, app_nil_r in Hcur. rewrite Hcur.
  rewrite clean_step_plain by done. rewrite IH.
  - by rewrite <- app_assoc.
  - intros k Hk. rewrite <- app_assoc. apply (Hdirs (S k)). simpl. lia.
Qed.

(** [MkdirAll] of the plain name of a missing or empty directory makes
    it and leaves it empty, and [ReadDir] of the name then lists
    nothing. *)
Lemma MkdirAll_name_empty_root dir fs :
  plain_dir dir →
  empty_root (root_path dir) fs →
  ∃ fs1, os.MkdirAll_name dir fs = (Ok tt, fs1)
         ∧ os.is_dir fs1 (root_path dir) = true
         ∧ os.files fs1 = os.files fs
         ∧ empty_root (root_path dir) fs1
         ∧ os.ReadDir_name dir fs1 = Ok [].
Proof.
  intros Hplain [Hfree Hbelow].
  destruct (root_path_plain dir Hplain) as [Hne Hroot].
  set (r := path.is_rooted dir) in *. set (es := dir_elems dir) in *.
  assert (Hpre : ∀ k, (0 < k ≤ length es)%nat →
            path.Path r (take k es) ∈ path.prefixes (root_path dir)).
  { intros k Hk. rewrite Hroot. unfold path.prefixes. simpl.
    apply list_elem_of_fmap. exists (pred k). split.
    - by replace (S (pred k)) with k by lia.
    - apply elem_of_seq. lia. }
  assert (Hwalk : ∀ fs0, os.MkdirAll_name dir fs0 = os.MkdirAll_walk r [] es fs0).
  { intros fs0. unfold os.MkdirAll_name. rewrite bool_decide_eq_false_2 by done.
    fold r. unfold es, dir_elems. fold r. destruct r eqn:Hr; [|done].
    rewrite (split_rooted dir Hr). simpl. by rewrite clean_step_empty. }
  assert (Hlook : ∀ fs0, os.lookup dir fs0 = os.walk fs0 r [] es).
  { intros fs0. unfold os.lookup. rewrite bool_decide_eq_false_2 by done.
    fold r. unfold es, dir_elems. fold r. destruct r eqn:Hr; [|done].
    rewrite (split_rooted dir Hr). simpl. by rewrite clean_step_empty. }
  destruct (MkdirAll_walk_plain r [] es fs Hplain) as (fs1 & Hrun & Hmade & Hno).
  { intros k Hk. simpl. apply not_true_is_false. intros Hfile.
    assert (existsb (os.is_file fs) (path.prefixes (root_path dir)) = true);
      [|congruence].
    apply existsb_exists. exists (path.Path r (take k es)).
    split; [|done]. apply list_elem_of_In. by apply Hpre. }
  pose proof (MkdirAll_walk_frame r [] es fs) as [Hf _].
  rewrite Hrun in Hf. simpl in Hf.
  assert (Hd : ∀ k, (k ≤ length es)%nat →
            os.is_dir fs1 (path.Path r (take k es)) = true).
  { intros k Hk. unfold os.is_dir. apply bool_decide_eq_true.
    destruct k as [|k]; [by left|right]. apply (Hmade (S k)). lia. }
  assert (Hempty1 : empty_root (root_path dir) fs1).
  { split.
    - unfold os.is_file. by rewrite Hf.
    - intros q Hq. destruct (Hbelow q Hq) as [Hnd Hnf]. rewrite Hf.
      split; [|done]. intros Hin.
      destruct (Hno q Hin) as [?|(k & Hk & ->)]; [done|].
      by apply (prefix_not_below (root_path dir) _ (Hpre k Hk)). }
  assert (Hdroot : os.is_dir fs1 (root_path dir) = true).
  { rewrite Hroot. rewrite <- (firstn_all es). by apply Hd. }
  exists fs1. rewrite Hwalk. split_and!; [done..|].
  unfold os.ReadDir_name. rewrite Hlook.
  rewrite walk_plain; [| done |].
  - simpl. rewrite <- Hroot. by apply ReadDir_empty_root.
  - intros k Hk. simpl. apply Hd. lia.
Qed.

Section fresh_fs.
Context {Block Snapshot : Type}.
Context {BC : BlockCodec Block} {SC : SnapshotCodec Snapshot}.

(** On a disk where nothing lies below the root of the store, no block
    file exists. *)
Lemma GetBlock_fs_empty_root s h fs :
  is_uint64 h →
  empty_root (root_path (FsStore.dir s)) fs →
  ∃ e, FsStore.GetBlock (Block := Block) s h fs = Err e ∧ Root e = ENOENT.
Proof.
  intros Hh [Hfree Hbelow]. rewrite GetBlock_fs_read.
  assert (Hp : below (root_path (FsStore.dir s))
                 (block_path (FsStore.dir s) h)).
  { rewrite block_path_parts by done. rewrite <- app_assoc.
    by apply below_app. }
  destruct (Hbelow _ Hp) as [Hnd Hnf].
  unfold os.ReadFile. rewrite Hnf.
  assert (os.is_dir fs (block_path (FsStore.dir s) h) = false) as ->.
  { apply bool_decide_eq_false. intros [Hnil|Hin]; [|done].
    apply below_length in Hp. rewrite Hnil in Hp. simpl in Hp. lia. }
  assert (os.under_file fs (block_path (FsStore.dir s) h) = false) as ->.
  2:{ by eexists. }
  unfold os.under_file. rewrite block_dir_parent by done.
  apply not_true_is_false. intros Hex.
  apply existsb_exists in Hex as (q & Hq & Hfile).
  apply list_elem_of_In in Hq. rewrite blockFilename_parts in Hq by done.
  simpl in Hq. apply prefixes_snoc in Hq as [Hq| ->].
  - assert (existsb (os.is_file fs)
              (path.prefixes (root_path (FsStore.dir s))) = true); [|congruence].
    apply existsb_exists. exists q. split; [by apply list_elem_of_In|done].
  - unfold os.is_file in Hfile. apply bool_decide_eq_true in Hfile as [x Hx].
    destruct (Hbelow _ (below_app (root_path (FsStore.dir s))
                          [shard_name h] ltac:(done))) as [_ Hnone].
    congruence.
Qed.

End fresh_fs.

Lemma newBlockStore_fs_ok dir fs s fs1 :
  FsStore.newBlockStore dir fs = (Ok s, fs1) →
  FsStore.dir s = dir ∧ os.files fs1 = os.files fs.
Proof.
  unfold FsStore.newBlockStore.
  pose proof (MkdirAll_name_frame dir fs) as [Hf _].
  destruct (os.MkdirAll_name dir fs) as [[[]|e|] fs0]; [|done..].
  destruct (os.ReadDir_name dir fs0) as [infos|e|]; [|done..]. cbv zeta.
  destruct (0 <=? _).
  - destruct (os.ReadDir (path.JoinS dir _) fs0) as [infos2|e|]; [|done..].
    by intros [= <- <-].
  - by intros [= <- <-].
Qed.

Lemma empty_disk_root root : empty_root root os.empty.
Proof.
  split.
  - apply not_true_is_false. intros Hex.
    apply existsb_exists in Hex as (q & _ & Hq).
    unfold os.is_file in Hq. apply bool_decide_eq_true in Hq as [x Hx].
    simpl in Hx. by rewrite lookup_empty in Hx.
  - intros q _. simpl. split; [apply not_elem_of_empty|apply lookup_empty].
Qed.

Section starting.
Context {Block Snapshot : Type}.
Context {BC : BlockCodec Block} {SC : SnapshotCodec Snapshot}.

(** X13.  The server started on a directory that is missing or empty,
    given by a name of plain elements: [newBlockStore] makes the
    directory and gives a store of height 0, on which [GetBlock] returns
    at every height an error whose root is "does not exist" and
    [LatestSnapshot] the empty snapshot; so [main] takes the block of
    [protocol.NewInitialBlock] as the initial block, and stops when that
    call fails. *)
Theorem start_empty_dir dir (NewInitialBlock : result Block) fs :
  plain_dir dir →
  empty_root (root_path dir) fs →
  let s := {| FsStore.dir := dir; FsStore.height := 0 |} in
  ∃ fs1,
    FsStore.newBlockStore dir fs = (Ok s, fs1)
    ∧ os.is_dir fs1 (root_path dir) = true
    ∧ os.files fs1 = os.files fs
    ∧ (∀ h, is_uint64 h →
         ∃ e, FsStore.GetBlock (Block := Block) s h fs1 = Err e
              ∧ IsNotExist (Root e) = true)
    ∧ FsStore.LatestSnapshot (Snapshot := Snapshot) s fs1 = Ok snapshot_empty
    ∧ Main.start dir NewInitialBlock fs
      = (match NewInitialBlock with
         | Ok b => Ok (s, b)
         | Err e => Err (Wrap "producing genesis block: " e)
         | Panic => Panic
         end, fs1).
Proof.
  intros Hplain Hempty s.
  destruct (MkdirAll_name_empty_root _ _ Hplain Hempty)
    as (fs1 & Hmk & Hd & Hf & Hempty1 & Hrd).
  assert (Hopen : FsStore.newBlockStore dir fs = (Ok s, fs1)).
  { unfold FsStore.newBlockStore. by rewrite Hmk, Hrd. }
  assert (Hget : ∀ h, is_uint64 h →
            ∃ e, FsStore.GetBlock (Block := Block) s h fs1 = Err e
                 ∧ IsNotExist (Root e) = true).
  { intros h Hh.
    destruct (GetBlock_fs_empty_root s h fs1 Hh Hempty1) as (e & He & Hroot).
    exists e. by rewrite Hroot. }
  exists fs1. split_and!; [done..| |].
  - unfold FsStore.LatestSnapshot. fold (snapshot_path s).
    destruct Hempty1 as [Hfree Hbelow].
    assert (Hp : below (root_path dir) (snapshot_path s)).
    { rewrite snapshot_path_parts. by apply below_app. }
    destruct (Hbelow _ Hp) as [Hnd Hnf].
    unfold os.ReadFile. rewrite Hnf.
    assert (os.is_dir fs1 (snapshot_path s) = false) as ->.
    { apply bool_decide_eq_false. intros [Hnil|Hin]; [|done].
      apply below_length in Hp. rewrite Hnil in Hp. simpl in Hp. lia. }
    assert (os.under_file fs1 (snapshot_path s) = false) as ->; [|done].
    unfold os.under_file. rewrite snapshot_path_parts.
    unfold path.parent. simpl. rewrite removelast_last.
    by destruct (root_path dir).
  - unfold Main.start. rewrite Hopen.
    destruct (Hget 1) as (e & -> & ->); [by unfold is_uint64|].
    by destruct NewInitialBlock.
Qed.

(** X14.  The server started again on a disk where [SaveBlock] has stored
    a block of height 1: when [newBlockStore] succeeds, [main] takes that
    block as the initial block, whatever [protocol.NewInitialBlock]
    would return. *)
Theorem start_stored_block s b fs st (NewInitialBlock : result Block) bs fs1 :
  (∀ bits, block_bytes b = Some bits → block_from_bytes bits = Some b) →
  block_height b = 1 →
  FsStore.SaveBlock s b fs = (Ok tt, st) →
  FsStore.newBlockStore (FsStore.dir s) st.2 = (Ok bs, fs1) →
  Main.start (FsStore.dir s) NewInitialBlock st.2 = (Ok (bs, b), fs1).
Proof.
  intros Hcodec Hone Hsave Hopen.
  destruct (SaveBlock_fs_ok s b fs st Hsave) as (_ & bits & Hbits & Hfile).
  destruct (newBlockStore_fs_ok _ _ _ _ Hopen) as [Hdir Hf].
  unfold Main.start. rewrite Hopen, GetBlock_fs_read.
  unfold os.ReadFile. rewrite Hdir, Hf, <- Hone, Hfile.
  by rewrite (Hcodec bits Hbits).
Qed.

End starting.

(** ** Shards and file names *)

(** X15.  The directory [blockFilename] gives for a height [h] is named
    after the first and the last height of the shard of a thousand
    heights that holds [h]; the last shard ends beyond the range of
    uint64 and its upper bound is printed wrapped around, as 383.  The
    file name is a numeral that [strconv.ParseUint] reads back as [h]. *)
Theorem blockFilename_shard root h :
  is_uint64 h →
  let lo := h / 1000 * 1000 in
  FsStore.blockFilename root h
  = (path.Join (root_path root) (fmt.d_d lo (wrap64 (lo + 999))), fmt.d h)
  ∧ lo mod 1000 = 0
  ∧ lo ≤ h ≤ lo + 999
  ∧ (h < 18446744073709551000 → wrap64 (lo + 999) = lo + 999)
  ∧ (18446744073709551000 ≤ h →
     lo = 18446744073709551000 ∧ wrap64 (lo + 999) = 383)
  ∧ strconv.ParseUint (FsStore.blockFilename root h).2 = Some h.
Proof.
  intros Hh lo. pose proof Hh as [Hh0 Hh1].
  change (2 ^ 64) with 18446744073709551616 in Hh1.
  assert (Hlo : lo ≤ h ∧ h ≤ lo + 999 ∧ lo mod 1000 = 0).
  { unfold lo. pose proof (Z.div_mod h 1000 ltac:(lia)) as Hdm.
    pose proof (Z.mod_pos_bound h 1000 ltac:(lia)) as Hm.
    rewrite Z.mod_mul by lia. lia. }
  assert (Hlo0 : 0 ≤ lo) by (unfold lo; apply Z.mul_nonneg_nonneg;
                             [apply Z.div_pos|]; lia).
  assert (Hwrap : wrap64 lo = lo).
  { apply wrap64_small. change (2 ^ 64) with 18446744073709551616. lia. }
  split_and!; try lia.
  - unfold FsStore.blockFilename. cbv zeta. fold lo. rewrite Hwrap.
    f_equal. apply JoinS_plain.
    pose proof (shard_name_plain h) as Hplain. unfold shard_name in Hplain.
    cbv zeta in Hplain. fold lo in Hplain. by rewrite Hwrap in Hplain.
  - intros Hlt. apply wrap64_small.
    change (2 ^ 64) with 18446744073709551616.
    assert (lo ≤ 18446744073709550000); [|lia].
    unfold lo. assert (h / 1000 ≤ 18446744073709550); [|lia].
    apply Z.lt_succ_r, Z.div_lt_upper_bound; lia.
  - intros Hge.
    assert (lo = 18446744073709551000) as ->; [|done].
    unfold lo. assert (h / 1000 = 18446744073709551) as ->; [|done].
    symmetry. apply (Z.div_unique h 1000 _ (h - 18446744073709551000)); lia.
  - unfold FsStore.blockFilename. simpl. by apply ParseUint_fmt_d.
Qed.

(** ** The handler of /get *)

(** One digit read by the loop of [ParseUint]: when the loop goes on,
    nothing has overflowed. *)
Lemma ParseUint_loop_step c k s n m :
  strconv.digit_of c = Some k → 0 ≤ k ≤ 9 → 0 ≤ n →
  strconv.ParseUint_loop (String c s) n = Some m →
  n * 10 + k < 2 ^ 64 ∧ strconv.ParseUint_loop s (n * 10 + k) = Some m.
Proof.
  intros Hc Hk Hn. cbn [strconv.ParseUint_loop]. rewrite Hc. cbv zeta.
  destruct (Z.leb_spec (maxUint64 / 10 + 1) n) as [|Hcut]; [done|].
  change (maxUint64 / 10 + 1) with 1844674407370955162 in Hcut.
  unfold wrap64. change (2 ^ 64) with 18446744073709551616.
  destruct (Z.lt_ge_cases (n * 10 + k) 18446744073709551616) as [Hlt|Hge].
  - rewrite Z.mod_small by lia.
    by destruct (Z.ltb_spec (n * 10 + k) (n * 10)); [lia|].
  - assert ((n * 10 + k) mod 18446744073709551616
            = n * 10 + k - 18446744073709551616) as ->.
    { symmetry. apply (Z.mod_unique _ _ 1); lia. }
    by destruct (Z.ltb_spec (n * 10 + k - 18446744073709551616) (n * 10));
      [|lia].
Qed.

(** What the loop of [ParseUint] returns for a decimal numeral is its
    value. *)
Lemma ParseUint_loop_value d n m :
  0 ≤ n →
  strconv.ParseUint_loop (NilEmpty.string_of_uint d) n = Some m →
  m = dec_val d n.
Proof.
  revert n. induction d as [|d IH|d IH|d IH|d IH|d IH|d IH|d IH|d IH|d IH|d IH];
    intros n Hn; cbn [NilEmpty.string_of_uint dec_val];
    [by intros [= <-]|..];
    intros Hp;
    match goal with
    | |- _ = dec_val _ (_ * 10 + ?k) =>
        apply (ParseUint_loop_step _ k) in Hp as [_ Hp]; [|done|lia|done];
        apply IH in Hp; [done|lia]
    end.
Qed.

(** A numeral of 2^64 or more is a range error for [ParseUint]. *)
Lemma ParseUint_fmt_d_range z :
  2 ^ 64 ≤ z → strconv.ParseUint (fmt.d z) = None.
Proof.
  intros Hz. destruct (strconv.ParseUint (fmt.d z)) as [m|] eqn:Hp; [|done].
  pose proof (ParseUint_range _ _ Hp) as [_ Hm].
  destruct z as [|p|p]; [done| |done].
  unfold fmt.d in Hp. simpl in Hp.
  assert (Hs : NilZero.string_of_uint (Pos.to_uint p)
               = NilEmpty.string_of_uint (Pos.to_uint p)).
  { pose proof (DecimalPos.Unsigned.to_uint_nonnil p).
    by destruct (Pos.to_uint p). }
  rewrite Hs in Hp. unfold strconv.ParseUint in Hp.
  assert (Hloop : strconv.ParseUint_loop
                    (NilEmpty.string_of_uint (Pos.to_uint p)) 0 = Some m).
  { by destruct (NilEmpty.string_of_uint (Pos.to_uint p)). }
  apply ParseUint_loop_value in Hloop; [|done].
  rewrite dec_val_of_uint, DecimalPos.Unsigned.of_to in Hloop.
  simpl in Hloop. lia.
Qed.

Section get_more.
Context {Block : Type} {BC : BlockCodec Block}.

(** X16.  Either handler of /get ([want0] is 0 for the server on the
    filesystem store and 1 for the server on the database store): a
    height parameter with a byte that is not a decimal digit, a sign
    included, or that is the numeral of 2^64 or more, is answered with
    400 before the chain is asked anything. *)
Theorem get_rejects (want0 : Z) (c : Handler.chain (Block := Block))
    (wantStr : string) :
  str_forall is_digit wantStr = false
  ∨ (∃ z, 2 ^ 64 ≤ z ∧ wantStr = fmt.d z) →
  Handler.get_from want0 c wantStr = (Ok (Handler.Error 400 "parsing height"), []).
Proof.
  intros Hbad.
  assert (Hne : wantStr ≠ ""%string).
  { destruct Hbad as [Hd|(z & Hz & ->)]; [by intros ->|].
    destruct (fmt_d_nonneg z) as (ch & s & -> & _); [lia|done]. }
  assert (Hp : strconv.ParseUint wantStr = None).
  { destruct Hbad as [Hd|(z & Hz & ->)].
    - destruct wantStr as [|ch s]; [done|]. unfold strconv.ParseUint.
      by apply ParseUint_loop_digits.
    - by apply ParseUint_fmt_d_range. }
  unfold Handler.get_from. rewrite bool_decide_eq_true_2 by done.
  by rewrite Hp.
Qed.

(** X17.  Either handler of /get, for any request: it calls
    [chain.GetBlock] at most once, as its last call, and at a height
    above the height of the chain only after the waiter for that height
    has fired; it answers 408 exactly when it has waited in vain, having
    made no other call; and a body it sends is the bytes of the block
    that [chain.GetBlock] returned. *)
Theorem get_outcomes (want0 : Z) (c : Handler.chain (Block := Block))
    (wantStr : string) :
  let r := Handler.get_from want0 c wantStr in
  (∀ N, Handler.GetBlock N ∈ r.2 →
     (N ≤ Handler.chain_Height c ∧ r.2 = [Handler.GetBlock N])
     ∨ (Handler.chain_Height c < N ∧ Handler.chain_wait c N = true
        ∧ r.2 = [Handler.BlockWaiter N; Handler.GetBlock N]))
  ∧ (∀ N, Handler.BlockWaiter N ∈ r.2 → Handler.chain_Height c < N)
  ∧ ((∃ msg, r.1 = Ok (Handler.Error 408 msg))
     ↔ ∃ N, r.2 = [Handler.BlockWaiter N] ∧ Handler.chain_wait c N = false)
  ∧ (∀ ct bits, r.1 = Ok (Handler.Body ct bits) →
       ct = "application/octet-stream"%string
       ∧ ∃ N b, Handler.GetBlock N ∈ r.2
                ∧ Handler.chain_GetBlock c N = Ok b
                ∧ block_bytes b = Some bits)
  ∧ (∀ e, r.1 ≠ Err e).
Proof.
  intros r. unfold r, Handler.get_from.
  destruct (if bool_decide (wantStr ≠ ""%string)
            then strconv.ParseUint wantStr else Some want0) as [want|].
  2:{ simpl. split_and!.
      - intros N HN. by apply elem_of_nil in HN.
      - intros N HN. by apply elem_of_nil in HN.
      - split; [by intros [msg [=]]|by intros (N & [=] & _)].
      - done.
      - done. }
  cbv zeta.
  set (N0 := if want =? 0 then Handler.chain_Height c else want).
  assert (Hfetch : ∀ calls,
            (Handler.fetch c N0 calls).2 = calls ++ [Handler.GetBlock N0]
            ∧ (∀ msg, (Handler.fetch c N0 calls).1
                      ≠ Ok (Handler.Error 408 msg))
            ∧ (∀ ct bits,
                 (Handler.fetch c N0 calls).1 = Ok (Handler.Body ct bits) →
                 ct = "application/octet-stream"%string
                 ∧ ∃ b, Handler.chain_GetBlock c N0 = Ok b
                        ∧ block_bytes b = Some bits)
            ∧ ∀ e, (Handler.fetch c N0 calls).1 ≠ Err e).
  { intros calls. unfold Handler.fetch.
    destruct (Handler.chain_GetBlock c N0) as [b|e|]; [|done..].
    destruct (block_bytes b) as [bits|] eqn:Hbits; [|done].
    simpl. split_and!; try done.
    intros ct bits' [= <- <-]. split; [done|]. by exists b. }
  destruct (Z.ltb_spec (Handler.chain_Height c) N0) as [Hlt|Hle].
  - destruct (Handler.chain_wait c N0) eqn:Hwait.
    + destruct (Hfetch [Handler.BlockWaiter N0]) as (Hcalls & H408 & Hbody & Herr).
      rewrite Hcalls. simpl. split_and!.
      * intros N HN. right.
        apply elem_of_cons in HN as [[=]|HN].
        apply list_elem_of_singleton in HN as [= ->]. done.
      * intros N HN. apply elem_of_cons in HN as [[= ->]|HN]; [done|].
        by apply list_elem_of_singleton in HN.
      * split; [intros [msg Hm]; by destruct (H408 msg)|].
        by intros (N & [=] & _).
      * intros ct bits Hr. destruct (Hbody ct bits Hr) as (-> & b & Hb & Hbits).
        split; [done|]. exists N0, b. split_and!; [|done..].
        apply elem_of_cons. right. by apply list_elem_of_singleton.
      * done.
    + simpl. split_and!.
      * intros N HN. by apply list_elem_of_singleton in HN.
      * intros N HN. by apply list_elem_of_singleton in HN as [= ->].
      * split; [|by eexists]. intros _. by exists N0.
      * done.
      * done.
  - destruct (Hfetch []) as (Hcalls & H408 & Hbody & Herr).
    rewrite Hcalls. simpl. split_and!.
    + intros N HN. left. by apply list_elem_of_singleton in HN as [= ->].
    + intros N HN. by apply list_elem_of_singleton in HN.
    + split; [intros [msg Hm]; by destruct (H408 msg)|].
      by intros (N & [=] & _).
    + intros ct bits Hr. destruct (Hbody ct bits Hr) as (-> & b & Hb & Hbits).
      split; [done|]. exists N0, b. split_and!; [|done..].
      by apply list_elem_of_singleton.
    + done.
Qed.

End get_more.

(** ** Builders and timers *)

Section server_facts.
Context {W Builder Tx UBlock Snap : Type}.
Context {T : Txvm W Builder Tx UBlock Snap}.

Abbreviation state := (Server.state (W := W) (Builder := Builder)).

Ltac step_cases :=
  repeat match goal with
    | H : (_, _) = (_, _) |- _ => injection H as <- <-
    | H : context [match ?x with _ => _ end] |- _ => destruct x eqn:?
    | H : context [if ?x then _ else _] |- _ => destruct x eqn:?
    end.

Lemma add_some (tx : Tx) b n w o (st' : state) :
  Server.add tx b n w = (o, st') →
  Server.bb st' ≠ None ∧ Server.timers st' = n ∧ callback_ran o = false
  ∧ Server.ends o = false ∧ ∀ msg, o ≠ Server.Replied 500 msg.
Proof. unfold Server.add. intros Hadd. by step_cases. Qed.

(** The timer function with a builder set. *)
Lemma commit_some reset (st : state) o st' :
  Server.bb st ≠ None →
  Server.commit reset st = (o, st') →
  Server.timers st' = Server.timers st
  ∧ callback_ran o = true
  ∧ o ≠ Server.NilBuilder
  ∧ (reset = false → Server.bb st' ≠ None)
  ∧ (Server.ends o = false → reset = true → Server.bb st' = None).
Proof.
  unfold Server.commit. intros Hbb Hc.
  destruct (Server.bb st) as [b|]; [|done].
  by step_cases; simpl; destruct reset.
Qed.

(** A step of the filesystem server with a builder set. *)
Lemma Fs_step_some ev (st : state) o st' :
  Server.bb st ≠ None →
  Server.Fs.step ev st = (o, st') →
  Server.bb st' ≠ None
  ∧ (Server.timers st' ≤ Server.timers st)%nat
  ∧ (callback_ran o = true → (Server.timers st' < Server.timers st)%nat)
  ∧ ∀ msg, o = Server.Replied 500 msg → msg = "reading request body"%string.
Proof.
  intros Hbb. destruct ev as [body now|]; simpl.
  - unfold Server.Fs.submit, Server.Fs.locked.
    destruct (Server.bb st) as [b|] eqn:Hb; [|done]. intros Hs.
    assert (Hsame : ∀ code msg,
              (code = 500 → msg = "reading request body"%string) →
              (o, st') = (Server.Replied code msg, st) ∨ (o, st') = (Server.HandlerPanic, st) →
              Server.bb st' ≠ None
              ∧ (Server.timers st' ≤ Server.timers st)%nat
              ∧ (callback_ran o = true
                 → (Server.timers st' < Server.timers st)%nat)
              ∧ ∀ msg, o = Server.Replied 500 msg
                       → msg = "reading request body"%string).
    { intros code msg Hmsg [[= -> ->]|[= -> ->]]; rewrite Hb;
        (split_and!; [done|lia|done|]); [|done].
      intros msg' [= -> <-]. by apply Hmsg. }
    destruct body as [prog|e|];
      [|by apply (Hsame 500 "reading request body"%string); auto..].
    destruct (Validate prog 3 MaxInt64) as [rl|e|];
      [|by apply (Hsame 400 "validating tx"%string); auto..].
    destruct (NewTx prog 3 _) as [tx|e|];
      [|by apply (Hsame 400 "building tx"%string); auto..].
    apply add_some in Hs as (? & -> & ? & ? & H500).
    split_and!; [done|lia|congruence|]. intros msg ->. by destruct (H500 msg).
  - unfold Server.fire. destruct (Server.timers st) as [|n] eqn:Hn.
    { intros [= <- <-]. rewrite Hn. by split_and!. }
    intros Hc. apply commit_some in Hc as (Ht & Hran & _ & Hkeep & _); [|done].
    simpl in Ht. rewrite Ht. split_and!; [by apply Hkeep|lia|lia|].
    by intros msg ->.
Qed.

Lemma ends_ran o : Server.ends o = true → callback_ran o = true.
Proof. by destruct o. Qed.

(** A property of the states that every step keeps holds after a run,
    and the steps of the run were made from states that have it. *)
Lemma run_invariant {St : Type} (step : Server.event → St → Server.outcome * St)
    (I : St → Prop) (Q : Server.outcome → St → Prop) :
  (∀ ev st o st', I st → step ev st = (o, st') → I st' ∧ Q o st') →
  ∀ evs st, I st →
    I (Server.run step evs st).2
    ∧ Forall (λ o, ∃ st', Q o st') (Server.run step evs st).1
    ∧ ∀ o, last (Server.run step evs st).1 = Some o →
           Q o (Server.run step evs st).2.
Proof.
  intros Hstep evs. induction evs as [|ev evs IH]; intros st HI; simpl.
  { by split_and!. }
  destruct (step ev st) as [o st1] eqn:Hs.
  destruct (Hstep _ _ _ _ HI Hs) as [HI1 HQ].
  destruct (Server.ends o).
  { simpl. split_and!; [done|by repeat constructor; eauto|].
    by intros o' [= <-]. }
  destruct (IH st1 HI1) as (HI2 & Hall & Hlast).
  destruct (Server.run step evs st1) as [os st2] eqn:Hrun. simpl in *.
  split_and!; [done|by constructor; eauto|].
  intros o'. destruct os as [|o1 os]; simpl.
  - intros [= <-].
    destruct evs as [|ev' evs']; simpl in Hrun; [by injection Hrun as <-|].
    destruct (step ev' st1) as [o2 st3].
    destruct (Server.ends o2); [done|].
    by destruct (Server.run step evs' st3).
  - intros Ho'. by apply Hlast.
Qed.

(** The filesystem server with a builder set: every timer function that
    runs takes one from the timers that wait. *)
Lemma Fs_run_some evs (st : state) :
  Server.bb st ≠ None →
  (callbacks (Server.run Server.Fs.step evs st).1
   + Server.timers (Server.run Server.Fs.step evs st).2
   ≤ Server.timers st)%nat
  ∧ Server.bb (Server.run Server.Fs.step evs st).2 ≠ None.
Proof.
  revert st. induction evs as [|ev evs IH]; intros st Hbb; simpl.
  { split; [unfold callbacks; simpl; lia|done]. }
  destruct (Server.Fs.step ev st) as [o st1] eqn:Hs.
  destruct (Fs_step_some _ _ _ _ Hbb Hs) as (Hbb1 & Hle & Hlt & _).
  destruct (Server.ends o) eqn:He.
  { simpl. split; [|done]. unfold callbacks. simpl.
    rewrite (ends_ran o He). simpl. specialize (Hlt (ends_ran o He)). lia. }
  destruct (IH st1 Hbb1) as [IH1 IH2].
  destruct (Server.run Server.Fs.step evs st1) as [os st2]. simpl in *.
  split; [|done]. unfold callbacks in *. simpl.
  destruct (callback_ran o) eqn:Hran; simpl; [specialize (Hlt eq_refl)|]; lia.
Qed.

(** A step of the filesystem server before any builder is set. *)
Lemma Fs_step_none ev (st : state) o st' :
  Server.bb st = None → Server.timers st = 0%nat →
  Server.Fs.step ev st = (o, st') →
  callback_ran o = false ∧ Server.ends o = false
  ∧ ((Server.bb st' = None ∧ Server.timers st' = 0%nat)
     ∨ (Server.bb st' ≠ None ∧ (Server.timers st' ≤ 1)%nat))
  ∧ ∀ msg, o = Server.Replied 500 msg →
           msg ≠ "reading request body"%string → stuck st'.
Proof.
  intros Hb Ht. destruct ev as [body now|]; simpl.
  2:{ unfold Server.fire. rewrite Ht. intros [= <- <-].
      split_and!; [done..|by left|done]. }
  unfold Server.Fs.submit, Server.Fs.locked. rewrite Hb, Ht. intros Hs.
  assert (Hsame : ∀ code msg,
            (code = 500 → msg = "reading request body"%string) →
            (o, st') = (Server.Replied code msg, st)
            ∨ (o, st') = (Server.HandlerPanic, st) →
            callback_ran o = false ∧ Server.ends o = false
            ∧ ((Server.bb st' = None ∧ Server.timers st' = 0%nat)
               ∨ (Server.bb st' ≠ None ∧ (Server.timers st' ≤ 1)%nat))
            ∧ ∀ msg, o = Server.Replied 500 msg →
                     msg ≠ "reading request body"%string → stuck st').
  { intros code msg Hmsg [[= -> ->]|[= -> ->]];
      (split_and!; [done|done|by left|]); [|done].
    intros msg' [= -> <-] Hne. by destruct Hne; apply Hmsg. }
  destruct body as [prog|e|];
    [|by apply (Hsame 500 "reading request body"%string); auto..].
  destruct (Validate prog 3 MaxInt64) as [rl|e|];
    [|by apply (Hsame 400 "validating tx"%string); auto..].
  destruct (NewTx prog 3 _) as [tx|e|];
    [|by apply (Hsame 400 "building tx"%string); auto..].
  destruct (Start _ _ _) as [[[]|e|] [b1 w1]].
  - apply add_some in Hs as (? & -> & ? & ? & H500).
    split_and!; [done|done|right; split; [done|lia]|].
    intros msg ->. by destruct (H500 msg).
  - injection Hs as <- <-. split_and!; [done|done|right; split; [done|simpl; lia]|].
    intros _ _ _. by split.
  - injection Hs as <- <-. split_and!; [done|done|right; split; [done|simpl; lia]|].
    done.
Qed.

(** The states the filesystem server reaches: no builder and no timer,
    or a builder and at most one timer function in all. *)
Lemma Fs_run_init evs (st : state) :
  Server.bb st = None → Server.timers st = 0%nat →
  let r := Server.run Server.Fs.step evs st in
  (callbacks r.1 + Server.timers r.2 ≤ 1)%nat
  ∧ ((Server.bb r.2 = None ∧ Server.timers r.2 = 0%nat ∧ callbacks r.1 = 0%nat)
     ∨ Server.bb r.2 ≠ None).
Proof.
  revert st. induction evs as [|ev evs IH]; intros st Hb Ht; simpl.
  { rewrite Ht. split; [unfold callbacks; simpl; lia|by left]. }
  destruct (Server.Fs.step ev st) as [o st1] eqn:Hs.
  destruct (Fs_step_none _ _ _ _ Hb Ht Hs) as (Hran & -> & Hst1 & _).
  destruct Hst1 as [[Hb1 Ht1]|[Hb1 Ht1]].
  - specialize (IH st1 Hb1 Ht1). simpl in IH.
    destruct (Server.run Server.Fs.step evs st1) as [os st2]. simpl in *.
    unfold callbacks in *. simpl. by rewrite Hran.
  - destruct (Fs_run_some evs st1 Hb1) as [Hle Hb2].
    destruct (Server.run Server.Fs.step evs st1) as [os st2]. simpl in *.
    unfold callbacks in *. simpl. rewrite Hran. split; [lia|by right].
Qed.

(** X18.  The server on the filesystem store, whatever the library
    returns and whatever requests and timers come: in all, at most one
    timer function is ever set up.  Once it has run, [bb] still points to
    the builder it has built and no timer waits, so that no later
    transaction is ever committed. *)
Theorem Fs_commits_once (w : W) evs :
  let r := Server.run Server.Fs.step evs (Server.init w) in
  (callbacks r.1 + Server.timers r.2 ≤ 1)%nat
  ∧ (callbacks r.1 = 1%nat → stuck r.2)
  ∧ ∀ evs', callbacks r.1 = 1%nat →
            callbacks (Server.run Server.Fs.step evs' r.2).1 = 0%nat.
Proof.
  intros r. destruct (Fs_run_init evs (Server.init w) eq_refl eq_refl)
    as [Hle Hcases]. fold r in Hle, Hcases.
  assert (Hstuck : callbacks r.1 = 1%nat → stuck r.2).
  { intros Hone. destruct Hcases as [(_ & _ & Hz)|Hb]; [lia|].
    split; [done|lia]. }
  split_and!; [done..|].
  intros evs' Hone. destruct (Hstuck Hone) as [Hb Ht].
  destruct (Fs_run_some evs' r.2 Hb) as [Hle' _]. lia.
Qed.

Lemma Bolt_step_inv ev (st : state) o st' :
  bolt_inv st →
  Server.Bolt.step ev st = (o, st') →
  bolt_inv st'
  ∧ (o ≠ Server.NilBuilder
     ∧ (o = Server.Committed
        → Server.bb st' = None ∧ Server.timers st' = 0%nat)
     ∧ (∀ msg, o = Server.Replied 500 msg →
               msg ≠ "reading request body"%string → stuck st')).
Proof.
  intros [Hle Hnone]. destruct ev as [body now|]; simpl.
  2:{ unfold Server.fire. destruct (Server.timers st) as [|n] eqn:Hn.
      { intros [= <- <-]. unfold bolt_inv. rewrite Hn. by split_and!. }
      destruct (Server.bb st) as [b|] eqn:Hb; [|by specialize (Hnone eq_refl)].
      intros Hc.
      apply commit_some in Hc as (Ht & Hran & Hnil & _ & Hreset);
        [|done].
      simpl in Ht. assert (n = 0%nat) as -> by lia.
      unfold bolt_inv. rewrite Ht. split_and!; [lia|done|done| |].
      - intros ->. split; [by apply Hreset|done].
      - by intros msg ->. }
  unfold Server.Bolt.submit, Server.Bolt.locked. intros Hs.
  assert (Hsame : ∀ code msg,
            (code = 500 → msg = "reading request body"%string) →
            (o, st') = (Server.Replied code msg, st)
            ∨ (o, st') = (Server.HandlerPanic, st) →
            bolt_inv st'
            ∧ (o ≠ Server.NilBuilder
               ∧ (o = Server.Committed
                  → Server.bb st' = None ∧ Server.timers st' = 0%nat)
               ∧ (∀ msg, o = Server.Replied 500 msg →
                         msg ≠ "reading request body"%string → stuck st'))).
  { intros code msg Hmsg [[= -> ->]|[= -> ->]];
      (split; [by split|]); (split_and!; [done|done|]); [|done].
    intros msg' [= -> <-] Hne. by destruct Hne; apply Hmsg. }
  destruct body as [bits|e|];
    [|by apply (Hsame 500 "reading request body"%string); auto..].
  destruct (Unmarshal bits) as [[[Program Version] Runlimit]|e|];
    [|by apply (Hsame 400 "parsing request body"%string); auto..].
  destruct (NewTx Program Version Runlimit) as [tx|e|];
    [|by apply (Hsame 400 "building tx"%string); auto..].
  assert (Hadd : ∀ b n w0,
            (n ≤ 1)%nat → Server.add tx b n w0 = (o, st') →
            bolt_inv st'
            ∧ (o ≠ Server.NilBuilder
               ∧ (o = Server.Committed
                  → Server.bb st' = None ∧ Server.timers st' = 0%nat)
               ∧ (∀ msg, o = Server.Replied 500 msg →
                         msg ≠ "reading request body"%string → stuck st'))).
  { intros b n w0 Hn Ha.
    apply add_some in Ha as (Hb' & Ht & Hran & He & H500).
    split; [split; [lia|done]|]. split_and!.
    - intros ->. done.
    - intros ->. done.
    - intros msg ->. by destruct (H500 msg). }
  assert (Hfail : ∀ msg b w0,
            (o, st') = (Server.Replied 500 msg,
                        {| Server.bb := Some b; Server.timers := 0;
                           Server.world := w0 |})
            ∨ (o, st') = (Server.HandlerPanic,
                          {| Server.bb := Some b; Server.timers := 0;
                             Server.world := w0 |}) →
            bolt_inv st'
            ∧ (o ≠ Server.NilBuilder
               ∧ (o = Server.Committed
                  → Server.bb st' = None ∧ Server.timers st' = 0%nat)
               ∧ (∀ msg, o = Server.Replied 500 msg →
                         msg ≠ "reading request body"%string → stuck st'))).
  { intros msg b w0 [[= -> ->]|[= -> ->]];
      (split; [split; [simpl; lia|done]|]); by split_and!. }
  destruct (Server.bb st) as [b|] eqn:Hb.
  { by apply (Hadd b (Server.timers st) (Server.world st)). }
  specialize (Hnone eq_refl). rewrite Hnone in Hs.
  destruct (if HeaderNil (Server.world st)
            then ApplyBlockHeader (Server.world st)
            else (Ok tt, Server.world st)) as [[[]|e|] w0].
  - destruct (Start _ _ _) as [[[]|e|] [b1 w1]].
    + by apply (Hadd b1 1%nat w1).
    + apply (Hfail "starting a new tx pool"%string b1 w1). by left.
    + apply (Hfail ""%string b1 w1). by right.
  - apply (Hfail "initializing empty state"%string NewBlockBuilder w0).
    by left.
  - apply (Hfail ""%string NewBlockBuilder w0). by right.
Qed.

(** X19.  The server on the database store, whatever the library returns
    and whatever requests and timers come: at most one timer function
    waits at any time, and a builder is set while one does, so that a
    timer function never finds [bb] nil; and a timer function that has
    committed leaves [bb] nil with no timer waiting, the state the server
    starts in, so that the next transaction starts a new block. *)
Theorem Bolt_timer_finds_builder (w : W) evs :
  let r := Server.run Server.Bolt.step evs (Server.init w) in
  (Server.NilBuilder ∉ r.1)
  ∧ (Server.timers r.2 ≤ 1)%nat
  ∧ (Server.timers r.2 = 1%nat → Server.bb r.2 ≠ None)
  ∧ (last r.1 = Some Server.Committed →
     Server.bb r.2 = None ∧ Server.timers r.2 = 0%nat).
Proof.
  intros r.
  destruct (run_invariant Server.Bolt.step bolt_inv _ Bolt_step_inv evs
              (Server.init w)) as ([Hle Hnone] & Hall & Hlast).
  { split; [simpl; lia|done]. }
  fold r in Hle, Hnone, Hall, Hlast. split_and!; [|done| |].
  - intros Hin. rewrite Forall_forall in Hall.
    destruct (Hall _ Hin) as (? & Hnil & _). done.
  - intros Hone Hb. specialize (Hnone Hb). lia.
  - intros Hl. by apply (Hlast _ Hl).
Qed.

(** A step of either server in a state with a builder and no timer. *)
Lemma Bolt_step_stuck ev (st : state) o st' :
  stuck st → Server.Bolt.step ev st = (o, st') →
  stuck st' ∧ callback_ran o = false.
Proof.
  intros [Hb Ht]. destruct ev as [body now|]; simpl.
  2:{ unfold Server.fire. rewrite Ht. by intros [= <- <-]. }
  unfold Server.Bolt.submit, Server.Bolt.locked. intros Hs.
  destruct (Server.bb st) as [b|] eqn:Hbb; [|done].
  destruct body as [bits|e|]; [|by injection Hs as <- <-; unfold stuck; rewrite Hbb..].
  destruct (Unmarshal bits) as [[[Program Version] Runlimit]|e|];
    [|by injection Hs as <- <-; unfold stuck; rewrite Hbb..].
  destruct (NewTx Program Version Runlimit) as [tx|e|];
    [|by injection Hs as <- <-; unfold stuck; rewrite Hbb..].
  apply add_some in Hs as (Hb' & Ht' & ? & _).
  unfold stuck. by rewrite Ht', Ht.
Qed.

Lemma callbacks_none os :
  Forall (λ o, ∃ _ : state, callback_ran o = false) os → callbacks os = 0%nat.
Proof.
  induction 1 as [|o os [_ Ho] _ IH]; [done|].
  unfold callbacks in *. simpl. by rewrite Ho.
Qed.

(** X20.  On either server a failed start of a builder is final.  When a
    request is answered 500 from inside the locked part of [submit] (the
    builder could not be started, or the empty state not initialized),
    [bb] is left pointing to the new builder with no timer set up; from
    then on no timer function runs, whatever requests come: nothing is
    committed any more. *)
Theorem failed_start_is_final (w : W) :
  start_failure_final Server.Fs.step w
  ∧ start_failure_final Server.Bolt.step w.
Proof.
  split; intros evs1 body now msg st' evs2 Hs Hmsg.
  - assert (Hstuck : stuck st').
    { destruct (Fs_run_init evs1 (Server.init w) eq_refl eq_refl)
        as [_ [(Hb & Ht & _)|Hb]].
      - destruct (Fs_step_none _ _ _ _ Hb Ht Hs) as (_ & _ & _ & H500).
        by apply (H500 msg).
      - destruct (Fs_step_some _ _ _ _ Hb Hs) as (_ & _ & _ & H500).
        by destruct Hmsg; apply H500. }
    split; [done|]. destruct Hstuck as [Hb Ht].
    destruct (Fs_run_some evs2 st' Hb) as [Hle Hb2].
    split; [lia|]. split; [done|lia].
  - assert (Hstuck : stuck st').
    { destruct (run_invariant Server.Bolt.step bolt_inv _ Bolt_step_inv evs1
                  (Server.init w)) as (Hinv & _ & _).
      { split; [simpl; lia|done]. }
      destruct (Bolt_step_inv _ _ _ _ Hinv Hs) as (_ & _ & _ & H500).
      by apply (H500 msg). }
    split; [done|].
    destruct (run_invariant Server.Bolt.step stuck
                (λ o _, callback_ran o = false) Bolt_step_stuck evs2 st' Hstuck)
      as (Hfin & Hall & _).
    split; [|done]. by apply callbacks_none.
Qed.

End server_facts.

(** ** The height of the database after a block is saved *)

Section db_height.
Context {Block : Type} {BC : BlockCodec Block}.

(** X21.  On the database store, after [SaveBlock] has accepted a block
    [Height()] returns the greater of the height it returned before and
    the height of the block. *)
Theorem SaveBlock_db_height_max (b : Block) db db' h :
  db_ready db → heights_bounded db →
  BoltStore.Height db = Ok h →
  is_uint64 (block_height b) →
  BoltStore.SaveBlock b db = (Ok tt, db') →
  BoltStore.Height db' = Ok (Z.max h (block_height b)).
Proof.
  intros Hready Hbound Hh Hb Hsave.
  destruct (Z.lt_ge_cases h (block_height b)) as [Hlt|Hge].
  - rewrite Z.max_r by lia.
    by apply (SaveBlock_db_advances db db' b h).
  - rewrite Z.max_l by lia.
    destruct (SaveBlock_db_height db h b Hh Hb) as (h' & Hh' & Hcases).
    rewrite Hsave in Hh'. simpl in Hh'. rewrite Hh'.
    destruct Hcases as [->|[Hlt _]]; [done|lia].
Qed.

End db_height.

(** ** The statements at concrete states *)

Lemma GetBlock_db_after_SaveBlock_witness :
  BoltStore.GetBlock (block_height [2; 7])
    (BoltStore.SaveBlock [2; 7] demo_db).2 = Ok [2; 7].
Proof.
  apply (GetBlock_db_after_SaveBlock [2; 7] demo_db).
  - by intros bits [= <-].
  - by vm_compute.
Defined.

Lemma SaveBlock_db_frame_witness :
  stored_block (BoltStore.SaveBlock [2; 7] demo_db).2 1
  = stored_block demo_db 1
  ∧ (∀ H', stored_snapshot (BoltStore.SaveBlock [2; 7] demo_db).2 H'
           = stored_snapshot demo_db H')
  ∧ latest_slot (BoltStore.SaveBlock [2; 7] demo_db).2 = latest_slot demo_db.
Proof.
  apply (SaveBlock_db_frame [2; 7] demo_db 1); by vm_compute.
Defined.

Lemma SaveSnapshot_db_frame_witness :
  (∀ H', stored_block (BoltStore.SaveSnapshot [3; 9] demo_db).2 H'
         = stored_block demo_db H')
  ∧ BoltStore.Height (BoltStore.SaveSnapshot [3; 9] demo_db).2
    = BoltStore.Height demo_db
  ∧ stored_snapshot (BoltStore.SaveSnapshot [3; 9] demo_db).2 1
    = stored_snapshot demo_db 1.
Proof.
  apply (SaveSnapshot_db_frame [3; 9] demo_db 1); by vm_compute.
Defined.

Lemma SaveSnapshot_db_bucket_witness :
  stored_snapshot (BoltStore.SaveSnapshot [1; 9] demo_db).2
    (snapshot_height [1; 9]) = snapshot_bytes [1; 9]
  ∧ stored_block (BoltStore.SaveSnapshot [1; 9] demo_db).2
      (snapshot_height [1; 9])
    = stored_block demo_db (snapshot_height [1; 9])
  ∧ BoltStore.GetBlock (Block := bytes) (snapshot_height [1; 9])
      (BoltStore.SaveSnapshot [1; 9] demo_db).2
    = match block_from_bytes
              (bbolt.Get (stored_block demo_db (snapshot_height [1; 9]))) with
      | Some b => Ok b
      | None => Err ErrCodec
      end.
Proof.
  apply (SaveSnapshot_db_bucket (Block := bytes) [1; 9] demo_db);
    by vm_compute.
Defined.

(** A snapshot saved at the height of the genesis block, and one saved at
    a height that has no block. *)
Example demo_snapshot_buckets :
  stored_snapshot (BoltStore.SaveSnapshot [1; 9] demo_db).2 1 = Some [1; 9]
  ∧ BoltStore.GetBlock (Block := bytes) 1
      (BoltStore.SaveSnapshot [1; 9] demo_db).2 = Ok [1; 0]
  ∧ BoltStore.GetBlock (Block := bytes) 3 demo_db = Panic
  ∧ stored_snapshot (BoltStore.SaveSnapshot [3; 9] demo_db).2 3 = Some [3; 9]
  ∧ BoltStore.GetBlock (Block := bytes) 3
      (BoltStore.SaveSnapshot [3; 9] demo_db).2 = Ok [].
Proof. by vm_compute. Qed.

Lemma db_calls_never_panic_witness :
  let calls := [CallSaveBlock [2; 7]; CallSaveSnapshot [3; 9];
                CallSaveBlock [2; 8]] in
  (∀ r, r ∈ (run_all db_call calls demo_db).1 → r ≠ Panic)
  ∧ db_ready (run_all db_call calls demo_db).2
  ∧ heights_bounded (run_all db_call calls demo_db).2
  ∧ (∃ h, BoltStore.Height (run_all db_call calls demo_db).2 = Ok h)
  ∧ BoltStore.LatestSnapshot (Snapshot := bytes)
      (run_all db_call calls demo_db).2 ≠ Panic.
Proof.
  intros calls. apply (db_calls_never_panic calls demo_db).
  - apply demo_db_ready.
  - apply demo_db_bounded.
  - intros c Hc.
    repeat (apply elem_of_cons in Hc as [->|Hc]; [by vm_compute|]).
    by apply elem_of_nil in Hc.
Defined.

Lemma newBlockStore_db_reopen_witness :
  BoltStore.newBlockStore (Block := bytes) (Err ErrCodec) demo_db
  = (Ok tt, demo_db).
Proof. apply newBlockStore_db_reopen, demo_db_ready. Defined.

Lemma newBlockStore_db_genesis_witness :
  ∃ db, BoltStore.newBlockStore (Ok [1; 0]) None = (Ok tt, db)
        ∧ BoltStore.Height db = Ok 1
        ∧ stored_block db 1 = Some [1; 0]
        ∧ BoltStore.GetBlock (Block := bytes) 1 db
          = match block_from_bytes [1; 0] with
            | Some b => Ok b
            | None => Err ErrCodec
            end
        ∧ BoltStore.LatestSnapshot (Snapshot := bytes) db
          = Ok snapshot_empty.
Proof.
  apply (newBlockStore_db_genesis (Snapshot := bytes) [1; 0] [1; 0]).
  reflexivity.
Defined.

Lemma SaveBlock_db_height_max_witness :
  BoltStore.Height (BoltStore.SaveBlock [2; 7] demo_db).2
  = Ok (Z.max 1 (block_height [2; 7])).
Proof.
  apply (SaveBlock_db_height_max [2; 7] demo_db).
  - apply demo_db_ready.
  - apply demo_db_bounded.
  - by vm_compute.
  - by vm_compute.
  - by vm_compute.
Defined.

Lemma GetBlock_fs_after_SaveBlock_witness :
  FsStore.GetBlock (FsStore.SaveBlock demo_store [2; 7] demo_disk).2.1
    (block_height [2; 7])
    (FsStore.SaveBlock demo_store [2; 7] demo_disk).2.2
  = Ok [2; 7].
Proof.
  apply (GetBlock_fs_after_SaveBlock demo_store [2; 7] demo_disk).
  - by intros bits [= <-].
  - by vm_compute.
Defined.

Lemma SaveBlock_fs_frame_witness :
  FsStore.GetBlock (Block := bytes)
    (FsStore.SaveBlock demo_store [2; 7] demo_disk).2.1 1
    (FsStore.SaveBlock demo_store [2; 7] demo_disk).2.2
  = FsStore.GetBlock demo_store 1 demo_disk
  ∧ FsStore.LatestSnapshot (Snapshot := bytes)
      (FsStore.SaveBlock demo_store [2; 7] demo_disk).2.1
      (FsStore.SaveBlock demo_store [2; 7] demo_disk).2.2
    = FsStore.LatestSnapshot demo_store demo_disk.
Proof.
  apply (SaveBlock_fs_frame (Snapshot := bytes) demo_store [2; 7] demo_disk 1);
    by vm_compute.
Defined.

Lemma SaveSnapshot_fs_frame_witness :
  FsStore.GetBlock (Block := bytes)
    (FsStore.SaveSnapshot demo_store [3; 9] demo_disk).2.1 1
    (FsStore.SaveSnapshot demo_store [3; 9] demo_disk).2.2
  = FsStore.GetBlock demo_store 1 demo_disk.
Proof.
  apply (SaveSnapshot_fs_frame (Block := bytes) demo_store [3; 9] demo_disk 1).
  by vm_compute.
Defined.

Lemma newBlockStore_fs_height_witness :
  let s := {| FsStore.dir := "/data"; FsStore.height := 42 |} in
  FsStore.dir s = "/data"%string
  ∧ is_uint64 (FsStore.height s)
  ∧ ∃ infos N,
      os.ReadDir_name "/data" disk_numbered = Ok infos
      ∧ greatest_from (-1)
          (λ n, ∃ name, (name, true) ∈ infos ∧ strconv.Atoi name = Some n) N
      ∧ if N <? 0 then FsStore.height s = 0
        else ∃ infos2,
          os.ReadDir (path.JoinS "/data" (fmt.d N)) disk_numbered = Ok infos2
          ∧ greatest_from 0
              (λ n, ∃ name, (name, false) ∈ infos2
                            ∧ strconv.ParseUint name = Some n)
              (FsStore.height s).
Proof.
  intros s.
  apply (newBlockStore_fs_height "/data" disk_numbered s disk_numbered).
  by vm_compute.
Defined.

Lemma newBlockStore_fs_reopen_witness :
  FsStore.newBlockStore "/data" demo_disk = (Ok demo_store, demo_disk)
  ∧ os.files demo_disk = os.files os.empty
  ∧ ∀ q, q ∈ os.dirs os.empty → q ∈ os.dirs demo_disk.
Proof.
  apply (newBlockStore_fs_reopen "/data" os.empty demo_store demo_disk).
  by vm_compute.
Defined.

Lemma start_empty_dir_witness :
  ∃ fs1,
    FsStore.newBlockStore "/data" os.empty = (Ok demo_store, fs1)
    ∧ os.is_dir fs1 (root_path "/data") = true
    ∧ os.files fs1 = os.files os.empty
    ∧ (∀ h, is_uint64 h →
         ∃ e, FsStore.GetBlock (Block := bytes) demo_store h fs1 = Err e
              ∧ IsNotExist (Root e) = true)
    ∧ FsStore.LatestSnapshot (Snapshot := bytes) demo_store fs1
      = Ok snapshot_empty
    ∧ Main.start "/data" (Ok [1; 0]) os.empty = (Ok (demo_store, [1; 0]), fs1).
Proof.
  apply (start_empty_dir (Snapshot := bytes) "/data" (Ok [1; 0]) os.empty).
  - by repeat constructor.
  - apply empty_disk_root.
Defined.

Lemma start_stored_block_witness :
  Main.start (FsStore.dir demo_store) (Err ErrCodec)
    (FsStore.SaveBlock demo_store [1; 0] demo_disk).2.2
  = (Ok (demo_store, [1; 0]), disk_with_block_1).
Proof.
  apply (start_stored_block demo_store [1; 0] demo_disk).
  - by intros bits [= <-].
  - by vm_compute.
  - by vm_compute.
  - by vm_compute.
Defined.

Lemma blockFilename_shard_witness :
  let lo := 1234 / 1000 * 1000 in
  FsStore.blockFilename "/data" 1234
  = (path.Join (root_path "/data") (fmt.d_d lo (wrap64 (lo + 999))),
     fmt.d 1234)
  ∧ lo mod 1000 = 0
  ∧ lo ≤ 1234 ≤ lo + 999
  ∧ (1234 < 18446744073709551000 → wrap64 (lo + 999) = lo + 999)
  ∧ (18446744073709551000 ≤ 1234 →
     lo = 18446744073709551000 ∧ wrap64 (lo + 999) = 383)
  ∧ strconv.ParseUint (FsStore.blockFilename "/data" 1234).2 = Some 1234.
Proof. apply (blockFilename_shard "/data" 1234). by vm_compute. Defined.

Lemma get_rejects_witness :
  Handler.get_from 0 demo_chain "-1"
  = (Ok (Handler.Error 400 "parsing height"), []).
Proof. apply (get_rejects 0 demo_chain "-1"). left. reflexivity. Defined.

Lemma failed_start_is_final_witness :
  let st' :=
    {| Server.bb := Some []; Server.timers := 0; Server.world := 0%nat |} in
  let evs := [Server.Submit (Ok [1]) 0; Server.Fire] in
  stuck st'
  ∧ callbacks (Server.run (Server.Fs.step (T := toy_txvm)) evs st').1 = 0%nat
  ∧ stuck (Server.run (Server.Fs.step (T := toy_txvm)) evs st').2.
Proof.
  intros st' evs.
  apply (proj1 (failed_start_is_final (T := toy_txvm) 0%nat)
           [] (Ok [1]) (-6000) "starting a new tx pool" st' evs).
  - reflexivity.
  - done.
Defined.

(** The two servers on the same requests, with a library that accepts
    everything: two transactions, each followed by the time of a block.
    The server on the database store commits two blocks; the server on
    the filesystem store commits the first and adds the second
    transaction to the builder it has built already. *)
Example demo_servers :
  let evs := [Server.Submit (Ok [1]) 0; Server.Fire;
              Server.Submit (Ok [2; 2]) 10000; Server.Fire] in
  Server.run (Server.Bolt.step (T := toy_txvm)) evs (Server.init 0%nat)
  = ([Server.Replied 204 ""; Server.Committed;
      Server.Replied 204 ""; Server.Committed],
     {| Server.bb := None; Server.timers := 0; Server.world := 2%nat |})
  ∧ Server.run (Server.Fs.step (T := toy_txvm)) evs (Server.init 0%nat)
    = ([Server.Replied 204 ""; Server.Committed;
        Server.Replied 204 ""; Server.NoTimer],
       {| Server.bb := Some [2; 1]; Server.timers := 0;
          Server.world := 1%nat |}).
Proof. by vm_compute. Qed.

(** A builder that does not start: the request is answered 500, and the
    transactions that follow are accepted and never committed. *)
Example demo_failed_start :
  let evs := [Server.Submit (Ok [1]) (-6000); Server.Submit (Ok [2; 2]) 0;
              Server.Fire] in
  Server.run (Server.Bolt.step (T := toy_txvm)) evs (Server.init 0%nat)
  = ([Server.Replied 500 "starting a new tx pool"; Server.Replied 204 "";
      Server.NoTimer],
     {| Server.bb := Some [2]; Server.timers := 0; Server.world := 0%nat |}).
Proof. by vm_compute. Qed.

(** ** Stored blocks are kept *)

Section write_once.
Context {Block Snapshot : Type}.
Context {BC : BlockCodec Block} {SC : SnapshotCodec Snapshot}.

Lemma SaveBlock_db_keeps_block (b : Block) db H bits :
  is_uint64 (block_height b) → is_uint64 H →
  stored_block db H = Some bits → bits ≠ [] →
  stored_block (BoltStore.SaveBlock b db).2 H = Some bits.
Proof.
  intros Hb HH Hst Hne.
  destruct (decide (H = block_height b)) as [->|Hdiff].
  - destruct db as [r|]; [|done].
    destruct (bbolt.blocks r) as [m|] eqn:Hm.
    2:{ unfold stored_block in Hst. by rewrite Hm in Hst. }
    destruct (BoltStore.getHeight (Some r)) as [h|e|] eqn:Hh.
    2,3: unfold BoltStore.SaveBlock, bbolt.Update; by rewrite Hh.
    destruct (block_bytes b) as [bits'|] eqn:Hbits.
    2:{ unfold BoltStore.SaveBlock, bbolt.Update. by rewrite Hh, Hm, Hbits. }
    rewrite (SaveBlock_db_spec r m h b bits' Hm Hh Hbits). cbv zeta.
    unfold stored_block in Hst. rewrite Hm in Hst.
    destruct (m !! binary.PutUvarint (block_height b)) as [bu|] eqn:Hbu;
      [|done].
    simpl. rewrite Hst. simpl.
    destruct bits as [|x bits]; [done|].
    case_bool_decide; simpl; unfold stored_block; by rewrite Hm, Hbu.
  - destruct (SaveBlock_db_cases b db)
      as [->|(r & m & h & bits' & -> & Hm & _ & _ & ->)]; [done|].
    cbn [snd]. unfold stored_block in *. simpl. rewrite Hm in Hst.
    rewrite lookup_insert_ne; [done|].
    intros Heq. apply PutUvarint_inj in Heq; done.
Qed.

(** X22.  On the database store a stored block is never replaced: the
    bytes kept for the block of a height, when they are not the empty
    slice, are the same after any sequence of [SaveBlock] and
    [SaveSnapshot] calls, whatever these return. *)
Theorem stored_block_db_final (calls : list (store_call Block Snapshot))
    db H bits :
  (∀ c, c ∈ calls → call_uint64 c) →
  is_uint64 H →
  stored_block db H = Some bits → bits ≠ [] →
  stored_block (run_all db_call calls db).2 H = Some bits.
Proof.
  intros Hcalls HH Hst Hne. revert db Hst.
  induction calls as [|c calls IH]; intros db Hst; simpl; [done|].
  assert (Hstep : stored_block (db_call c db).2 H = Some bits).
  { destruct c as [b|x]; simpl.
    - apply SaveBlock_db_keeps_block; try done.
      apply (Hcalls (CallSaveBlock b)). by left.
    - destruct (SaveSnapshot_db_blocks x db) as [Hblocks _].
      by rewrite Hblocks. }
  destruct (db_call c db) as [r db1]. simpl in Hstep.
  assert (Hrest : ∀ c', c' ∈ calls → call_uint64 c').
  { intros c' Hc'. apply Hcalls. by right. }
  specialize (IH Hrest db1 Hstep).
  by destruct (run_all db_call calls db1).
Qed.

(** [SaveBlock] of the filesystem store, whatever it returns, leaves
    every file that exists as it is. *)
Lemma SaveBlock_fs_keeps_file s (b : Block) fs q bits :
  os.files fs !! q = Some bits →
  os.files (FsStore.SaveBlock s b fs).2.2 !! q = Some bits.
Proof.
  intros Hq.
  destruct (decide (q = block_path (FsStore.dir s) (block_height b)))
    as [->|Hdiff]; [|by rewrite SaveBlock_fs_files].
  destruct (block_bytes b) as [bits'|] eqn:Hbits.
  2:{ unfold FsStore.SaveBlock. by rewrite Hbits. }
  rewrite (SaveBlock_unfold _ _ _ _ Hbits). cbv zeta.
  pose proof (MkdirAll_files
                (FsStore.blockFilename (FsStore.dir s) (block_height b)).1 fs)
    as Hmk.
  destruct (os.MkdirAll _ fs) as [[[]|e|] fs1]; simpl in Hmk;
    [|by simpl; rewrite Hmk..].
  unfold os.OpenFile_excl, os.is_file. rewrite Hmk, Hq.
  rewrite bool_decide_eq_true_2 by by eexists. simpl.
  unfold os.ReadFile. rewrite Hmk, Hq.
  by case_bool_decide; simpl; rewrite Hmk.
Qed.

(** X23.  On the filesystem store a stored block is never replaced: the
    file of a height, once it exists, holds the same bytes after any
    sequence of [SaveBlock] and [SaveSnapshot] calls, whatever these
    return, and [GetBlock] at that height returns what it returned
    before. *)
Theorem stored_block_fs_final (calls : list (store_call Block Snapshot))
    s fs H bits :
  is_uint64 H →
  fs_stored H (s, fs) = Some bits →
  fs_stored H (run_all fs_call calls (s, fs)).2 = Some bits
  ∧ FsStore.GetBlock (Block := Block)
      (run_all fs_call calls (s, fs)).2.1 H
      (run_all fs_call calls (s, fs)).2.2
    = FsStore.GetBlock s H fs.
Proof.
  intros HH Hst.
  assert (Hfile : (run_all fs_call calls (s, fs)).2.1 = s
                  ∧ fs_stored H (run_all fs_call calls (s, fs)).2 = Some bits).
  { revert fs Hst. induction calls as [|c calls IH]; intros fs Hst; simpl;
      [done|].
    assert (Hstep : (fs_call c (s, fs)).2.1 = s
                    ∧ os.files (fs_call c (s, fs)).2.2
                      !! block_path (FsStore.dir s) H = Some bits).
    { destruct c as [b|x]; simpl.
      - rewrite SaveBlock_store. split; [done|].
        by apply SaveBlock_fs_keeps_file.
      - destruct (SaveSnapshot_fs_cases s x fs) as [->|[bits' ->]]; [done|].
        simpl. split; [done|]. rewrite lookup_insert_ne; [done|].
        by apply snapshot_path_not_block. }
    destruct (fs_call c (s, fs)) as [r [s1 fs1]]. simpl in Hstep.
    destruct Hstep as [-> Hstep]. specialize (IH fs1 Hstep).
    by destruct (run_all fs_call calls (s, fs1)). }
  destruct Hfile as [Hs Hf]. split; [done|].
  rewrite !GetBlock_fs_read. unfold fs_stored in *. simpl in Hst.
  rewrite Hs in *. unfold os.ReadFile. by rewrite Hf, Hst.
Qed.

End write_once.

Lemma stored_block_db_final_witness :
  let calls := [CallSaveBlock [1; 5]; CallSaveSnapshot [1; 9];
                CallSaveBlock [2; 8]] in
  stored_block (run_all db_call calls demo_db).2 1 = Some [1; 0].
Proof.
  intros calls. apply (stored_block_db_final calls demo_db 1 [1; 0]).
  - intros c Hc.
    repeat (apply elem_of_cons in Hc as [->|Hc]; [by vm_compute|]).
    by apply elem_of_nil in Hc.
  - by vm_compute.
  - by vm_compute.
  - done.
Defined.

Lemma stored_block_fs_final_witness :
  let calls := [CallSaveBlock [1; 5]; CallSaveSnapshot [1; 9];
                CallSaveBlock [2; 8]] in
  fs_stored 1 (run_all fs_call calls (demo_store, disk_with_block_1)).2
  = Some [1; 0]
  ∧ FsStore.GetBlock (Block := bytes)
      (run_all fs_call calls (demo_store, disk_with_block_1)).2.1 1
      (run_all fs_call calls (demo_store, disk_with_block_1)).2.2
    = FsStore.GetBlock demo_store 1 disk_with_block_1.
Proof.
  intros calls.
  apply (stored_block_fs_final calls demo_store disk_with_block_1 1 [1; 0]).
  - by vm_compute.
  - by vm_compute.
Defined.

(** ** Starting the server on the database store *)

Section starting_db.
Context {Block : Type} {BC : BlockCodec Block}.

(** X24.  The server on the database store started on an empty database
    and then started again on the database it left: both times [main]
    takes as initial block what the bytes of the first genesis block
    decode to; the second start stores nothing, whatever
    [protocol.NewInitialBlock] would return then. *)
Theorem start_db_again (ib : Block) (bbytes : bytes)
    (NewInitialBlock : result Block) :
  block_bytes ib = Some bbytes →
  let initialBlock :=
    match block_from_bytes bbytes with
    | Some b => Ok b
    | None => Err ErrCodec
    end in
  ∃ db, Main.start_db (Ok ib) None = (initialBlock, db)
        ∧ Main.start_db NewInitialBlock db = (initialBlock, db).
Proof.
  intros Hbits initialBlock.
  destruct (newBlockStore_db_fresh ib bbytes Hbits)
    as (db & Hnew & Hready & _ & _ & _ & Hst).
  assert (Hget : BoltStore.GetBlock 1 db = initialBlock).
  { destruct Hready as (r & m & h & -> & Hm & _).
    unfold stored_block in Hst. rewrite Hm in Hst.
    unfold BoltStore.GetBlock. rewrite Hm.
    destruct (m !! binary.PutUvarint 1) as [bu|]; [|done].
    by rewrite Hst. }
  exists db. unfold Main.start_db. rewrite Hnew, Hget. split; [done|].
  destruct (db_ready_height db Hready) as (r & -> & Hlen).
  unfold BoltStore.newBlockStore, bbolt.Update. simpl.
  rewrite bool_decide_eq_false_2 by done. by rewrite Hget.
Qed.

End starting_db.

Lemma start_db_again_witness :
  ∃ db, Main.start_db (Ok [1; 0]) None = (Ok [1; 0], db)
        ∧ Main.start_db (Err ErrCodec) db = (Ok [1; 0], db).
Proof.
  pose proof (start_db_again [1; 0] [1; 0] (Err ErrCodec)) as Hstart.
  simpl in Hstart. apply Hstart. reflexivity.
Defined.

Lemma get_outcomes_witness :
  ∃ N, (Handler.get_from 0 demo_chain "5").2 = [Handler.BlockWaiter N]
       ∧ Handler.chain_wait demo_chain N = false.
Proof.
  destruct (get_outcomes 0 demo_chain "5") as (_ & _ & H408 & _).
  apply H408. by eexists.
Defined.

Lemma Fs_commits_once_witness :
  stuck (Server.run (Server.Fs.step (T := toy_txvm))
           [Server.Submit (Ok [1]) 0; Server.Fire] (Server.init 0%nat)).2.
Proof.
  destruct (Fs_commits_once (T := toy_txvm) 0%nat
              [Server.Submit (Ok [1]) 0; Server.Fire]) as (_ & Hstuck & _).
  apply Hstuck. reflexivity.
Defined.

Lemma Bolt_timer_finds_builder_witness :
  let r := Server.run (Server.Bolt.step (T := toy_txvm))
             [Server.Submit (Ok [1]) 0; Server.Fire] (Server.init 0%nat) in
  Server.bb r.2 = None ∧ Server.timers r.2 = 0%nat.
Proof.
  intros r.
  destruct (Bolt_timer_finds_builder (T := toy_txvm) 0%nat
              [Server.Submit (Ok [1]) 0; Server.Fire]) as (_ & _ & _ & Hlast).
  apply Hlast. reflexivity.
Defined.

Lemma LatestSnapshot_db_after_saves_witness :
  ((∃ x, x ∈ [[5]; [3]; [5; 1]] ∧ snapshot_height x ≠ 0) →
   ∃ r, BoltStore.LatestSnapshot
          (run_all BoltStore.SaveSnapshot [[5]; [3]; [5; 1]] demo_db).2 = Ok r
        ∧ is_latest [[5]; [3]; [5; 1]] r)
  ∧ ((∀ x, x ∈ [[5]; [3]; [5; 1]] → snapshot_height x = 0) →
     BoltStore.LatestSnapshot
       (run_all BoltStore.SaveSnapshot [[5]; [3]; [5; 1]] demo_db).2
     = Ok snapshot_empty).
Proof.
  apply (LatestSnapshot_db_after_saves demo_db [[5]; [3]; [5; 1]]).
  - intros x Hx. apply wire_snapshot_ok.
    repeat (apply elem_of_cons in Hx as [->|Hx]; [by vm_compute|]).
    by apply elem_of_nil in Hx.
  - apply demo_db_ready.
  - by vm_compute.
Defined.

(** A directory name that [path.Clean] would change.  With a regular
    file [data] in the way [newBlockStore("data/../x")] fails, where the
    cleaned name [x] would not pass through [data]; on an empty disk it
    makes both [data] and [x]. *)
Example demo_unclean_dir :
  (FsStore.newBlockStore "data/../x" disk_with_file_data).1
  = Err (Wrap "creating dir data/../x" ENOTDIR)
  ∧ (FsStore.newBlockStore "data/../x" os.empty).1
    = Ok {| FsStore.dir := "data/../x"; FsStore.height := 0 |}
  ∧ elements (os.dirs (FsStore.newBlockStore "data/../x" os.empty).2)
    = [path.Path false ["x"%string]; path.Path false ["data"%string]]
  ∧ (FsStore.newBlockStore "" os.empty).1
    = Err (Wrap "creating dir " ENOENT).
Proof. by vm_compute. Qed.
